(** * Ghost-layer exchange of scmp-3d-mpi: [exchangePDF] and [fillGhostLayersMacVar]

    A shallow embedding of [src/exchangePDF.cpp] and [src/fillGhostLayers.cpp].

    - C++ [int] values are integers of [Z] reduced to the signed 32-bit range
      after every operation ([wrap]); the loops count upwards from [0] below a
      bound that is itself an [int], so their counters never leave the range.
    - [double] values are only copied, never computed with: they are an
      abstract type [V].
    - [double*] buffers are lists; a load or store outside the buffer is the
      error [OutOfBounds] instead of undefined behaviour.
    - The MPI library is not part of the repository.  Its calls follow the
      transport contract of the specification, which is that of the MPI
      standard: a derived datatype is its list of element offsets, and
      [MPI_Sendrecv] packs the send region into a message for the destination
      and deposits the message of the source into the receive region; a peer
      equal to [MPI_PROC_NULL] turns the leg into a no-op.
    - Everything the call does to the outside (allocation, datatype handling,
      communication calls, messages handed to the transport) is recorded in a
      [world]. *)

From stdpp Require Import base tactics numbers list list_numbers.
From Stdlib Require Import ZArith Lia.

Local Open Scope Z_scope.

(** ** Machine integers *)

Module Int.

Definition INT_MIN : Z := - 2 ^ 31.
Definition INT_MAX : Z := 2 ^ 31 - 1.

(** Reduction of an integer to the signed 32-bit range. *)
Definition wrap (z : Z) : Z := (z + 2 ^ 31) `mod` 2 ^ 32 - 2 ^ 31.

Definition add (x y : Z) : Z := wrap (x + y).
Definition sub (x y : Z) : Z := wrap (x - y).
Definition mul (x y : Z) : Z := wrap (x * y).

Definition in_range (z : Z) : Prop := INT_MIN ≤ z ≤ INT_MAX.

End Int.

Infix "+i" := Int.add (at level 50, left associativity).
Infix "-i" := Int.sub (at level 50, left associativity).
Infix "*i" := Int.mul (at level 40, left associativity).

(** ** Errors *)

Inductive error : Type :=
  | BadAlloc      (* new[] with a negative length *)
  | OutOfBounds.  (* load or store outside a buffer *)

Inductive result (A : Type) : Type :=
  | Ok (a : A)
  | Err (e : error).
Arguments Ok {A} a.
Arguments Err {A} e.

Global Instance result_ret : MRet result := λ A a, Ok a.
Global Instance result_bind : MBind result := λ A B f m,
  match m with
  | Ok a => f a
  | Err e => Err e
  end.

(** [for (int i = 0; i < n; i++) body] threading a state through the body. *)
Fixpoint for_each {X S : Type} (idx : list X) (body : X → S → result S) (s : S)
  : result S :=
  match idx with
  | [] => Ok s
  | i :: idx' => s' ← body i s; for_each idx' body s'
  end.

Definition for_lt {S : Type} (n : Z) (body : Z → S → result S) (s : S)
  : result S :=
  for_each (seqZ 0 n) body s.

(** ** MPI datatypes *)

Inductive MPI_Datatype : Type :=
  | MPI_DOUBLE
  | Type_vector (count blocklength stride : Z) (oldtype : MPI_Datatype).

(** [MPI_Type_vector(count, blocklength, stride, oldtype, &newtype)] *)
Definition MPI_Type_vector (count blocklength stride : Z) (oldtype : MPI_Datatype)
  : MPI_Datatype :=
  Type_vector count blocklength stride oldtype.

(** Extent of a datatype, in elements. *)
Fixpoint type_extent (t : MPI_Datatype) : Z :=
  match t with
  | MPI_DOUBLE => 1
  | Type_vector count blocklength stride oldtype =>
      ((count - 1) * stride + blocklength) * type_extent oldtype
  end.

(** Modelled from the spec: the elements that a face descriptor (count, run
    length, stride) denotes from a base address, which the transport library
    defines and the repository does not.  The type map of a datatype lists the
    element offsets it selects, in transfer order. *)
Fixpoint type_map (t : MPI_Datatype) : list Z :=
  match t with
  | MPI_DOUBLE => [0]
  | Type_vector count blocklength stride oldtype =>
      k ← seqZ 0 count;
      e ← seqZ 0 blocklength;
      (λ d, (k * stride + e) * type_extent oldtype + d) <$> type_map oldtype
  end.

(** Offsets of [count] consecutive items of type [t]. *)
Definition transfer_map (count : Z) (t : MPI_Datatype) : list Z :=
  r ← seqZ 0 count; (λ d, r * type_extent t + d) <$> type_map t.

(** ** Calls, events and the outside world *)

Record sendrecv_call : Type := SendrecvCall {
  sendbuf : Z;            (* offset of the send buffer in PDF3d *)
  sendcount : Z;
  sendtype : MPI_Datatype;
  dest : Z;
  sendtag : Z;
  recvbuf : Z;            (* offset of the receive buffer in PDF3d *)
  recvcount : Z;
  recvtype : MPI_Datatype;
  source : Z;
  recvtag : Z
}.

Inductive event : Type :=
  | EvNew (n : Z)                   (* new double[n] *)
  | EvDelete                        (* delete [] *)
  | EvTypeCommit (t : MPI_Datatype) (* MPI_Type_commit *)
  | EvTypeFree (t : MPI_Datatype)   (* MPI_Type_free *)
  | EvSendrecv (c : sendrecv_call). (* MPI_Sendrecv *)

Section Exchange.

(** The values held by the fields. *)
Context {V : Type}.

(** Content of storage that has not been written yet. *)
Variable uninit : V.

(** The rank that stands for "no neighbor". *)
Variable MPI_PROC_NULL : Z.

(** A message handed to the transport. *)
Record message : Type := Message {
  msg_dest : Z;
  msg_tag : Z;
  msg_data : list V
}.

(** The communicator stands for the peers: [comm_recv n source tag e] is
    element [e] of the message that [source] sends with [tag] and that the
    [n]-th event of the call receives. *)
Record MPI_Comm : Type := Comm {
  comm_recv : nat → Z → Z → nat → V
}.

Record world : Type := World {
  trace : list event;
  outbox : list message
}.

Definition emit (e : event) (w : world) : world :=
  World (trace w ++ [e]) (outbox w).

Definition post (m : message) (w : world) : world :=
  World (trace w) (outbox w ++ [m]).

(** ** Buffers *)

Definition load (buf : list V) (p : Z) : result V :=
  if 0 <=? p then
    match buf !! Z.to_nat p with
    | Some v => Ok v
    | None => Err OutOfBounds
    end
  else Err OutOfBounds.

Definition store (buf : list V) (p : Z) (v : V) : result (list V) :=
  if (0 <=? p) && (p <? Z.of_nat (length buf))
  then Ok (<[Z.to_nat p := v]> buf)
  else Err OutOfBounds.

(** [new double[n]] *)
Definition new_double (n : Z) (w : world) : result (list V * world) :=
  if n <? 0 then Err BadAlloc
  else Ok (replicate (Z.to_nat n) uninit, emit (EvNew n) w).

(** ** The transport *)

(** Reading the elements of a region: [base] plus each offset. *)
Fixpoint pack (buf : list V) (base : Z) (offs : list Z) : result (list V) :=
  match offs with
  | [] => Ok []
  | d :: offs' =>
      v ← load buf (base + d);
      vs ← pack buf base offs';
      Ok (v :: vs)
  end.

(** Writing the elements [n], [n+1], ... of a message into a region. *)
Fixpoint deposit (data : nat → V) (n : nat) (base : Z) (offs : list Z)
    (buf : list V) : result (list V) :=
  match offs with
  | [] => Ok buf
  | d :: offs' =>
      buf' ← store buf (base + d) (data n);
      deposit data (S n) base offs' buf'
  end.

(** Modelled from the spec: the blocking paired send-receive primitive of the
    transport, which the repository calls and does not define:
    [MPI_Sendrecv(sendbuf, sendcount, sendtype, dest, sendtag,
                  recvbuf, recvcount, recvtype, source, recvtag, comm, &status)]
    on the buffer [buf] that both regions lie in.  The call is logged; the send
    region goes to the transport unless the destination is "no neighbor"; the
    message of the source is written over the receive region unless the source
    is "no neighbor". *)
Definition MPI_Sendrecv (c : sendrecv_call) (comm : MPI_Comm)
    (buf : list V) (w : world) : result (list V * world) :=
  let n := length (trace w) in
  let w := emit (EvSendrecv c) w in
  w ← (if dest c =? MPI_PROC_NULL then Ok w
       else
         data ← pack buf (sendbuf c) (transfer_map (sendcount c) (sendtype c));
         Ok (post (Message (dest c) (sendtag c) data) w));
  buf ← (if source c =? MPI_PROC_NULL then Ok buf
         else
           deposit (comm_recv comm n (source c) (recvtag c)) 0 (recvbuf c)
             (transfer_map (recvcount c) (recvtype c)) buf);
  Ok (buf, w).

(** ** [exchangePDF] (src/exchangePDF.cpp) *)

Section exchangePDF.

Variables (nn Q MX MY MZ myid : Z) (CART_COMM : MPI_Comm).
Variables (nbr_WEST nbr_EAST nbr_SOUTH nbr_NORTH nbr_BOTTOM nbr_TOP : Z).

Definition MXP : Z := nn +i MX +i nn.  (* padded voxels along X *)
Definition MYP : Z := nn +i MY +i nn.  (* padded voxels along Y *)
Definition MZP : Z := nn +i MZ +i nn.  (* padded voxels along Z *)

(** regular voxels + voxels in the ghost layer *)
Definition PADDED_VOXELS : Z := MXP *i MYP *i MZP.

(** natural index for fa(i,j,k) in PDF3d *)
Definition index_3d (i j k : Z) : Z := i +i j *i MXP +i k *i MXP *i MYP.

(** natural index for f(i,j,k,a) in PDF4d *)
Definition index_4d (a index_3d : Z) : Z := a +i (index_3d *i Q).

(** PDF3d <---- PDF4d(a), over all voxels including the ghost layers *)
Definition gather (a : Z) (PDF4d PDF3d : list V) : result (list V) :=
  for_lt MXP (λ i PDF3d,
    for_lt MYP (λ j PDF3d,
      for_lt MZP (λ k PDF3d,
        let index_3d := index_3d i j k in
        let index_4d := index_4d a index_3d in
        v ← load PDF4d index_4d;
        store PDF3d index_3d v) PDF3d) PDF3d) PDF3d.

(** PDF4d <---- PDF3d(a), over all voxels including the ghost layers *)
Definition scatter (a : Z) (PDF3d PDF4d : list V) : result (list V) :=
  for_lt MXP (λ i PDF4d,
    for_lt MYP (λ j PDF4d,
      for_lt MZP (λ k PDF4d,
        let index_3d := index_3d i j k in
        let index_4d := index_4d a index_3d in
        v ← load PDF3d index_3d;
        store PDF4d index_4d v) PDF4d) PDF4d) PDF4d.

Definition stridex : MPI_Datatype :=
  MPI_Type_vector ((MY +i nn +i nn) *i (MZ +i nn +i nn)) 1 (MX +i nn +i nn)
    MPI_DOUBLE.

Definition stridey : MPI_Datatype :=
  MPI_Type_vector (MZ +i nn +i nn) (MX +i nn +i nn)
    ((MY +i nn +i nn) *i (MX +i nn +i nn)) MPI_DOUBLE.

(** total number of values in a XY plane (contiguous values) *)
Definition no_xy : Z := MXP *i MYP.

(** The body of the loop over the number of ghost layers. *)
Definition exchange_layer (i : Z) (st : list V * world)
  : result (list V * world) :=
  let '(PDF3d, w) := st in
  (* send to nbr_TOP, receive from nbr_BOTTOM *)
  '(PDF3d, w) ←
    (let sx := 0 in let sy := 0 in let sz := nn +i (MZ -i 1) -i i in
     let rx := 0 in let ry := 0 in let rz := (nn -i 1) -i i in
     let send := sx +i sy *i MXP +i sz *i MXP *i MYP in
     let recv := rx +i ry *i MXP +i rz *i MXP *i MYP in
     MPI_Sendrecv
       (SendrecvCall send no_xy MPI_DOUBLE nbr_TOP 111
                     recv no_xy MPI_DOUBLE nbr_BOTTOM 111)
       CART_COMM PDF3d w);
  (* send to nbr_BOTTOM, receive from nbr_TOP *)
  '(PDF3d, w) ←
    (let sx := 0 in let sy := 0 in let sz := nn +i i in
     let rx := 0 in let ry := 0 in let rz := nn +i MZ +i i in
     let send := sx +i sy *i MXP +i sz *i MXP *i MYP in
     let recv := rx +i ry *i MXP +i rz *i MXP *i MYP in
     MPI_Sendrecv
       (SendrecvCall send no_xy MPI_DOUBLE nbr_BOTTOM 222
                     recv no_xy MPI_DOUBLE nbr_TOP 222)
       CART_COMM PDF3d w);
  (* send to nbr_EAST, receive from nbr_WEST *)
  '(PDF3d, w) ←
    (let sx := nn +i (MX -i 1) -i i in let sy := 0 in let sz := 0 in
     let rx := (nn -i 1) -i i in let ry := 0 in let rz := 0 in
     let send := sx +i sy *i MXP +i sz *i MXP *i MYP in
     let recv := rx +i ry *i MXP +i rz *i MXP *i MYP in
     MPI_Sendrecv
       (SendrecvCall send 1 stridex nbr_EAST 333
                     recv 1 stridex nbr_WEST 333)
       CART_COMM PDF3d w);
  (* send to nbr_WEST, receive from nbr_EAST *)
  '(PDF3d, w) ←
    (let sx := nn +i i in let sy := 0 in let sz := 0 in
     let rx := nn +i MX +i i in let ry := 0 in let rz := 0 in
     let send := sx +i sy *i MXP +i sz *i MXP *i MYP in
     let recv := rx +i ry *i MXP +i rz *i MXP *i MYP in
     MPI_Sendrecv
       (SendrecvCall send 1 stridex nbr_WEST 444
                     recv 1 stridex nbr_EAST 444)
       CART_COMM PDF3d w);
  (* send to nbr_NORTH, receive from nbr_SOUTH *)
  '(PDF3d, w) ←
    (let sx := 0 in let sy := nn +i (MY -i 1) -i i in let sz := 0 in
     let rx := 0 in let ry := (nn -i 1) -i i in let rz := 0 in
     let send := sx +i sy *i MXP +i sz *i MXP *i MYP in
     let recv := rx +i ry *i MXP +i rz *i MXP *i MYP in
     MPI_Sendrecv
       (SendrecvCall send 1 stridey nbr_NORTH 555
                     recv 1 stridey nbr_SOUTH 555)
       CART_COMM PDF3d w);
  (* send to nbr_SOUTH, receive from nbr_NORTH *)
  (let sx := 0 in let sy := nn +i i in let sz := 0 in
   let rx := 0 in let ry := nn +i MY +i i in let rz := 0 in
   let send := sx +i sy *i MXP +i sz *i MXP *i MYP in
   let recv := rx +i ry *i MXP +i rz *i MXP *i MYP in
   MPI_Sendrecv
     (SendrecvCall send 1 stridey nbr_SOUTH 666
                   recv 1 stridey nbr_NORTH 666)
     CART_COMM PDF3d w).

(** The body of the loop for all PDF directions. *)
Definition exchange_component (a : Z) (st : list V * list V * world)
  : result (list V * list V * world) :=
  let '(PDF4d, PDF3d, w) := st in
  PDF3d ← gather a PDF4d PDF3d;
  let w := emit (EvTypeCommit stridex) w in
  let w := emit (EvTypeCommit stridey) w in
  '(PDF3d, w) ← for_lt nn exchange_layer (PDF3d, w);
  PDF4d ← scatter a PDF3d PDF4d;
  let w := emit (EvTypeFree stridex) w in
  let w := emit (EvTypeFree stridey) w in
  Ok (PDF4d, PDF3d, w).

Definition exchangePDF (PDF4d : list V) (w : world) : result (list V * world) :=
  let _ := myid in (* my process id: never used *)
  '(PDF3d, w) ← new_double PADDED_VOXELS w;
  '(PDF4d, PDF3d, w) ← for_lt Q exchange_component (PDF4d, PDF3d, w);
  Ok (PDF4d, emit EvDelete w).

End exchangePDF.

End Exchange.

Arguments Message {V}.
Arguments Comm {V}.
Arguments World {V}.

(** ** [fillGhostLayersMacVar] (src/fillGhostLayers.cpp) *)

Section fillGhostLayers.

(** The communicator, the [double*] arguments and the memory they point into. *)
Context {Comm Ptr Mem : Type}.

(** The single-scalar exchange, declared through fillGhostLayers.h and defined
    elsewhere: a parameter. *)
Variable exchangeDBL :
  Z → Z → Z → Z → Z → Comm → Z → Z → Z → Z → Z → Z → Ptr → Mem → result Mem.

Definition fillGhostLayersMacVar (nn LX LY LZ myid : Z) (CART_COMM : Comm)
    (nbr_WEST nbr_EAST nbr_SOUTH nbr_NORTH nbr_BOTTOM nbr_TOP : Z)
    (rho u v w : Ptr) (m : Mem) : result Mem :=
  m ← exchangeDBL nn LX LY LZ myid CART_COMM
        nbr_WEST nbr_EAST nbr_SOUTH nbr_NORTH nbr_BOTTOM nbr_TOP rho m;
  m ← exchangeDBL nn LX LY LZ myid CART_COMM
        nbr_WEST nbr_EAST nbr_SOUTH nbr_NORTH nbr_BOTTOM nbr_TOP u m;
  m ← exchangeDBL nn LX LY LZ myid CART_COMM
        nbr_WEST nbr_EAST nbr_SOUTH nbr_NORTH nbr_BOTTOM nbr_TOP v m;
  exchangeDBL nn LX LY LZ myid CART_COMM
    nbr_WEST nbr_EAST nbr_SOUTH nbr_NORTH nbr_BOTTOM nbr_TOP w m.

(** One delegation to [exchangeDBL], as an observer sees it. *)
Record dbl_call : Type := DblCall {
  dbl_nn : Z; dbl_LX : Z; dbl_LY : Z; dbl_LZ : Z; dbl_myid : Z;
  dbl_comm : Comm;
  dbl_WEST : Z; dbl_EAST : Z; dbl_SOUTH : Z; dbl_NORTH : Z;
  dbl_BOTTOM : Z; dbl_TOP : Z;
  dbl_field : Ptr
}.

(** The collaborator with a log: each call that returns is appended. *)
Definition logged :
  Z → Z → Z → Z → Z → Comm → Z → Z → Z → Z → Z → Z → Ptr →
  Mem * list dbl_call → result (Mem * list dbl_call) :=
  λ nn LX LY LZ myid comm nW nE nS nN nB nT p st,
    m ← exchangeDBL nn LX LY LZ myid comm nW nE nS nN nB nT p st.1;
    Ok (m, st.2 ++ [DblCall nn LX LY LZ myid comm nW nE nS nN nB nT p]).

End fillGhostLayers.

(** ** The vocabulary of the specification *)

(** Linear addressing within a padded block: X fastest, then Y, then Z. *)
Definition index3D (MXP MYP i j k : Z) : Z := i + j * MXP + k * MXP * MYP.

(** Interleaved addressing: component-minor, voxel-major. *)
Definition index4D (Q MXP MYP i j k a : Z) : Z := a + index3D MXP MYP i j k * Q.

(** The caller contract: positive extents, ghost thickness and component
    count, and a field whose size fits an [int]. *)
Definition valid_geometry (nn Q MX MY MZ : Z) : Prop :=
  1 ≤ nn ∧ 1 ≤ Q ∧ 1 ≤ MX ∧ 1 ≤ MY ∧ 1 ≤ MZ ∧
  (MX + 2 * nn) * (MY + 2 * nn) * (MZ + 2 * nn) * Q ≤ Int.INT_MAX.

(** Brute-force enumeration of the faces of constant [x] and of constant [y]. *)
Definition x_face (MXP MYP MZP x : Z) : list Z :=
  k ← seqZ 0 MZP; j ← seqZ 0 MYP; [index3D MXP MYP x j k].

Definition y_face (MXP MYP MZP y : Z) : list Z :=
  k ← seqZ 0 MZP; i ← seqZ 0 MXP; [index3D MXP MYP i y k].

(** The addresses a datatype generates from a base address. *)
Definition addresses (base : Z) (count : Z) (t : MPI_Datatype) : list Z :=
  Z.add base <$> transfer_map count t.

(** The descriptors of the X-normal and of the Y-normal face. *)
Definition x_normal (nn MX MY MZ : Z) : MPI_Datatype :=
  Type_vector ((MY + 2 * nn) * (MZ + 2 * nn)) 1 (MX + 2 * nn) MPI_DOUBLE.

Definition y_normal (nn MX MY MZ : Z) : MPI_Datatype :=
  Type_vector (MZ + 2 * nn) (MX + 2 * nn) ((MX + 2 * nn) * (MY + 2 * nn))
    MPI_DOUBLE.

(** The addressing table of the exchange engine for ghost-layer index [i]. *)
Definition addressing_table (nn MX MY MZ : Z)
    (nbr_WEST nbr_EAST nbr_SOUTH nbr_NORTH nbr_BOTTOM nbr_TOP : Z) (i : Z)
  : list sendrecv_call :=
  let MXP := MX + 2 * nn in
  let MYP := MY + 2 * nn in
  let x_normal := x_normal nn MX MY MZ in
  let y_normal := y_normal nn MX MY MZ in
  let at_x x := index3D MXP MYP x 0 0 in
  let at_y y := index3D MXP MYP 0 y 0 in
  let at_z z := index3D MXP MYP 0 0 z in
  [ SendrecvCall (at_z (nn + (MZ - 1) - i)) (MXP * MYP) MPI_DOUBLE nbr_TOP 111
                 (at_z ((nn - 1) - i)) (MXP * MYP) MPI_DOUBLE nbr_BOTTOM 111;
    SendrecvCall (at_z (nn + i)) (MXP * MYP) MPI_DOUBLE nbr_BOTTOM 222
                 (at_z (nn + MZ + i)) (MXP * MYP) MPI_DOUBLE nbr_TOP 222;
    SendrecvCall (at_x (nn + (MX - 1) - i)) 1 x_normal nbr_EAST 333
                 (at_x ((nn - 1) - i)) 1 x_normal nbr_WEST 333;
    SendrecvCall (at_x (nn + i)) 1 x_normal nbr_WEST 444
                 (at_x (nn + MX + i)) 1 x_normal nbr_EAST 444;
    SendrecvCall (at_y (nn + (MY - 1) - i)) 1 y_normal nbr_NORTH 555
                 (at_y ((nn - 1) - i)) 1 y_normal nbr_SOUTH 555;
    SendrecvCall (at_y (nn + i)) 1 y_normal nbr_SOUTH 666
                 (at_y (nn + MY + i)) 1 y_normal nbr_NORTH 666 ].

(** What one component's pass shows to the outside: both descriptors are
    committed, every ghost layer runs the table, both descriptors are freed. *)
Definition component_trace (nn MX MY MZ : Z)
    (nbr_WEST nbr_EAST nbr_SOUTH nbr_NORTH nbr_BOTTOM nbr_TOP : Z)
  : list event :=
  [EvTypeCommit (x_normal nn MX MY MZ); EvTypeCommit (y_normal nn MX MY MZ)]
  ++ (EvSendrecv <$>
        (i ← seqZ 0 nn;
         addressing_table nn MX MY MZ
           nbr_WEST nbr_EAST nbr_SOUTH nbr_NORTH nbr_BOTTOM nbr_TOP i))
  ++ [EvTypeFree (x_normal nn MX MY MZ); EvTypeFree (y_normal nn MX MY MZ)].

(** What a whole call shows to the outside. *)
Definition call_trace (nn Q MX MY MZ : Z)
    (nbr_WEST nbr_EAST nbr_SOUTH nbr_NORTH nbr_BOTTOM nbr_TOP : Z)
  : list event :=
  [EvNew ((MX + 2 * nn) * (MY + 2 * nn) * (MZ + 2 * nn))]
  ++ (_ ← seqZ 0 Q;
      component_trace nn MX MY MZ
        nbr_WEST nbr_EAST nbr_SOUTH nbr_NORTH nbr_BOTTOM nbr_TOP)
  ++ [EvDelete].

(** Running a list of paired send-receive operations, one after the other. *)
Definition run_calls {V : Type} (PROC_NULL : Z) (comm : MPI_Comm)
    (cs : list sendrecv_call) (st : list V * world) : result (list V * world) :=
  for_each cs (λ c st, MPI_Sendrecv PROC_NULL c comm st.1 st.2) st.

(** The paired send-receive operations of a trace, in order. *)
Definition sendrecv_calls (t : list event) : list sendrecv_call :=
  e ← t; match e with EvSendrecv c => [c] | _ => [] end.

(** The allocations and releases of a trace, in order. *)
Definition allocations (t : list event) : list event :=
  e ← t; match e with EvNew _ | EvDelete => [e] | _ => [] end.


(** The interior voxels of a padded block. *)
Definition interior (nn MX MY MZ i j k : Z) : Prop :=
  nn ≤ i < nn + MX ∧ nn ≤ j < nn + MY ∧ nn ≤ k < nn + MZ.

(** The voxels of a padded block, in the order the loops visit them. *)
Definition padded_voxels (MXP MYP MZP : Z) : list (Z * (Z * Z)) :=
  i ← seqZ 0 MXP; pair i <$> (j ← seqZ 0 MYP; pair j <$> seqZ 0 MZP).

(** ** Cells and rows *)

(** The coordinate that row [r] of the table fixes for the cells it receives
    into, at ghost-layer index [i]. *)
Definition ghost_coordinate (nn MX MY MZ i : Z) (r : nat) (x y z : Z) : Prop :=
  match r with
  | 0%nat => z = nn - 1 - i
  | 1%nat => z = nn + MZ + i
  | 2%nat => x = nn - 1 - i
  | 3%nat => x = nn + MX + i
  | 4%nat => y = nn - 1 - i
  | 5%nat => y = nn + MY + i
  | _ => False
  end.

(** The cells of the ghost face of row [r]: the two coordinates that the row
    leaves free are interior ones. *)
Definition face_cell (nn MX MY MZ : Z) (r : nat) (x y z : Z) : Prop :=
  match r with
  | 0%nat | 1%nat => nn ≤ x < nn + MX ∧ nn ≤ y < nn + MY
  | 2%nat | 3%nat => nn ≤ y < nn + MY ∧ nn ≤ z < nn + MZ
  | 4%nat | 5%nat => nn ≤ x < nn + MX ∧ nn ≤ z < nn + MZ
  | _ => False
  end.

(** The position of a cell in the message of row [r]. *)
Definition element_index (nn MX MY : Z) (r : nat) (x y z : Z) : Z :=
  match r with
  | 0%nat | 1%nat => x + y * (MX + 2 * nn)
  | 2%nat | 3%nat => y + z * (MY + 2 * nn)
  | _ => x + z * (MX + 2 * nn)
  end.

(** The position, in the trace of a call, of the paired exchange of row [r]
    at ghost-layer index [i] of component [a]: one allocation, then per
    component two commits, six exchanges per layer and two frees. *)
Definition event_index (nn a i : Z) (r : nat) : nat :=
  (Z.to_nat (1 + a * (4 + 6 * nn) + 2 + 6 * i) + r)%nat.

(** Brute-force enumeration of the face of constant [z]. *)
Definition z_face (MXP MYP z : Z) : list Z :=
  j ← seqZ 0 MYP; i ← seqZ 0 MXP; [index3D MXP MYP i j z].

(** The addresses of the interior voxels in the scratch buffer. *)
Definition interior_address (nn MX MY MZ q : Z) : Prop :=
  ∃ x y z, interior nn MX MY MZ x y z ∧
           q = index3D (MX + 2 * nn) (MY + 2 * nn) x y z.

(** A message is the one of the send leg of [c]: it goes to the destination
    with the tag of [c], has one element per element of the send region, and
    the element of every address that [P] singles out is its [value]. *)
Definition carries {V : Type} (P : Z → Prop) (value : Z → result V)
    (c : sendrecv_call) (msg : message (V:=V)) : Prop :=
  msg_dest msg = dest c ∧
  msg_tag msg = sendtag c ∧
  length (msg_data msg) = length (transfer_map (sendcount c) (sendtype c)) ∧
  ∀ (m : nat) d,
    transfer_map (sendcount c) (sendtype c) !! m = Some d →
    P (sendbuf c + d) →
    ∃ v, msg_data msg !! m = Some v ∧ value (sendbuf c + d) = Ok v.

(** The send legs of a call that have a neighbor for destination, each with
    its component, in the order of the call. *)
Definition sent_rows (PROC_NULL nn Q MX MY MZ : Z)
    (nbr_WEST nbr_EAST nbr_SOUTH nbr_NORTH nbr_BOTTOM nbr_TOP : Z)
  : list (Z * sendrecv_call) :=
  a ← seqZ 0 Q;
  i ← seqZ 0 nn;
  pair a <$> filter (λ c, dest c ≠ PROC_NULL)
               (addressing_table nn MX MY MZ
                  nbr_WEST nbr_EAST nbr_SOUTH nbr_NORTH nbr_BOTTOM nbr_TOP i).

(** The handling of the descriptors in a trace, in order. *)
Definition datatype_events (t : list event) : list event :=
  e ← t; match e with EvTypeCommit _ | EvTypeFree _ => [e] | _ => [] end.

(** The cell from which row [r] sends the element that lands in the ghost
    cell [(x, y, z)]: the extent of the block further along the row's axis. *)
Definition sent_cell (MX MY MZ : Z) (r : nat) (x y z : Z) : Z * (Z * Z) :=
  match r with
  | 0%nat => (x, (y, z + MZ))
  | 1%nat => (x, (y, z - MZ))
  | 2%nat => (x + MX, (y, z))
  | 3%nat => (x - MX, (y, z))
  | 4%nat => (x, (y + MY, z))
  | _ => (x, (y - MY, z))
  end.

(** The extent of the block along the axis of row [r]. *)
Definition axis_extent (MX MY MZ : Z) (r : nat) : Z :=
  match r with
  | 0%nat | 1%nat => MZ
  | 2%nat | 3%nat => MX
  | _ => MY
  end.

(** The number of leading components all of whose cells lie inside a field
    of [len] elements: the last cell of component [a] is at
    [a + (MXP*MYP*MZP - 1) * Q]. *)
Definition components_inside (nn Q MX MY MZ len : Z) : Z :=
  Z.max 0 (len - ((MX + 2 * nn) * (MY + 2 * nn) * (MZ + 2 * nn) - 1) * Q).

(** ** A sample call *)

(** A communicator whose peers send recognisable values. *)
Definition sample_comm : MPI_Comm (V:=Z) :=
  Comm (λ _ source tag e, 1000 * source + tag + Z.of_nat e).

(** A field whose cell [p] holds [p]. *)
Definition sample_field (n : Z) : list Z := seqZ 0 n.


(** A call with two components on a block of one voxel, whose only neighbor
    is to the east. *)
Definition two_component_call : result (list Z * world) :=
  exchangePDF 0 (-1) 1 2 1 1 1 0 sample_comm (-1) 1 (-1) (-1) (-1) (-1)
    (sample_field 54) (World [] []).

(** Rank 0 of a 2x1x1 process grid: a block of [2*2*2] voxels, one ghost
    layer, one component, the field filled with [7], rank 1 to the east
    sending [3]. *)
Definition rank0_call : result (list Z * world) :=
  exchangePDF 0 (-1) 1 1 2 2 2 0 (Comm (λ _ _ _ _, 3)) (-1) 1 (-1) (-1) (-1) (-1)
    (replicate 64 7) (World [] []).

(** * Properties *)

(** ** Machine integers inside their range *)

Lemma wrap_id z : Int.in_range z → Int.wrap z = z.
Proof.
  unfold Int.in_range, Int.INT_MIN, Int.INT_MAX, Int.wrap. intros Hz.
  rewrite Z.mod_small by lia. lia.
Qed.

Lemma add_exact x y : Int.in_range (x + y) → x +i y = x + y.
Proof. apply wrap_id. Qed.

Lemma sub_exact x y : Int.in_range (x - y) → x -i y = x - y.
Proof. apply wrap_id. Qed.

Lemma mul_exact x y : Int.in_range (x * y) → x *i y = x * y.
Proof. apply wrap_id. Qed.

Lemma in_range_nonneg z : 0 ≤ z ≤ Int.INT_MAX → Int.in_range z.
Proof. unfold Int.in_range, Int.INT_MIN. lia. Qed.

(** ** The error monad and the loops *)

Lemma for_each_app {X S} (l1 l2 : list X) (body : X → S → result S) s :
  for_each (l1 ++ l2) body s = for_each l1 body s ≫= for_each l2 body.
Proof.
  revert s. induction l1 as [|x l1 IH]; intros s; simpl; [done|].
  destruct (body x s) as [s'|e]; simpl; [apply IH | done].
Qed.

(** Nested loops run the body over the pairs of indices, in row order. *)
Lemma for_each_nest {X Y S} (l1 : list X) (l2 : X → list Y)
    (body : X → Y → S → result S) s :
  for_each l1 (λ x s, for_each (l2 x) (body x) s) s =
  for_each (x ← l1; pair x <$> l2 x) (λ xy s, body xy.1 xy.2 s) s.
Proof.
  revert s. induction l1 as [|x l1 IH]; intros s; simpl; [done|].
  rewrite for_each_app.
  assert (Hin : ∀ l s, for_each (pair x <$> l) (λ xy s, body xy.1 xy.2 s) s
                       = for_each l (body x) s).
  { induction l as [|y l IHl]; intros s0; simpl; [done|].
    destruct (body x y s0); simpl; [apply IHl | done]. }
  rewrite Hin. destruct (for_each (l2 x) (body x) s); simpl; [apply IH | done].
Qed.

(** Invariant rule: the invariant speaks about the indices already done. *)
Lemma for_each_inv {X S} (I : list X → S → Prop) (l : list X)
    (body : X → S → result S) s :
  I [] s →
  (∀ done x s, x ∈ l → I done s → ∃ s', body x s = Ok s' ∧ I (done ++ [x]) s') →
  ∃ s', for_each l body s = Ok s' ∧ I l s'.
Proof.
  intros H0 Hstep.
  cut (∀ rest done s, done ++ rest = l → I done s →
         ∃ s', for_each rest body s = Ok s' ∧ I l s').
  { intros Hcut. apply (Hcut l []); done. }
  induction rest as [|x rest IH]; intros done s0 Hl HI; simpl.
  - rewrite app_nil_r in Hl. subst. eauto.
  - destruct (Hstep done x s0) as (s1 & -> & HI1); [|done|].
    + rewrite <- Hl. apply elem_of_app. right. apply list_elem_of_here.
    + simpl. apply (IH (done ++ [x])); [|done].
      by rewrite <- app_assoc.
Qed.

(** Invariant rule for a counting loop. *)
Lemma for_lt_inv {T} (I : Z → T → Prop) (n : Z) (body : Z → T → result T) s :
  0 ≤ n →
  I 0 s →
  (∀ i s, 0 ≤ i < n → I i s → ∃ s', body i s = Ok s' ∧ I (i + 1) s') →
  ∃ s', for_lt n body s = Ok s' ∧ I n s'.
Proof.
  intros Hn H0 Hstep. unfold for_lt.
  cut (∀ (k : nat) m s, 0 ≤ m → m + Z.of_nat k = n → I m s →
         ∃ s', for_each (seqZ m (Z.of_nat k)) body s = Ok s' ∧ I n s').
  { intros Hcut.
    replace (seqZ 0 n) with (seqZ 0 (Z.of_nat (Z.to_nat n))) by (f_equal; lia).
    apply (Hcut (Z.to_nat n) 0); [done | lia | done]. }
  induction k as [|k IH]; intros m s0 Hm Hmk HI.
  - rewrite seqZ_nil by lia. simpl. exists s0. split; [done|].
    by replace n with m by lia.
  - rewrite seqZ_cons by lia. simpl.
    destruct (Hstep m s0) as (s1 & -> & HI1); [lia | done |]. simpl.
    replace (Z.pred (Z.of_nat (S k))) with (Z.of_nat k) by lia.
    apply IH; [lia | lia | by replace (Z.succ m) with (m + 1) by lia].
Qed.

(** ** Buffers *)

Section Buffers.

Context {V : Type}.
Implicit Types (buf : list V) (p q : Z) (v : V).

Lemma load_Ok buf p v :
  load buf p = Ok v ↔ 0 ≤ p ∧ buf !! Z.to_nat p = Some v.
Proof.
  unfold load. destruct (Z.leb_spec 0 p) as [Hp|Hp].
  - destruct (buf !! Z.to_nat p) as [v'|]; split; try done.
    + intros [= <-]; done.
    + intros [_ [= <-]]; done.
    + intros [_ [=]].
  - split; [done | lia].
Qed.

Lemma load_in_bounds buf p :
  0 ≤ p < Z.of_nat (length buf) → ∃ v, load buf p = Ok v.
Proof.
  intros Hp. destruct (lookup_lt_is_Some_2 buf (Z.to_nat p)) as [v Hv]; [lia|].
  exists v. apply load_Ok. split; [lia | done].
Qed.

Lemma load_inv buf p v : load buf p = Ok v → 0 ≤ p < Z.of_nat (length buf).
Proof.
  intros [Hp Hv]%load_Ok. apply lookup_lt_Some in Hv. lia.
Qed.

Lemma store_Ok buf p v buf' :
  store buf p v = Ok buf' ↔
  0 ≤ p < Z.of_nat (length buf) ∧ buf' = <[Z.to_nat p := v]> buf.
Proof.
  unfold store.
  destruct (Z.leb_spec 0 p), (Z.ltb_spec p (Z.of_nat (length buf))); simpl;
    (split; [intros [= <-] | intros [? ->]]); first [done | lia].
Qed.

Lemma store_in_bounds buf p v :
  0 ≤ p < Z.of_nat (length buf) → ∃ buf', store buf p v = Ok buf'.
Proof. intros Hp. eexists. apply store_Ok. split; done. Qed.

Lemma store_length buf p v buf' :
  store buf p v = Ok buf' → length buf' = length buf.
Proof. intros [_ ->]%store_Ok. apply length_insert. Qed.

Lemma load_store_eq buf p v buf' :
  store buf p v = Ok buf' → load buf' p = Ok v.
Proof.
  intros [Hp ->]%store_Ok. apply load_Ok. split; [lia|].
  apply list_lookup_insert_eq. lia.
Qed.

Lemma load_store_ne buf p v buf' q :
  store buf p v = Ok buf' → q ≠ p → load buf' q = load buf q.
Proof.
  intros [Hp ->]%store_Ok Hq. unfold load.
  destruct (Z.leb_spec 0 q); [|done].
  rewrite list_lookup_insert_ne by lia. done.
Qed.

(** Storing the value a cell already holds changes nothing. *)
Lemma store_same buf p v : load buf p = Ok v → store buf p v = Ok buf.
Proof.
  intros Hl. pose proof (load_inv _ _ _ Hl) as Hp.
  apply load_Ok in Hl as [_ Hv]. apply store_Ok. split; [done|].
  by rewrite list_insert_id.
Qed.

(** *** Packing and depositing *)

Lemma pack_in_bounds buf base offs :
  (∀ d, d ∈ offs → 0 ≤ base + d < Z.of_nat (length buf)) →
  ∃ vs, pack buf base offs = Ok vs.
Proof.
  induction offs as [|d offs IH]; intros Hin; simpl; [eauto|].
  destruct (load_in_bounds buf (base + d)) as [v ->].
  { apply Hin. apply list_elem_of_here. }
  destruct IH as [vs ->].
  { intros d' Hd'. apply Hin. by apply list_elem_of_further. }
  simpl. eauto.
Qed.

Lemma deposit_spec (data : nat → V) n base offs buf :
  (∀ d, d ∈ offs → 0 ≤ base + d < Z.of_nat (length buf)) →
  ∃ buf', deposit data n base offs buf = Ok buf' ∧
          length buf' = length buf ∧
          ∀ q, (∀ d, d ∈ offs → q ≠ base + d) → load buf' q = load buf q.
Proof.
  revert n buf. induction offs as [|d offs IH]; intros n buf Hin; simpl.
  - exists buf. done.
  - destruct (store_in_bounds buf (base + d) (data n)) as [buf1 Hst].
    { apply Hin. apply list_elem_of_here. }
    rewrite Hst. simpl.
    pose proof (store_length _ _ _ _ Hst) as Hlen1.
    destruct (IH (S n) buf1) as (buf' & -> & Hlen & Hfr).
    { intros d' Hd'. rewrite Hlen1. apply Hin. by apply list_elem_of_further. }
    exists buf'. split; [done|]. split; [congruence|].
    intros q Hq. rewrite Hfr.
    + eapply load_store_ne; [done|]. apply Hq. apply list_elem_of_here.
    + intros d' Hd'. apply Hq. by apply list_elem_of_further.
Qed.

(** *** One paired send-receive *)

Lemma MPI_Sendrecv_spec (PROC_NULL : Z) c (comm : MPI_Comm) buf (w : world) :
  (dest c ≠ PROC_NULL →
   ∀ d, d ∈ transfer_map (sendcount c) (sendtype c) →
        0 ≤ sendbuf c + d < Z.of_nat (length buf)) →
  (source c ≠ PROC_NULL →
   ∀ d, d ∈ transfer_map (recvcount c) (recvtype c) →
        0 ≤ recvbuf c + d < Z.of_nat (length buf)) →
  ∃ buf' w',
    MPI_Sendrecv PROC_NULL c comm buf w = Ok (buf', w') ∧
    length buf' = length buf ∧
    trace w' = trace w ++ [EvSendrecv c] ∧
    (∀ q, (∀ d, d ∈ transfer_map (recvcount c) (recvtype c) →
                q ≠ recvbuf c + d) → load buf' q = load buf q) ∧
    (source c = PROC_NULL → buf' = buf) ∧
    (dest c = PROC_NULL → outbox w' = outbox w).
Proof.
  intros Hsend Hrecv. unfold MPI_Sendrecv.
  destruct (Z.eqb_spec (dest c) PROC_NULL) as [Hd|Hd];
    destruct (Z.eqb_spec (source c) PROC_NULL) as [Hs|Hs]; simpl.
  - eexists _, _. repeat split; done.
  - destruct (deposit_spec (comm_recv comm (length (trace w)) (source c) (recvtag c))
                0%nat (recvbuf c) (transfer_map (recvcount c) (recvtype c)) buf)
      as (buf' & -> & Hlen & Hfr); [by apply Hrecv|]. simpl.
    eexists _, _. repeat split; done.
  - destruct (pack_in_bounds buf (sendbuf c)
                (transfer_map (sendcount c) (sendtype c))) as [vs ->];
      [by apply Hsend|]. simpl.
    eexists _, _. repeat split; done.
  - destruct (pack_in_bounds buf (sendbuf c)
                (transfer_map (sendcount c) (sendtype c))) as [vs ->];
      [by apply Hsend|]. simpl.
    destruct (deposit_spec (comm_recv comm (length (trace w)) (source c) (recvtag c))
                0%nat (recvbuf c) (transfer_map (recvcount c) (recvtype c)) buf)
      as (buf' & -> & Hlen & Hfr); [by apply Hrecv|]. simpl.
    eexists _, _. repeat split; done.
Qed.

End Buffers.

(** ** Arithmetic of the padded block *)

Lemma product_bounds X Y Z' Q M :
  1 ≤ X → 1 ≤ Y → 1 ≤ Z' → 1 ≤ Q → X * Y * Z' * Q ≤ M →
  0 < X * Y ∧ X * Y ≤ X * Y * Z' ∧ X * Y * Z' ≤ X * Y * Z' * Q.
Proof.
  intros HX HY HZ HQ HM.
  assert (0 < X * Y) as HA by (apply Z.mul_pos_pos; lia).
  set (A := X * Y) in *.
  assert (A ≤ A * Z') by nia.
  set (B := A * Z') in *.
  assert (B ≤ B * Q) by nia.
  lia.
Qed.

Lemma index3D_range X Y Z' i j k :
  0 ≤ i < X → 0 ≤ j < Y → 0 ≤ k < Z' →
  0 ≤ j * X ∧ i + j * X < X * Y ∧
  0 ≤ k * X ∧ k * X ≤ k * X * Y ∧
  0 ≤ index3D X Y i j k < X * Y * Z'.
Proof.
  intros Hi Hj Hk. unfold index3D.
  assert (0 ≤ j * X) by (apply Z.mul_nonneg_nonneg; lia).
  assert (j * X + X ≤ X * Y) by nia.
  assert (0 ≤ k * X) by (apply Z.mul_nonneg_nonneg; lia).
  assert (k * X ≤ k * X * Y) by nia.
  set (A := X * Y) in *.
  replace (k * X * Y) with (k * A) in * by (unfold A; lia).
  assert (0 ≤ k * A) by (apply Z.mul_nonneg_nonneg; lia).
  assert (k * A + A ≤ A * Z') by nia.
  lia.
Qed.

(** The coordinates of a voxel can be read off its linear address. *)
Lemma index3D_x X Y i j k : 0 ≤ i < X → index3D X Y i j k `mod` X = i.
Proof.
  intros Hi. unfold index3D.
  replace (i + j * X + k * X * Y) with (i + (j + k * Y) * X) by lia.
  rewrite Z.mod_add by lia. apply Z.mod_small. done.
Qed.

Lemma index3D_y X Y i j k :
  0 ≤ i < X → 0 ≤ j < Y → (index3D X Y i j k `div` X) `mod` Y = j.
Proof.
  intros Hi Hj. unfold index3D.
  replace (i + j * X + k * X * Y) with (i + (j + k * Y) * X) by lia.
  rewrite Z.div_add by lia. rewrite Z.div_small by done.
  rewrite Z.add_0_l, Z.mod_add by lia. apply Z.mod_small. done.
Qed.

Lemma index3D_z X Y i j k :
  0 ≤ i < X → 0 ≤ j < Y → index3D X Y i j k `div` (X * Y) = k.
Proof.
  intros Hi Hj. unfold index3D.
  replace (i + j * X + k * X * Y) with (i + (j + k * Y) * X) by lia.
  rewrite <- Z.div_div by lia.
  rewrite Z.div_add by lia. rewrite (Z.div_small i X) by done.
  rewrite Z.add_0_l, Z.div_add by lia. rewrite (Z.div_small j Y) by done. lia.
Qed.

(** Distinct components of a voxel never share an interleaved address. *)
Lemma index4D_component Q a a' p p' :
  0 ≤ a < Q → 0 ≤ a' < Q → a + p * Q = a' + p' * Q → a = a' ∧ p = p'.
Proof.
  intros Ha Ha' Heq.
  assert (a `mod` Q = a' `mod` Q) as Hmod.
  { rewrite <- (Z.mod_add a p Q), <- (Z.mod_add a' p' Q) by lia. by rewrite Heq. }
  rewrite !Z.mod_small in Hmod by done. subst a'. split; [done|].
  apply (Z.mul_cancel_r _ _ Q); lia.
Qed.

(** ** Type maps *)

Lemma transfer_map_double n : transfer_map n MPI_DOUBLE = seqZ 0 n.
Proof.
  unfold transfer_map.
  induction (seqZ 0 n) as [|r l IH]; [done|].
  rewrite bind_cons, IH. simpl. f_equal. lia.
Qed.

Lemma bind_singleton_ext {A B} (f g : A → B) (l : list A) :
  (∀ x, f x = g x) → (x ← l; [f x]) = g <$> l.
Proof.
  intros Hfg. induction l as [|x l IH]; [done|].
  rewrite bind_cons, IH, Hfg. done.
Qed.

Lemma fmap_bind_list {A B C} (f : B → C) (g : A → list B) (l : list A) :
  f <$> (l ≫= g) = l ≫= (λ x, f <$> g x).
Proof.
  induction l as [|x l IH]; [done|].
  by rewrite !bind_cons, fmap_app, IH.
Qed.

Lemma transfer_map_vector c b s :
  transfer_map 1 (Type_vector c b s MPI_DOUBLE) =
  k ← seqZ 0 c; e ← seqZ 0 b; [k * s + e].
Proof.
  unfold transfer_map. change (seqZ 0 1) with [0].
  rewrite bind_singleton. cbn [type_map type_extent].
  rewrite fmap_bind_list. apply list_bind_ext; [|done]. intros k.
  rewrite fmap_bind_list. apply list_bind_ext; [|done]. intros e.
  simpl. f_equal. lia.
Qed.

Lemma elem_of_transfer_map_double n d :
  d ∈ transfer_map n MPI_DOUBLE ↔ 0 ≤ d < n.
Proof. rewrite transfer_map_double, elem_of_seqZ. lia. Qed.

Lemma elem_of_transfer_map_vector c b s d :
  d ∈ transfer_map 1 (Type_vector c b s MPI_DOUBLE) ↔
  ∃ k e, 0 ≤ k < c ∧ 0 ≤ e < b ∧ d = k * s + e.
Proof.
  rewrite transfer_map_vector, list_elem_of_bind. split.
  - intros (k & (e & He & Hb)%list_elem_of_bind & Hk).
    apply elem_of_seqZ in Hb, Hk. apply list_elem_of_singleton in He.
    exists k, e. lia.
  - intros (k & e & Hk & He & ->). exists k. split.
    + apply list_elem_of_bind. exists e. split; [apply list_elem_of_singleton; done|].
      apply elem_of_seqZ. lia.
    + apply elem_of_seqZ. lia.
Qed.

(** Counting to [Y * Z'] is counting rows of length [Y]. *)
Lemma seqZ_rows Y Z' :
  0 ≤ Y → seqZ 0 (Y * Z') = k ← seqZ 0 Z'; j ← seqZ 0 Y; [j + k * Y].
Proof.
  intros HY. destruct (Z.le_gt_cases Z' 0) as [Hz|Hz].
  { rewrite (seqZ_nil 0 Z') by done. rewrite seqZ_nil by nia. done. }
  rewrite <- (Z2Nat.id Z') by lia.
  induction (Z.to_nat Z') as [|n IH].
  - rewrite Z.mul_0_r. done.
  - rewrite seqZ_S, bind_app. simpl. rewrite app_nil_r, <- IH.
    replace (Y * Z.of_nat (S n)) with (Y * Z.of_nat n + Y) by lia.
    rewrite seqZ_app by nia. f_equal.
    rewrite (bind_singleton_ext _ (Z.add (0 + Y * Z.of_nat n))) by (intros; lia).
    by rewrite fmap_add_seqZ, Z.add_0_r.
Qed.

(** ** Geometry: the [int] computations of a valid call are exact *)

Section Geometry.

Variables (nn Q MX MY MZ : Z).
Hypothesis Hvalid : valid_geometry nn Q MX MY MZ.

Local Abbreviation mxp := (MX + 2 * nn).
Local Abbreviation myp := (MY + 2 * nn).
Local Abbreviation mzp := (MZ + 2 * nn).
Local Abbreviation pv := (mxp * myp * mzp).

Lemma geometry_bounds :
  1 ≤ nn ∧ 1 ≤ Q ∧ 1 ≤ MX ∧ 1 ≤ MY ∧ 1 ≤ MZ ∧
  0 < mxp * myp ∧ mxp * myp ≤ pv ∧ pv ≤ pv * Q ∧ pv * Q ≤ Int.INT_MAX.
Proof.
  destruct Hvalid as (? & ? & ? & ? & ? & HM).
  destruct (product_bounds mxp myp mzp Q _ ltac:(lia) ltac:(lia) ltac:(lia)
              ltac:(lia) HM) as (? & ? & ?).
  repeat split; done.
Qed.

Lemma padded_small :
  0 ≤ mxp ≤ Int.INT_MAX ∧ 0 ≤ myp ≤ Int.INT_MAX ∧ 0 ≤ mzp ≤ Int.INT_MAX.
Proof.
  destruct geometry_bounds as (? & ? & ? & ? & ? & ? & ? & ? & ?).
  assert (1 ≤ mxp ∧ 1 ≤ myp ∧ 1 ≤ mzp) as (? & ? & ?) by lia.
  pose proof (Z.mul_le_mono_nonneg_l 1 myp mxp ltac:(lia) ltac:(lia)).
  pose proof (Z.mul_le_mono_nonneg_r 1 mxp myp ltac:(lia) ltac:(lia)).
  pose proof (Z.mul_le_mono_nonneg_r 1 (mxp * myp) mzp ltac:(lia) ltac:(lia)).
  lia.
Qed.

Lemma padded_exact M :
  1 ≤ M → M + 2 * nn ≤ Int.INT_MAX → M +i nn +i nn = M + 2 * nn.
Proof.
  intros HM Hle. destruct Hvalid as (? & _).
  rewrite (add_exact M) by (apply in_range_nonneg; lia).
  rewrite add_exact by (apply in_range_nonneg; lia). lia.
Qed.

Lemma MXP_exact : MXP nn MX = mxp.
Proof.
  destruct Hvalid as (? & ? & ? & ? & ? & _).
  destruct padded_small as (? & ? & ?).
  unfold MXP. rewrite (add_exact nn MX) by (apply in_range_nonneg; lia).
  rewrite add_exact by (apply in_range_nonneg; lia). lia.
Qed.

Lemma MYP_exact : MYP nn MY = myp.
Proof.
  destruct Hvalid as (? & ? & ? & ? & ? & _).
  destruct padded_small as (? & ? & ?).
  unfold MYP. rewrite (add_exact nn MY) by (apply in_range_nonneg; lia).
  rewrite add_exact by (apply in_range_nonneg; lia). lia.
Qed.

Lemma MZP_exact : MZP nn MZ = mzp.
Proof.
  destruct Hvalid as (? & ? & ? & ? & ? & _).
  destruct padded_small as (? & ? & ?).
  unfold MZP. rewrite (add_exact nn MZ) by (apply in_range_nonneg; lia).
  rewrite add_exact by (apply in_range_nonneg; lia). lia.
Qed.

Lemma no_xy_exact : no_xy nn MX MY = mxp * myp.
Proof.
  destruct geometry_bounds as (? & ? & ? & ? & ? & ? & ? & ? & ?).
  unfold no_xy. rewrite MXP_exact, MYP_exact.
  apply mul_exact, in_range_nonneg. lia.
Qed.

Lemma PADDED_VOXELS_exact : PADDED_VOXELS nn MX MY MZ = pv.
Proof.
  destruct geometry_bounds as (? & ? & ? & ? & ? & ? & ? & ? & ?).
  unfold PADDED_VOXELS. rewrite MXP_exact, MYP_exact, MZP_exact.
  rewrite (mul_exact mxp) by (apply in_range_nonneg; lia).
  apply mul_exact, in_range_nonneg. lia.
Qed.

(** The address computation of the loops and of the six exchanges. *)
Lemma index_3d_exact i j k :
  0 ≤ i < mxp → 0 ≤ j < myp → 0 ≤ k < mzp →
  index_3d nn MX MY i j k = index3D mxp myp i j k.
Proof.
  intros Hi Hj Hk.
  destruct geometry_bounds as (? & ? & ? & ? & ? & ? & ? & ? & ?).
  destruct (index3D_range mxp myp mzp i j k Hi Hj Hk) as (? & ? & ? & ? & Hp).
  unfold index_3d, index3D in *. rewrite MXP_exact, MYP_exact.
  rewrite (mul_exact j) by (apply in_range_nonneg; lia).
  rewrite (add_exact i) by (apply in_range_nonneg; lia).
  rewrite (mul_exact k) by (apply in_range_nonneg; lia).
  rewrite (mul_exact (k * mxp)) by (apply in_range_nonneg; lia).
  apply add_exact, in_range_nonneg. lia.
Qed.

Lemma index_4d_exact a p :
  0 ≤ a < Q → 0 ≤ p < pv →
  index_4d Q a p = a + p * Q ∧ 0 ≤ a + p * Q < pv * Q.
Proof.
  intros Ha Hp.
  destruct geometry_bounds as (? & ? & ? & ? & ? & ? & ? & ? & ?).
  assert (0 ≤ p * Q) by (apply Z.mul_nonneg_nonneg; lia).
  pose proof (Z.mul_le_mono_nonneg_r (p + 1) pv Q ltac:(lia) ltac:(lia)).
  assert (p * Q + Q ≤ pv * Q) by lia.
  unfold index_4d.
  rewrite (mul_exact p) by (apply in_range_nonneg; lia).
  rewrite add_exact by (apply in_range_nonneg; lia). lia.
Qed.

Lemma stridex_exact :
  stridex nn MX MY MZ = x_normal nn MX MY MZ.
Proof.
  destruct Hvalid as (? & ? & ? & ? & ? & _).
  destruct geometry_bounds as (_ & _ & _ & _ & _ & ? & ? & ? & ?).
  destruct padded_small as (? & ? & ?).
  assert (0 < myp * mzp) by (apply Z.mul_pos_pos; lia).
  pose proof (Z.mul_le_mono_nonneg_r 1 mxp (myp * mzp) ltac:(lia) ltac:(lia)).
  unfold stridex, x_normal, MPI_Type_vector.
  rewrite !padded_exact by lia.
  rewrite mul_exact by (apply in_range_nonneg; lia). done.
Qed.

Lemma stridey_exact :
  stridey nn MX MY MZ = y_normal nn MX MY MZ.
Proof.
  destruct Hvalid as (? & ? & ? & ? & ? & _).
  destruct geometry_bounds as (_ & _ & _ & _ & _ & ? & ? & ? & ?).
  destruct padded_small as (? & ? & ?).
  unfold stridey, y_normal, MPI_Type_vector.
  rewrite !padded_exact by lia.
  rewrite mul_exact by (apply in_range_nonneg; lia).
  f_equal. lia.
Qed.

End Geometry.

(** ** Triple loops *)

Lemma for_each_ext {X S} (l : list X) (f g : X → S → result S) s :
  (∀ x s, x ∈ l → f x s = g x s) → for_each l f s = for_each l g s.
Proof.
  revert s. induction l as [|x l IH]; intros s Hfg; simpl; [done|].
  rewrite Hfg by apply list_elem_of_here.
  destruct (g x s) as [s'|e]; simpl; [|done].
  apply IH. intros y s0 Hy. apply Hfg. by apply list_elem_of_further.
Qed.

Lemma triple_loop {S} (step : Z → Z → Z → S → result S) X Y Z' s :
  for_lt X (λ i s, for_lt Y (λ j s, for_lt Z' (λ k s, step i j k s) s) s) s =
  for_each (padded_voxels X Y Z') (λ v s, step v.1 v.2.1 v.2.2 s) s.
Proof.
  unfold for_lt, padded_voxels.
  rewrite <- (for_each_nest (seqZ 0 X) (λ _, j ← seqZ 0 Y; pair j <$> seqZ 0 Z')
                (λ i jk s, step i jk.1 jk.2 s)).
  apply for_each_ext. intros i s0 _.
  apply (for_each_nest (seqZ 0 Y) (λ _, seqZ 0 Z') (λ j k s, step i j k s)).
Qed.

Lemma elem_of_padded_voxels X Y Z' i j k :
  (i, (j, k)) ∈ padded_voxels X Y Z' ↔ 0 ≤ i < X ∧ 0 ≤ j < Y ∧ 0 ≤ k < Z'.
Proof.
  unfold padded_voxels. rewrite list_elem_of_bind. split.
  - intros (i' & (jk & [= <- <-] & Hjk)%list_elem_of_fmap & Hi).
    apply list_elem_of_bind in Hjk as (j' & (k' & [= <- <-] & Hk)%list_elem_of_fmap & Hj).
    apply elem_of_seqZ in Hi, Hj, Hk. lia.
  - intros (Hi & Hj & Hk). exists i. split; [|apply elem_of_seqZ; lia].
    apply list_elem_of_fmap. exists (j, k). split; [done|].
    apply list_elem_of_bind. exists j. split; [|apply elem_of_seqZ; lia].
    apply list_elem_of_fmap. exists k. split; [done|]. apply elem_of_seqZ; lia.
Qed.

(** ** The repacking stage *)

Section Repacking.

Context {V : Type}.
Variables (nn Q MX MY MZ : Z).
Hypothesis Hvalid : valid_geometry nn Q MX MY MZ.

Local Abbreviation mxp := (MX + 2 * nn).
Local Abbreviation myp := (MY + 2 * nn).
Local Abbreviation mzp := (MZ + 2 * nn).
Local Abbreviation pv := (mxp * myp * mzp).
Local Abbreviation idx3 := (index3D mxp myp).
Local Abbreviation idx4 := (index4D Q mxp myp).

Implicit Types (PDF4d PDF3d : list V).

(** The two indices of a loop iteration, as the code computes them. *)
Lemma voxel_indices a i j k :
  0 ≤ a < Q → 0 ≤ i < mxp → 0 ≤ j < myp → 0 ≤ k < mzp →
  index_3d nn MX MY i j k = idx3 i j k ∧
  index_4d Q a (idx3 i j k) = idx4 i j k a ∧
  0 ≤ idx3 i j k < pv ∧ 0 ≤ idx4 i j k a < pv * Q.
Proof.
  intros Ha Hi Hj Hk.
  destruct (index3D_range mxp myp mzp i j k Hi Hj Hk) as (_ & _ & _ & _ & Hp).
  destruct (index_4d_exact nn Q MX MY MZ Hvalid a _ Ha Hp) as [H4 Hq].
  split; [by apply (index_3d_exact nn Q MX MY MZ)|]. done.
Qed.

Lemma gather_loops a PDF4d PDF3d :
  gather nn Q MX MY MZ a PDF4d PDF3d =
  for_each (padded_voxels mxp myp mzp)
    (λ v PDF3d,
       x ← load PDF4d (index_4d Q a (index_3d nn MX MY v.1 v.2.1 v.2.2));
       store PDF3d (index_3d nn MX MY v.1 v.2.1 v.2.2) x) PDF3d.
Proof.
  unfold gather. rewrite triple_loop.
  by rewrite (MXP_exact nn Q MX MY MZ), (MYP_exact nn Q MX MY MZ),
             (MZP_exact nn Q MX MY MZ).
Qed.

Lemma scatter_loops a PDF3d PDF4d :
  scatter nn Q MX MY MZ a PDF3d PDF4d =
  for_each (padded_voxels mxp myp mzp)
    (λ v PDF4d,
       x ← load PDF3d (index_3d nn MX MY v.1 v.2.1 v.2.2);
       store PDF4d (index_4d Q a (index_3d nn MX MY v.1 v.2.1 v.2.2)) x) PDF4d.
Proof.
  unfold scatter. rewrite triple_loop.
  by rewrite (MXP_exact nn Q MX MY MZ), (MYP_exact nn Q MX MY MZ),
             (MZP_exact nn Q MX MY MZ).
Qed.

(** Gather succeeds and copies component [a] of every padded voxel. *)
Lemma gather_spec a PDF4d PDF3d :
  0 ≤ a < Q →
  Z.of_nat (length PDF4d) = pv * Q →
  Z.of_nat (length PDF3d) = pv →
  ∃ PDF3d',
    gather nn Q MX MY MZ a PDF4d PDF3d = Ok PDF3d' ∧
    length PDF3d' = length PDF3d ∧
    ∀ i j k, 0 ≤ i < mxp → 0 ≤ j < myp → 0 ≤ k < mzp →
      load PDF3d' (idx3 i j k) = load PDF4d (idx4 i j k a).
Proof.
  intros Ha H4 H3. rewrite gather_loops.
  destruct (for_each_inv
    (λ done s, length s = length PDF3d ∧
       ∀ v, v ∈ done → load s (idx3 v.1 v.2.1 v.2.2)
                       = load PDF4d (idx4 v.1 v.2.1 v.2.2 a))
    (padded_voxels mxp myp mzp)
    (λ v PDF3d,
       x ← load PDF4d (index_4d Q a (index_3d nn MX MY v.1 v.2.1 v.2.2));
       store PDF3d (index_3d nn MX MY v.1 v.2.1 v.2.2) x) PDF3d)
    as (s' & Hrun & Hlen & Hs').
  - split; [done|]. intros v Hv. by apply elem_of_nil in Hv.
  - intros done [i [j k]] s Hv [Hlen HI]. simpl.
    apply elem_of_padded_voxels in Hv as (Hi & Hj & Hk).
    destruct (voxel_indices a i j k Ha Hi Hj Hk) as (-> & -> & Hp & Hq).
    destruct (load_in_bounds PDF4d (idx4 i j k a)) as [x Hx]; [lia|].
    rewrite Hx. simpl.
    destruct (store_in_bounds s (idx3 i j k) x) as [s1 Hst]; [lia|].
    exists s1. split; [done|]. split.
    { rewrite (store_length _ _ _ _ Hst). done. }
    intros [i' [j' k']] Hv'. simpl.
    destruct (decide (idx3 i' j' k' = idx3 i j k)) as [Heq|Hne].
    + rewrite Heq, (load_store_eq _ _ _ _ Hst).
      unfold index4D in *. rewrite Heq. done.
    + rewrite (load_store_ne _ _ _ _ _ Hst Hne).
      apply elem_of_app in Hv' as [Hv'|Hv'%list_elem_of_singleton].
      * apply (HI _ Hv').
      * by injection Hv' as -> -> ->.
  - exists s'. split; [done|]. split; [done|].
    intros i j k Hi Hj Hk.
    apply (Hs' (i, (j, k))), elem_of_padded_voxels. done.
Qed.

(** Scatter succeeds, writes component [a] of every padded voxel and leaves
    every other address alone. *)
Lemma scatter_spec a PDF3d PDF4d :
  0 ≤ a < Q →
  Z.of_nat (length PDF4d) = pv * Q →
  Z.of_nat (length PDF3d) = pv →
  ∃ PDF4d',
    scatter nn Q MX MY MZ a PDF3d PDF4d = Ok PDF4d' ∧
    length PDF4d' = length PDF4d ∧
    (∀ i j k, 0 ≤ i < mxp → 0 ≤ j < myp → 0 ≤ k < mzp →
       load PDF4d' (idx4 i j k a) = load PDF3d (idx3 i j k)) ∧
    (∀ q, (∀ i j k, 0 ≤ i < mxp → 0 ≤ j < myp → 0 ≤ k < mzp →
                    q ≠ idx4 i j k a) →
          load PDF4d' q = load PDF4d q).
Proof.
  intros Ha H4 H3. rewrite scatter_loops.
  destruct (for_each_inv
    (λ done s, length s = length PDF4d ∧
       (∀ v, v ∈ done → load s (idx4 v.1 v.2.1 v.2.2 a)
                        = load PDF3d (idx3 v.1 v.2.1 v.2.2)) ∧
       (∀ q, (∀ i j k, 0 ≤ i < mxp → 0 ≤ j < myp → 0 ≤ k < mzp →
                       q ≠ idx4 i j k a) →
             load s q = load PDF4d q))
    (padded_voxels mxp myp mzp)
    (λ v PDF4d,
       x ← load PDF3d (index_3d nn MX MY v.1 v.2.1 v.2.2);
       store PDF4d (index_4d Q a (index_3d nn MX MY v.1 v.2.1 v.2.2)) x) PDF4d)
    as (s' & Hrun & Hlen & Hs' & Hfr).
  - split; [done|]. split; [|done]. intros v Hv. by apply elem_of_nil in Hv.
  - intros done [i [j k]] s Hv (Hlen & HI & Hfr). simpl.
    apply elem_of_padded_voxels in Hv as (Hi & Hj & Hk).
    destruct (voxel_indices a i j k Ha Hi Hj Hk) as (-> & -> & Hp & Hq).
    destruct (load_in_bounds PDF3d (idx3 i j k)) as [x Hx]; [lia|].
    rewrite Hx. simpl.
    destruct (store_in_bounds s (idx4 i j k a) x) as [s1 Hst]; [lia|].
    exists s1. split; [done|]. split.
    { rewrite (store_length _ _ _ _ Hst). done. }
    split.
    + intros [i' [j' k']] Hv'. simpl.
      destruct (decide (idx4 i' j' k' a = idx4 i j k a)) as [Heq|Hne].
      * rewrite Heq, (load_store_eq _ _ _ _ Hst).
        unfold index4D in Heq.
        apply index4D_component in Heq as [_ Heq]; [|done..].
        rewrite Heq. done.
      * rewrite (load_store_ne _ _ _ _ _ Hst Hne).
        apply elem_of_app in Hv' as [Hv'|Hv'%list_elem_of_singleton].
        -- apply (HI _ Hv').
        -- by injection Hv' as -> -> ->.
    + intros q Hq'. rewrite (load_store_ne _ _ _ _ _ Hst); [by apply Hfr|].
      by apply Hq'.
  - exists s'. split; [done|]. split; [done|]. split; [|done].
    intros i j k Hi Hj Hk.
    apply (Hs' (i, (j, k))), elem_of_padded_voxels. done.
Qed.

(** Scattering values that the field already holds leaves the field as it is. *)
Lemma scatter_same a PDF3d PDF4d :
  0 ≤ a < Q →
  (∀ i j k, 0 ≤ i < mxp → 0 ≤ j < myp → 0 ≤ k < mzp →
     ∃ x, load PDF3d (idx3 i j k) = Ok x ∧ load PDF4d (idx4 i j k a) = Ok x) →
  scatter nn Q MX MY MZ a PDF3d PDF4d = Ok PDF4d.
Proof.
  intros Ha Hsame. rewrite scatter_loops.
  destruct (for_each_inv (λ _ s, s = PDF4d)
    (padded_voxels mxp myp mzp)
    (λ v PDF4d,
       x ← load PDF3d (index_3d nn MX MY v.1 v.2.1 v.2.2);
       store PDF4d (index_4d Q a (index_3d nn MX MY v.1 v.2.1 v.2.2)) x) PDF4d)
    as (s' & Hrun & ->); [done| |done].
  intros _ [i [j k]] s Hv ->. simpl.
  apply elem_of_padded_voxels in Hv as (Hi & Hj & Hk).
  destruct (voxel_indices a i j k Ha Hi Hj Hk) as (-> & -> & Hp & Hq).
  destruct (Hsame i j k Hi Hj Hk) as (x & -> & Hx). simpl.
  exists PDF4d. split; [|done]. by apply store_same.
Qed.

End Repacking.

(** ** The regions of the six exchanges *)

Lemma z_slab_address X Y Z' r d :
  0 < X → 0 < Y → 0 ≤ r < Z' → 0 ≤ d < X * Y →
  0 ≤ index3D X Y 0 0 r + d < X * Y * Z' ∧
  (index3D X Y 0 0 r + d) `div` (X * Y) = r.
Proof.
  intros HX HY Hr Hd. unfold index3D.
  replace (0 + 0 * X + r * X * Y + d) with (d + r * (X * Y)) by lia.
  split.
  - pose proof (Z.mul_le_mono_nonneg_r (r + 1) Z' (X * Y) ltac:(lia) ltac:(lia)).
    assert (0 ≤ r * (X * Y)) by (apply Z.mul_nonneg_nonneg; lia). lia.
  - rewrite Z.div_add by lia. rewrite Z.div_small by done. lia.
Qed.

Lemma x_column_address X Y Z' r k :
  0 < X → 0 < Y → 0 ≤ r < X → 0 ≤ k < Y * Z' →
  0 ≤ index3D X Y r 0 0 + k * X < X * Y * Z' ∧
  (index3D X Y r 0 0 + k * X) `mod` X = r.
Proof.
  intros HX HY Hr Hk. unfold index3D.
  replace (r + 0 * X + 0 * X * Y + k * X) with (r + k * X) by lia.
  split.
  - pose proof (Z.mul_le_mono_nonneg_r (k + 1) (Y * Z') X ltac:(lia) ltac:(lia)).
    assert (0 ≤ k * X) by (apply Z.mul_nonneg_nonneg; lia). lia.
  - rewrite Z.mod_add by lia. by apply Z.mod_small.
Qed.

Lemma y_rows_address X Y r k e :
  index3D X Y 0 r 0 + (k * (X * Y) + e) = index3D X Y e r k.
Proof. unfold index3D. lia. Qed.

Section Regions.

Variables (nn Q MX MY MZ : Z).
Hypothesis Hvalid : valid_geometry nn Q MX MY MZ.

Local Abbreviation mxp := (MX + 2 * nn).
Local Abbreviation myp := (MY + 2 * nn).
Local Abbreviation mzp := (MZ + 2 * nn).
Local Abbreviation pv := (mxp * myp * mzp).
Local Abbreviation idx3 := (index3D mxp myp).

(** A slab of constant [z]: inside the block, and away from the interior when
    [z] is a ghost coordinate. *)
Lemma z_slab_region r d :
  0 ≤ r < mzp → d ∈ transfer_map (mxp * myp) MPI_DOUBLE →
  0 ≤ idx3 0 0 r + d < pv ∧
  ((r < nn ∨ nn + MZ ≤ r) →
   ∀ i j k, interior nn MX MY MZ i j k → idx3 0 0 r + d ≠ idx3 i j k).
Proof.
  intros Hr Hd%elem_of_transfer_map_double.
  destruct Hvalid as (? & ? & ? & ? & ? & _).
  destruct (z_slab_address mxp myp mzp r d) as [Hb Hz]; [lia..|].
  split; [done|]. intros Hghost i j k (Hi & Hj & Hk) Heq.
  rewrite Heq, index3D_z in Hz by lia. lia.
Qed.

Lemma x_column_region r d :
  0 ≤ r < mxp → d ∈ transfer_map 1 (x_normal nn MX MY MZ) →
  0 ≤ idx3 r 0 0 + d < pv ∧
  ((r < nn ∨ nn + MX ≤ r) →
   ∀ i j k, interior nn MX MY MZ i j k → idx3 r 0 0 + d ≠ idx3 i j k).
Proof.
  intros Hr (m & e & Hm & He & ->)%elem_of_transfer_map_vector.
  destruct Hvalid as (? & ? & ? & ? & ? & _).
  replace (m * mxp + e) with (m * mxp) by lia.
  destruct (x_column_address mxp myp mzp r m) as [Hb Hx]; [lia..|].
  split; [done|]. intros Hghost i j k (Hi & Hj & Hk) Heq.
  rewrite Heq, index3D_x in Hx by lia. lia.
Qed.

Lemma y_rows_region r d :
  0 ≤ r < myp → d ∈ transfer_map 1 (y_normal nn MX MY MZ) →
  0 ≤ idx3 0 r 0 + d < pv ∧
  ((r < nn ∨ nn + MY ≤ r) →
   ∀ i j k, interior nn MX MY MZ i j k → idx3 0 r 0 + d ≠ idx3 i j k).
Proof.
  intros Hr (m & e & Hm & He & ->)%elem_of_transfer_map_vector.
  destruct Hvalid as (? & ? & ? & ? & ? & _).
  rewrite y_rows_address.
  destruct (index3D_range mxp myp mzp e r m) as (_ & _ & _ & _ & Hb); [lia..|].
  split; [done|]. intros Hghost i j k (Hi & Hj & Hk) Heq.
  assert ((idx3 e r m `div` mxp) `mod` myp = r) as Hy
    by (apply index3D_y; lia).
  rewrite Heq, index3D_y in Hy by lia. lia.
Qed.

(** Every exchange of the table sends from inside the block and receives into
    ghost voxels inside the block. *)
Lemma table_regions nW nE nS nN nB nT i c :
  0 ≤ i < nn →
  c ∈ addressing_table nn MX MY MZ nW nE nS nN nB nT i →
  (∀ d, d ∈ transfer_map (sendcount c) (sendtype c) →
        0 ≤ sendbuf c + d < pv) ∧
  (∀ d, d ∈ transfer_map (recvcount c) (recvtype c) →
        0 ≤ recvbuf c + d < pv ∧
        ∀ x y z, interior nn MX MY MZ x y z → recvbuf c + d ≠ idx3 x y z).
Proof.
  intros Hi Hc. destruct Hvalid as (? & ? & ? & ? & ? & _).
  unfold addressing_table in Hc. cbv zeta in Hc.
  repeat (apply elem_of_cons in Hc as [->|Hc]); [..|by apply elem_of_nil in Hc];
    simpl; (split; intros d Hd).
  all: match goal with
    | H : ?d ∈ _ |- context [index3D _ _ 0 0 ?r + ?d] =>
        destruct (z_slab_region r d ltac:(lia) H) as [Hb Hg]
    | H : ?d ∈ _ |- context [index3D _ _ ?r 0 0 + ?d] =>
        destruct (x_column_region r d ltac:(lia) H) as [Hb Hg]
    | H : ?d ∈ _ |- context [index3D _ _ 0 ?r 0 + ?d] =>
        destruct (y_rows_region r d ltac:(lia) H) as [Hb Hg]
    end;
    first [ exact Hb | split; [exact Hb | apply Hg; lia] ].
Qed.

End Regions.

(** ** The six-direction exchange engine *)

Lemma bind_ret_r {A} (m : result A) : m ≫= Ok = m.
Proof. by destruct m. Qed.

Section Engine.

Context {V : Type}.
Variables (PROC_NULL nn Q MX MY MZ : Z) (CART_COMM : MPI_Comm (V:=V)).
Variables (nbr_WEST nbr_EAST nbr_SOUTH nbr_NORTH nbr_BOTTOM nbr_TOP : Z).
Hypothesis Hvalid : valid_geometry nn Q MX MY MZ.

Local Abbreviation mxp := (MX + 2 * nn).
Local Abbreviation myp := (MY + 2 * nn).
Local Abbreviation mzp := (MZ + 2 * nn).
Local Abbreviation pv := (mxp * myp * mzp).
Local Abbreviation idx3 := (index3D mxp myp).
Local Abbreviation table :=
  (addressing_table nn MX MY MZ
     nbr_WEST nbr_EAST nbr_SOUTH nbr_NORTH nbr_BOTTOM nbr_TOP).

(** The coordinates of the four slabs of an axis of extent [M]. *)
Lemma slab_coordinates M i :
  1 ≤ M → M + 2 * nn ≤ Int.INT_MAX → 0 ≤ i < nn →
  nn +i (M -i 1) -i i = nn + (M - 1) - i ∧
  (nn -i 1) -i i = (nn - 1) - i ∧
  nn +i i = nn + i ∧
  nn +i M +i i = nn + M + i.
Proof.
  intros HM Hle Hi.
  rewrite (sub_exact M), (sub_exact nn 1), (add_exact nn i), (add_exact nn M)
    by (apply in_range_nonneg; lia).
  rewrite (add_exact nn (M - 1)) by (apply in_range_nonneg; lia).
  rewrite !sub_exact, add_exact by (apply in_range_nonneg; lia).
  done.
Qed.

Lemma exchange_layer_table i st :
  0 ≤ i < nn →
  exchange_layer PROC_NULL nn MX MY MZ CART_COMM
    nbr_WEST nbr_EAST nbr_SOUTH nbr_NORTH nbr_BOTTOM nbr_TOP i st
  = run_calls PROC_NULL CART_COMM (table i) st.
Proof.
  intros Hi. destruct st as [PDF3d w].
  destruct Hvalid as (? & ? & ? & ? & ? & _).
  destruct (padded_small nn Q MX MY MZ Hvalid) as (? & ? & ?).
  destruct (slab_coordinates MX i) as (HX1 & HX2 & HX3 & HX4); [lia..|].
  destruct (slab_coordinates MY i) as (HY1 & HY2 & HY3 & HY4); [lia..|].
  destruct (slab_coordinates MZ i) as (HZ1 & HZ2 & HZ3 & HZ4); [lia..|].
  unfold exchange_layer.
  rewrite ?HX1, ?HX2, ?HX3, ?HX4, ?HY1, ?HY4, ?HZ1, ?HZ4.
  fold (index_3d nn MX MY 0 0 (nn + (MZ - 1) - i)).
  fold (index_3d nn MX MY 0 0 ((nn - 1) - i)).
  fold (index_3d nn MX MY 0 0 (nn + i)).
  fold (index_3d nn MX MY 0 0 (nn + MZ + i)).
  fold (index_3d nn MX MY (nn + (MX - 1) - i) 0 0).
  fold (index_3d nn MX MY ((nn - 1) - i) 0 0).
  fold (index_3d nn MX MY (nn + i) 0 0).
  fold (index_3d nn MX MY (nn + MX + i) 0 0).
  fold (index_3d nn MX MY 0 (nn + (MY - 1) - i) 0).
  fold (index_3d nn MX MY 0 ((nn - 1) - i) 0).
  fold (index_3d nn MX MY 0 (nn + i) 0).
  fold (index_3d nn MX MY 0 (nn + MY + i) 0).
  rewrite !(index_3d_exact nn Q MX MY MZ Hvalid) by lia.
  rewrite (no_xy_exact nn Q MX MY MZ Hvalid), (stridex_exact nn Q MX MY MZ Hvalid),
    (stridey_exact nn Q MX MY MZ Hvalid).
  unfold run_calls, addressing_table. simpl.
  repeat match goal with
    | |- ?m ≫= _ = ?m ≫= _ => destruct m as [[? ?]|?]; simpl; [|done]
    end.
  by rewrite bind_ret_r.
Qed.

End Engine.

Lemma seqZ_snoc n : 0 ≤ n → seqZ 0 (n + 1) = seqZ 0 n ++ [n].
Proof.
  intros Hn. rewrite seqZ_app by lia. done.
Qed.

Section Run.

Context {V : Type}.
Variables (PROC_NULL : Z) (CART_COMM : MPI_Comm (V:=V)).

(** A list of exchanges whose regions lie inside the buffer runs to the end,
    logs every call and changes no protected address. *)
Lemma run_calls_spec (P : Z → Prop) cs (buf : list V) (w : world) :
  (∀ c, c ∈ cs →
     (∀ d, d ∈ transfer_map (sendcount c) (sendtype c) →
           0 ≤ sendbuf c + d < Z.of_nat (length buf)) ∧
     (∀ d, d ∈ transfer_map (recvcount c) (recvtype c) →
           0 ≤ recvbuf c + d < Z.of_nat (length buf) ∧ ¬ P (recvbuf c + d))) →
  ∃ buf' w',
    run_calls PROC_NULL CART_COMM cs (buf, w) = Ok (buf', w') ∧
    length buf' = length buf ∧
    trace w' = trace w ++ (EvSendrecv <$> cs) ∧
    (∀ q, P q → load buf' q = load buf q) ∧
    ((∀ c, c ∈ cs → source c = PROC_NULL ∧ dest c = PROC_NULL) →
     buf' = buf ∧ outbox w' = outbox w).
Proof.
  unfold run_calls. revert buf w.
  induction cs as [|c cs IH]; intros buf w Hcs; simpl.
  - exists buf, w. by rewrite app_nil_r.
  - destruct (Hcs c) as [Hsend Hrecv]; [apply list_elem_of_here|].
    destruct (MPI_Sendrecv_spec PROC_NULL c CART_COMM buf w)
      as (buf1 & w1 & -> & Hlen1 & Htr1 & Hfr1 & Hsrc1 & Hdst1).
    { intros _ d Hd. by apply Hsend. }
    { intros _ d Hd. by apply Hrecv. }
    simpl. destruct (IH buf1 w1) as (buf' & w' & -> & Hlen & Htr & Hfr & Hnull).
    { intros c' Hc'. rewrite Hlen1. apply Hcs. by apply list_elem_of_further. }
    exists buf', w'. split; [done|]. split; [congruence|]. split.
    { rewrite Htr, Htr1, <- app_assoc. done. }
    split.
    + intros q Hq. rewrite Hfr by done. apply Hfr1.
      intros d Hd ->. by apply (Hrecv d Hd).
    + intros Hall. destruct (Hall c) as [Hs Hd]; [apply list_elem_of_here|].
      destruct Hnull as [-> ->].
      { intros c' Hc'. apply Hall. by apply list_elem_of_further. }
      split; [by apply Hsrc1 | by apply Hdst1].
Qed.

End Run.

Section Call.

Context {V : Type}.
Variables (uninit : V) (PROC_NULL nn Q MX MY MZ myid : Z).
Variables (CART_COMM : MPI_Comm (V:=V)).
Variables (nbr_WEST nbr_EAST nbr_SOUTH nbr_NORTH nbr_BOTTOM nbr_TOP : Z).
Hypothesis Hvalid : valid_geometry nn Q MX MY MZ.

Local Abbreviation mxp := (MX + 2 * nn).
Local Abbreviation myp := (MY + 2 * nn).
Local Abbreviation mzp := (MZ + 2 * nn).
Local Abbreviation pv := (mxp * myp * mzp).
Local Abbreviation idx3 := (index3D mxp myp).
Local Abbreviation idx4 := (index4D Q mxp myp).
Local Abbreviation table :=
  (addressing_table nn MX MY MZ
     nbr_WEST nbr_EAST nbr_SOUTH nbr_NORTH nbr_BOTTOM nbr_TOP).
Local Abbreviation all_null :=
  (nbr_WEST = PROC_NULL ∧ nbr_EAST = PROC_NULL ∧ nbr_SOUTH = PROC_NULL ∧
   nbr_NORTH = PROC_NULL ∧ nbr_BOTTOM = PROC_NULL ∧ nbr_TOP = PROC_NULL).

Lemma table_peers i c :
  c ∈ table i → all_null → source c = PROC_NULL ∧ dest c = PROC_NULL.
Proof.
  intros Hc (? & ? & ? & ? & ? & ?).
  unfold addressing_table in Hc. cbv zeta in Hc.
  repeat (apply elem_of_cons in Hc as [->|Hc]); [..|by apply elem_of_nil in Hc];
    done.
Qed.

(** The loop over the ghost layers. *)
Lemma layers_spec (PDF3d : list V) (w : world) :
  Z.of_nat (length PDF3d) = pv →
  ∃ PDF3d' w',
    for_lt nn (exchange_layer PROC_NULL nn MX MY MZ CART_COMM
                 nbr_WEST nbr_EAST nbr_SOUTH nbr_NORTH nbr_BOTTOM nbr_TOP)
      (PDF3d, w) = Ok (PDF3d', w') ∧
    length PDF3d' = length PDF3d ∧
    trace w' = trace w ++ (EvSendrecv <$> (i ← seqZ 0 nn; table i)) ∧
    (∀ i j k, interior nn MX MY MZ i j k →
       load PDF3d' (idx3 i j k) = load PDF3d (idx3 i j k)) ∧
    (all_null → PDF3d' = PDF3d ∧ outbox w' = outbox w).
Proof.
  intros Hlen. destruct Hvalid as (Hnn & _).
  destruct (for_lt_inv
    (λ n st,
       length st.1 = length PDF3d ∧
       trace st.2 = trace w ++ (EvSendrecv <$> (i ← seqZ 0 n; table i)) ∧
       (∀ i j k, interior nn MX MY MZ i j k →
          load st.1 (idx3 i j k) = load PDF3d (idx3 i j k)) ∧
       (all_null → st.1 = PDF3d ∧ outbox st.2 = outbox w))
    nn (exchange_layer PROC_NULL nn MX MY MZ CART_COMM
          nbr_WEST nbr_EAST nbr_SOUTH nbr_NORTH nbr_BOTTOM nbr_TOP)
    (PDF3d, w)) as ([buf' w'] & Hrun & HI); [lia| |..].
  - simpl. rewrite app_nil_r. done.
  - intros i [buf0 w0] Hi (Hlen0 & Htr0 & Hint0 & Hnull0).
    simpl in Hlen0, Htr0, Hint0, Hnull0.
    rewrite (exchange_layer_table PROC_NULL nn Q MX MY MZ CART_COMM
               nbr_WEST nbr_EAST nbr_SOUTH nbr_NORTH nbr_BOTTOM nbr_TOP Hvalid)
      by done.
    destruct (run_calls_spec PROC_NULL CART_COMM
                (λ q, ∃ x y z, interior nn MX MY MZ x y z ∧ q = idx3 x y z)
                (table i) buf0 w0)
      as (buf1 & w1 & Hrun1 & Hlen1 & Htr1 & Hint1 & Hnull1).
    { intros c Hc.
      destruct (table_regions nn Q MX MY MZ Hvalid _ _ _ _ _ _ i c Hi Hc)
        as [Hs Hr].
      rewrite Hlen0, Hlen. split; [done|].
      intros d Hd. destruct (Hr d Hd) as [Hb Hg]. split; [done|].
      intros (x & y & z & Hxyz & Heq). by apply (Hg x y z). }
    exists (buf1, w1). split; [done|]. simpl. split; [congruence|]. split.
    { rewrite Htr1, Htr0, seqZ_snoc, bind_app, bind_singleton, fmap_app,
        <- app_assoc by lia. done. }
    split.
    + intros x y z Hxyz. rewrite Hint1 by eauto. by apply Hint0.
    + intros Hall. destruct Hnull1 as [-> ->].
      { intros c Hc. by apply (table_peers i). }
      by apply Hnull0.
  - exists buf', w'. done.
Qed.

(** One component: gather, commit, exchange every layer, scatter, free. *)
Lemma component_spec a (PDF4d PDF3d : list V) (w : world) :
  0 ≤ a < Q →
  Z.of_nat (length PDF4d) = pv * Q →
  Z.of_nat (length PDF3d) = pv →
  ∃ PDF4d' PDF3d' w',
    exchange_component PROC_NULL nn Q MX MY MZ CART_COMM
      nbr_WEST nbr_EAST nbr_SOUTH nbr_NORTH nbr_BOTTOM nbr_TOP a
      (PDF4d, PDF3d, w) = Ok (PDF4d', PDF3d', w') ∧
    length PDF4d' = length PDF4d ∧
    length PDF3d' = length PDF3d ∧
    trace w' = trace w ++ component_trace nn MX MY MZ
                 nbr_WEST nbr_EAST nbr_SOUTH nbr_NORTH nbr_BOTTOM nbr_TOP ∧
    (∀ i j k b, interior nn MX MY MZ i j k → 0 ≤ b < Q →
       load PDF4d' (idx4 i j k b) = load PDF4d (idx4 i j k b)) ∧
    (all_null → PDF4d' = PDF4d ∧ outbox w' = outbox w).
Proof.
  intros Ha H4 H3. destruct Hvalid as (Hnn & HQ & HMX & HMY & HMZ & _).
  unfold exchange_component.
  destruct (gather_spec nn Q MX MY MZ Hvalid a PDF4d PDF3d Ha H4 H3)
    as (s1 & -> & Hlen1 & Hg). simpl.
  rewrite (stridex_exact nn Q MX MY MZ Hvalid), (stridey_exact nn Q MX MY MZ Hvalid).
  destruct (layers_spec s1
              (emit (EvTypeCommit (y_normal nn MX MY MZ))
                 (emit (EvTypeCommit (x_normal nn MX MY MZ)) w)))
    as (s2 & w2 & -> & Hlen2 & Htr2 & Hint2 & Hnull2); [lia|]. simpl.
  destruct (scatter_spec nn Q MX MY MZ Hvalid a s2 PDF4d Ha H4)
    as (f' & Hsc & Hlenf & Hw & Hfr); [lia|].
  rewrite Hsc. simpl.
  exists f', s2, (emit (EvTypeFree (y_normal nn MX MY MZ))
                    (emit (EvTypeFree (x_normal nn MX MY MZ)) w2)).
  split; [done|]. split; [done|]. split; [congruence|]. split.
  { simpl. rewrite Htr2. simpl. unfold component_trace.
    rewrite <- !app_assoc. done. }
  split.
  - intros i j k b Hijk Hb.
    assert (0 ≤ i < mxp ∧ 0 ≤ j < myp ∧ 0 ≤ k < mzp) as (Hi & Hj & Hk)
      by (unfold interior in Hijk; lia).
    destruct (decide (b = a)) as [->|Hba].
    + rewrite Hw, Hint2, Hg by done. done.
    + apply Hfr. intros i' j' k' _ _ _ Heq. unfold index4D in Heq.
      apply index4D_component in Heq as [? _]; done.
  - intros Hall. destruct (Hnull2 Hall) as [-> Hout]. split; [|done].
    assert (scatter nn Q MX MY MZ a s1 PDF4d = Ok PDF4d) as Hsame.
    { apply scatter_same; [done..|]. intros i j k Hi Hj Hk.
      destruct (voxel_indices nn Q MX MY MZ Hvalid a i j k Ha Hi Hj Hk)
        as (_ & _ & _ & Hq).
      destruct (load_in_bounds PDF4d (idx4 i j k a)) as [x Hx]; [lia|].
      exists x. by rewrite Hg. }
    congruence.
Qed.

(** The whole call. *)
Lemma exchangePDF_spec (PDF4d : list V) (w : world) :
  Z.of_nat (length PDF4d) = pv * Q →
  ∃ PDF4d' w',
    exchangePDF uninit PROC_NULL nn Q MX MY MZ myid CART_COMM
      nbr_WEST nbr_EAST nbr_SOUTH nbr_NORTH nbr_BOTTOM nbr_TOP PDF4d w
      = Ok (PDF4d', w') ∧
    length PDF4d' = length PDF4d ∧
    trace w' = trace w ++ call_trace nn Q MX MY MZ
                 nbr_WEST nbr_EAST nbr_SOUTH nbr_NORTH nbr_BOTTOM nbr_TOP ∧
    (∀ i j k b, interior nn MX MY MZ i j k → 0 ≤ b < Q →
       load PDF4d' (idx4 i j k b) = load PDF4d (idx4 i j k b)) ∧
    (all_null → PDF4d' = PDF4d ∧ outbox w' = outbox w).
Proof.
  intros H4. destruct (geometry_bounds nn Q MX MY MZ Hvalid)
    as (Hnn & HQ & HMX & HMY & HMZ & Hxy & Hpv & _).
  unfold exchangePDF, new_double. cbv zeta.
  rewrite (PADDED_VOXELS_exact nn Q MX MY MZ Hvalid).
  destruct (Z.ltb_spec pv 0) as [?|_]; [lia|]. simpl.
  destruct (for_lt_inv
    (λ n st,
       length st.1.1 = length PDF4d ∧
       Z.of_nat (length st.1.2) = pv ∧
       trace st.2 = trace w ++ [EvNew pv] ++
         (_ ← seqZ 0 n; component_trace nn MX MY MZ
            nbr_WEST nbr_EAST nbr_SOUTH nbr_NORTH nbr_BOTTOM nbr_TOP) ∧
       (∀ i j k b, interior nn MX MY MZ i j k → 0 ≤ b < Q →
          load st.1.1 (idx4 i j k b) = load PDF4d (idx4 i j k b)) ∧
       (all_null → st.1.1 = PDF4d ∧ outbox st.2 = outbox w))
    Q (exchange_component PROC_NULL nn Q MX MY MZ CART_COMM
         nbr_WEST nbr_EAST nbr_SOUTH nbr_NORTH nbr_BOTTOM nbr_TOP)
    (PDF4d, replicate (Z.to_nat pv) uninit, emit (EvNew pv) w))
    as ([[f' s'] w'] & -> & Hlen & _ & Htr & Hint & Hnull); [lia| |..].
  - simpl. rewrite length_replicate. split; [done|]. split; [lia|]. done.
  - intros a [[f0 s0] w0] Ha (Hlen0 & Hs0 & Htr0 & Hint0 & Hnull0).
    simpl in Hlen0, Hs0, Htr0, Hint0, Hnull0.
    destruct (component_spec a f0 s0 w0)
      as (f1 & s1 & w1 & -> & Hlen1 & Hs1 & Htr1 & Hint1 & Hnull1);
      [done | lia | done |].
    exists (f1, s1, w1). split; [done|]. simpl.
    split; [congruence|]. split; [lia|]. split.
    { rewrite Htr1, Htr0, seqZ_snoc, bind_app, bind_singleton,
        <- !app_assoc by lia. done. }
    split.
    + intros i j k b Hijk Hb. rewrite Hint1 by done. by apply Hint0.
    + intros Hall. destruct (Hnull1 Hall) as [-> ->]. by apply Hnull0.
  - simpl in *. exists f', (emit EvDelete w'). split; [done|].
    split; [done|]. split; [|done].
    simpl. rewrite Htr. unfold call_trace. rewrite <- !app_assoc. done.
Qed.

End Call.

(** ** Reading traces *)

Lemma sendrecv_calls_app t1 t2 :
  sendrecv_calls (t1 ++ t2) = sendrecv_calls t1 ++ sendrecv_calls t2.
Proof. apply bind_app. Qed.

Lemma sendrecv_calls_fmap cs : sendrecv_calls (EvSendrecv <$> cs) = cs.
Proof.
  induction cs as [|c cs IH]; [done|].
  unfold sendrecv_calls in *. rewrite fmap_cons, bind_cons, IH. done.
Qed.

Lemma elem_of_sendrecv_calls c t : EvSendrecv c ∈ t ↔ c ∈ sendrecv_calls t.
Proof.
  unfold sendrecv_calls. rewrite list_elem_of_bind. split.
  - intros Hc. exists (EvSendrecv c). split; [apply list_elem_of_here | done].
  - intros (e & He & Ht). destruct e; try by apply elem_of_nil in He.
    apply list_elem_of_singleton in He. by subst.
Qed.

Lemma allocations_app t1 t2 :
  allocations (t1 ++ t2) = allocations t1 ++ allocations t2.
Proof. apply bind_app. Qed.

Lemma allocations_fmap cs : allocations (EvSendrecv <$> cs) = [].
Proof.
  induction cs as [|c cs IH]; [done|].
  unfold allocations in *. rewrite fmap_cons, bind_cons, IH. done.
Qed.

Lemma bind_const_nil {A B} (l : list A) : (_ ← l; @nil B) = [].
Proof. induction l as [|x l IH]; [done|]. by rewrite bind_cons, IH. Qed.

Lemma bind_bind_list {A B C} (f : A → list B) (g : B → list C) (l : list A) :
  (l ≫= f) ≫= g = l ≫= (λ x, f x ≫= g).
Proof.
  induction l as [|x l IH]; [done|].
  by rewrite !bind_cons, bind_app, IH.
Qed.

Section Traces.

Variables (nn Q MX MY MZ : Z).
Variables (nbr_WEST nbr_EAST nbr_SOUTH nbr_NORTH nbr_BOTTOM nbr_TOP : Z).

Local Abbreviation table :=
  (addressing_table nn MX MY MZ
     nbr_WEST nbr_EAST nbr_SOUTH nbr_NORTH nbr_BOTTOM nbr_TOP).

Lemma sendrecv_calls_component :
  sendrecv_calls (component_trace nn MX MY MZ
                    nbr_WEST nbr_EAST nbr_SOUTH nbr_NORTH nbr_BOTTOM nbr_TOP)
  = i ← seqZ 0 nn; table i.
Proof.
  unfold component_trace.
  rewrite !sendrecv_calls_app, sendrecv_calls_fmap. simpl.
  by rewrite app_nil_r.
Qed.

Lemma sendrecv_calls_call :
  sendrecv_calls (call_trace nn Q MX MY MZ
                    nbr_WEST nbr_EAST nbr_SOUTH nbr_NORTH nbr_BOTTOM nbr_TOP)
  = _ ← seqZ 0 Q; i ← seqZ 0 nn; table i.
Proof.
  unfold call_trace. rewrite !sendrecv_calls_app. simpl. rewrite app_nil_r.
  unfold sendrecv_calls at 1. rewrite bind_bind_list.
  apply list_bind_ext; [|done]. intros _. apply sendrecv_calls_component.
Qed.

Lemma allocations_component :
  allocations (component_trace nn MX MY MZ
                 nbr_WEST nbr_EAST nbr_SOUTH nbr_NORTH nbr_BOTTOM nbr_TOP) = [].
Proof.
  unfold component_trace. rewrite !allocations_app, allocations_fmap. done.
Qed.

Lemma allocations_call :
  allocations (call_trace nn Q MX MY MZ
                 nbr_WEST nbr_EAST nbr_SOUTH nbr_NORTH nbr_BOTTOM nbr_TOP)
  = [EvNew ((MX + 2 * nn) * (MY + 2 * nn) * (MZ + 2 * nn)); EvDelete].
Proof.
  unfold call_trace. rewrite !allocations_app.
  unfold allocations at 2. rewrite bind_bind_list.
  rewrite (list_bind_ext _ (λ _, []) _ (seqZ 0 Q)); [|intros _; apply allocations_component|done].
  rewrite bind_const_nil. done.
Qed.

End Traces.

(** ** Faces *)

Lemma x_normal_addresses nn MX MY MZ x :
  0 ≤ MY + 2 * nn →
  addresses (index3D (MX + 2 * nn) (MY + 2 * nn) x 0 0) 1 (x_normal nn MX MY MZ)
  = x_face (MX + 2 * nn) (MY + 2 * nn) (MZ + 2 * nn) x.
Proof.
  intros HY. unfold addresses, x_normal, x_face.
  rewrite transfer_map_vector, seqZ_rows by done.
  rewrite bind_bind_list, fmap_bind_list.
  apply list_bind_ext; [|done]. intros k.
  rewrite bind_bind_list, fmap_bind_list.
  apply list_bind_ext; [|done]. intros j.
  rewrite bind_singleton. change (seqZ 0 1) with [0].
  rewrite bind_singleton. simpl. unfold index3D. f_equal. lia.
Qed.

Lemma y_normal_addresses nn MX MY MZ y :
  addresses (index3D (MX + 2 * nn) (MY + 2 * nn) 0 y 0) 1 (y_normal nn MX MY MZ)
  = y_face (MX + 2 * nn) (MY + 2 * nn) (MZ + 2 * nn) y.
Proof.
  unfold addresses, y_normal, y_face.
  rewrite transfer_map_vector, fmap_bind_list.
  apply list_bind_ext; [|done]. intros k.
  rewrite fmap_bind_list.
  apply list_bind_ext; [|done]. intros i.
  simpl. unfold index3D. f_equal. lia.
Qed.

Lemma type_map_vector_length c b s :
  0 ≤ c → 0 ≤ b →
  Z.of_nat (length (type_map (Type_vector c b s MPI_DOUBLE))) = c * b.
Proof.
  intros Hc Hb. cbn [type_map].
  assert (∀ (l : list Z) (f : Z → list Z) n,
            (∀ x, length (f x) = n) → length (l ≫= f) = (length l * n)%nat) as Hlen.
  { intros l f n Hf. induction l as [|x l IH]; [done|].
    rewrite bind_cons, length_app, Hf, IH. simpl. lia. }
  rewrite (Hlen _ _ (Z.to_nat b)).
  - rewrite length_seqZ. lia.
  - intros k. rewrite (Hlen _ _ 1%nat); [|done]. rewrite length_seqZ. lia.
Qed.

(** * The claims *)

Section Claims.

Context {V : Type}.
Variables (uninit : V) (PROC_NULL nn Q MX MY MZ myid : Z).
Variables (CART_COMM : MPI_Comm (V:=V)).
Variables (nbr_WEST nbr_EAST nbr_SOUTH nbr_NORTH nbr_BOTTOM nbr_TOP : Z).

Local Abbreviation mxp := (MX + 2 * nn).
Local Abbreviation myp := (MY + 2 * nn).
Local Abbreviation mzp := (MZ + 2 * nn).
Local Abbreviation pv := (mxp * myp * mzp).
Local Abbreviation table :=
  (addressing_table nn MX MY MZ
     nbr_WEST nbr_EAST nbr_SOUTH nbr_NORTH nbr_BOTTOM nbr_TOP).
Local Abbreviation run :=
  (exchangePDF uninit PROC_NULL nn Q MX MY MZ myid CART_COMM
     nbr_WEST nbr_EAST nbr_SOUTH nbr_NORTH nbr_BOTTOM nbr_TOP).


(** C2: Gather succeeds and, for component [a] and every padded voxel
    [(i,j,k)] (ghost voxels included: [i] below [MX + 2 nn], [j] below
    [MY + 2 nn], [k] below [MZ + 2 nn]), leaves in
    [scratch[index3D(i,j,k)]] the very value of
    [interleaved[index4D(i,j,k,a)]]. *)
Theorem gather_copies_component a (PDF4d PDF3d : list V) :
  valid_geometry nn Q MX MY MZ →
  0 ≤ a < Q →
  Z.of_nat (length PDF4d) = pv * Q →
  Z.of_nat (length PDF3d) = pv →
  ∃ PDF3d',
    gather nn Q MX MY MZ a PDF4d PDF3d = Ok PDF3d' ∧
    ∀ i j k,
      0 ≤ i < MX + 2 * nn → 0 ≤ j < MY + 2 * nn → 0 ≤ k < MZ + 2 * nn →
      ∃ x, load PDF4d (index4D Q mxp myp i j k a) = Ok x ∧
           load PDF3d' (index3D mxp myp i j k) = Ok x.
Proof.
  intros Hvalid Ha H4 H3.
  destruct (gather_spec nn Q MX MY MZ Hvalid a PDF4d PDF3d Ha H4 H3)
    as (s & Hrun & _ & Hs).
  exists s. split; [done|].
  intros i j k Hi Hj Hk.
  destruct (voxel_indices nn Q MX MY MZ Hvalid a i j k Ha Hi Hj Hk)
    as (_ & _ & _ & Hq).
  destruct (load_in_bounds PDF4d (index4D Q mxp myp i j k a)) as [x Hx]; [lia|].
  exists x. split; [done|]. by rewrite Hs.
Qed.

(** C3: for every component, Gather followed by Scatter with no
    communication in between returns the interleaved field unchanged; so does
    a whole component pass when all six neighbors are "no neighbor". *)
Theorem gather_scatter_identity a (PDF4d PDF3d : list V) (w : world) :
  valid_geometry nn Q MX MY MZ →
  0 ≤ a < Q →
  Z.of_nat (length PDF4d) = pv * Q →
  Z.of_nat (length PDF3d) = pv →
  (∃ PDF3d',
     gather nn Q MX MY MZ a PDF4d PDF3d = Ok PDF3d' ∧
     scatter nn Q MX MY MZ a PDF3d' PDF4d = Ok PDF4d) ∧
  ∃ PDF3d' w',
    exchange_component PROC_NULL nn Q MX MY MZ CART_COMM
      PROC_NULL PROC_NULL PROC_NULL PROC_NULL PROC_NULL PROC_NULL a
      (PDF4d, PDF3d, w) = Ok (PDF4d, PDF3d', w').
Proof.
  intros Hvalid Ha H4 H3. split.
  - destruct (gather_spec nn Q MX MY MZ Hvalid a PDF4d PDF3d Ha H4 H3)
      as (s & Hrun & _ & Hs).
    exists s. split; [done|]. apply scatter_same; [done..|].
    intros i j k Hi Hj Hk.
    destruct (voxel_indices nn Q MX MY MZ Hvalid a i j k Ha Hi Hj Hk)
      as (_ & _ & _ & Hq).
    destruct (load_in_bounds PDF4d (index4D Q mxp myp i j k a)) as [x Hx]; [lia|].
    exists x. by rewrite Hs.
  - destruct (component_spec PROC_NULL nn Q MX MY MZ CART_COMM
                PROC_NULL PROC_NULL PROC_NULL PROC_NULL PROC_NULL PROC_NULL
                Hvalid a PDF4d PDF3d w Ha H4 H3)
      as (f' & s' & w' & Hrun & _ & _ & _ & _ & Hnull).
    destruct Hnull as [-> _]; [done|]. eauto.
Qed.

(** C4: the X-normal descriptor built from the code's arguments selects
    [MYP*MZP] single elements spaced [MXP] apart, the Y-normal descriptor
    [MZP] runs of length [MXP] spaced [MXP*MYP] apart, and the addresses they
    generate from the base of a face are the brute-force [index3D]
    enumeration of that face; for [MX=4, MY=3, MZ=2, nn=1] these are 20
    elements spaced 6 apart and 4 runs of length 6 spaced 30 apart. *)
Theorem face_descriptors :
  valid_geometry nn Q MX MY MZ →
  stridex nn MX MY MZ = Type_vector (myp * mzp) 1 mxp MPI_DOUBLE ∧
  stridey nn MX MY MZ = Type_vector mzp mxp (mxp * myp) MPI_DOUBLE ∧
  Z.of_nat (length (type_map (stridex nn MX MY MZ))) = myp * mzp ∧
  Z.of_nat (length (type_map (stridey nn MX MY MZ))) = mzp * mxp ∧
  (∀ x, addresses (index3D mxp myp x 0 0) 1 (stridex nn MX MY MZ)
        = x_face mxp myp mzp x) ∧
  (∀ y, addresses (index3D mxp myp 0 y 0) 1 (stridey nn MX MY MZ)
        = y_face mxp myp mzp y) ∧
  stridex 1 4 3 2 = Type_vector 20 1 6 MPI_DOUBLE ∧
  stridey 1 4 3 2 = Type_vector 4 6 30 MPI_DOUBLE.
Proof.
  intros Hvalid. pose proof Hvalid as (? & ? & ? & ? & ? & _).
  rewrite (stridex_exact nn Q MX MY MZ Hvalid), (stridey_exact nn Q MX MY MZ Hvalid).
  split; [done|]. split; [done|]. split.
  { unfold x_normal. rewrite type_map_vector_length; [lia| |lia].
    apply Z.mul_nonneg_nonneg; lia. }
  split.
  { unfold y_normal. rewrite type_map_vector_length; lia. }
  split; [intros x; apply x_normal_addresses; lia|].
  split; [intros y; apply y_normal_addresses|].
  split; reflexivity.
Qed.

(** C5: after a valid call returns, every interior element of the field, for
    every component, holds its value from before the call. *)
Theorem interior_untouched (PDF4d : list V) (w : world) :
  valid_geometry nn Q MX MY MZ →
  Z.of_nat (length PDF4d) = pv * Q →
  ∃ PDF4d' w',
    run PDF4d w = Ok (PDF4d', w') ∧
    ∀ i j k a,
      nn ≤ i < nn + MX → nn ≤ j < nn + MY → nn ≤ k < nn + MZ → 0 ≤ a < Q →
      ∃ x, load PDF4d (index4D Q mxp myp i j k a) = Ok x ∧
           load PDF4d' (index4D Q mxp myp i j k a) = Ok x.
Proof.
  intros Hvalid Hlen.
  destruct (exchangePDF_spec uninit PROC_NULL nn Q MX MY MZ myid CART_COMM
              nbr_WEST nbr_EAST nbr_SOUTH nbr_NORTH nbr_BOTTOM nbr_TOP
              Hvalid PDF4d w Hlen) as (f' & w' & Hrun & _ & _ & Hint & _).
  exists f', w'. split; [done|]. intros i j k a Hi Hj Hk Ha.
  pose proof Hvalid as (? & _).
  destruct (voxel_indices nn Q MX MY MZ Hvalid a i j k Ha) as (_ & _ & _ & Hq);
    [lia..|].
  destruct (load_in_bounds PDF4d (index4D Q mxp myp i j k a)) as [x Hx]; [lia|].
  exists x. split; [done|]. rewrite Hint; done.
Qed.

(** C6: with all six neighbors equal to "no neighbor" a valid call returns
    without error, hands nothing to the transport and leaves the whole field,
    ghost layers included, as it was.  Whatever the neighbors are, each of the
    six paired exchanges of a ghost layer succeeds, its receive leg leaves the
    scratch buffer as it was when the source is "no neighbor", and its send
    leg hands nothing to the transport when the destination is
    "no neighbor". *)
Theorem no_neighbor_safety (PDF4d : list V) (w : world) :
  valid_geometry nn Q MX MY MZ →
  Z.of_nat (length PDF4d) = pv * Q →
  (∃ w',
     exchangePDF uninit PROC_NULL nn Q MX MY MZ myid CART_COMM
       PROC_NULL PROC_NULL PROC_NULL PROC_NULL PROC_NULL PROC_NULL PDF4d w
     = Ok (PDF4d, w') ∧
     outbox w' = outbox w) ∧
  (∀ i c (PDF3d : list V) (w0 : world),
     0 ≤ i < nn → c ∈ table i → Z.of_nat (length PDF3d) = pv →
     ∃ PDF3d' w',
       MPI_Sendrecv PROC_NULL c CART_COMM PDF3d w0 = Ok (PDF3d', w') ∧
       (source c = PROC_NULL → PDF3d' = PDF3d) ∧
       (dest c = PROC_NULL → outbox w' = outbox w0)).
Proof.
  intros Hvalid Hlen. split.
  - destruct (exchangePDF_spec uninit PROC_NULL nn Q MX MY MZ myid CART_COMM
                PROC_NULL PROC_NULL PROC_NULL PROC_NULL PROC_NULL PROC_NULL
                Hvalid PDF4d w Hlen) as (f' & w' & Hrun & _ & _ & _ & Hnull).
    destruct Hnull as [-> Hout]; [done|]. eauto.
  - intros i c buf w0 Hi Hc Hbuf.
    destruct (table_regions nn Q MX MY MZ Hvalid _ _ _ _ _ _ i c Hi Hc)
      as [Hs Hr].
    destruct (MPI_Sendrecv_spec PROC_NULL c CART_COMM buf w0)
      as (buf' & w' & Hrun & _ & _ & _ & Hsrc & Hdst).
    { intros _ d Hd. rewrite Hbuf. by apply Hs. }
    { intros _ d Hd. rewrite Hbuf. by apply Hr. }
    eauto.
Qed.



(** C10: in a valid call every index into the scratch buffer and into the
    interleaved array is inside the buffer: the indices that Gather and
    Scatter compute, and every element of the send and of the receive region
    of every paired exchange; the call never fails. *)
Theorem accesses_in_bounds (PDF4d : list V) (w : world) :
  valid_geometry nn Q MX MY MZ →
  Z.of_nat (length PDF4d) = pv * Q →
  PADDED_VOXELS nn MX MY MZ = pv ∧
  (∀ a i j k,
     0 ≤ a < Q → 0 ≤ i < MXP nn MX → 0 ≤ j < MYP nn MY → 0 ≤ k < MZP nn MZ →
     0 ≤ index_3d nn MX MY i j k < pv ∧
     0 ≤ index_4d Q a (index_3d nn MX MY i j k) < pv * Q) ∧
  ∃ PDF4d' w' t,
    run PDF4d w = Ok (PDF4d', w') ∧
    trace w' = trace w ++ t ∧
    ∀ c, EvSendrecv c ∈ t →
      (∀ d, d ∈ transfer_map (sendcount c) (sendtype c) →
            0 ≤ sendbuf c + d < pv) ∧
      (∀ d, d ∈ transfer_map (recvcount c) (recvtype c) →
            0 ≤ recvbuf c + d < pv).
Proof.
  intros Hvalid Hlen.
  split; [apply (PADDED_VOXELS_exact nn Q MX MY MZ Hvalid)|]. split.
  - rewrite (MXP_exact nn Q MX MY MZ Hvalid), (MYP_exact nn Q MX MY MZ Hvalid),
      (MZP_exact nn Q MX MY MZ Hvalid).
    intros a i j k Ha Hi Hj Hk.
    destruct (voxel_indices nn Q MX MY MZ Hvalid a i j k Ha Hi Hj Hk)
      as (-> & -> & Hp & Hq). done.
  - destruct (exchangePDF_spec uninit PROC_NULL nn Q MX MY MZ myid CART_COMM
                nbr_WEST nbr_EAST nbr_SOUTH nbr_NORTH nbr_BOTTOM nbr_TOP
                Hvalid PDF4d w Hlen) as (f' & w' & Hrun & _ & Htr & _).
    exists f', w', (call_trace nn Q MX MY MZ
                      nbr_WEST nbr_EAST nbr_SOUTH nbr_NORTH nbr_BOTTOM nbr_TOP).
    split; [done|]. split; [done|]. intros c Hc.
    apply elem_of_sendrecv_calls in Hc. rewrite sendrecv_calls_call in Hc.
    apply list_elem_of_bind in Hc as (_ & Hc & _).
    apply list_elem_of_bind in Hc as (i & Hc & Hi%elem_of_seqZ).
    destruct (table_regions nn Q MX MY MZ Hvalid _ _ _ _ _ _ i c
                ltac:(lia) Hc) as [Hs Hr].
    split; [done|]. intros d Hd. by apply Hr.
Qed.

End Claims.

(** C9: whatever the single-scalar exchange is, [fillGhostLayersMacVar] is
    the sequence of four delegations to it, for [rho], [u], [v] and [w] in
    this order, each with the caller's [nn], extents, rank, communicator and
    six neighbors; nothing else touches the memory. *)
Theorem fillGhostLayersMacVar_delegates {Comm Ptr Mem : Type}
    (exchangeDBL :
       Z → Z → Z → Z → Z → Comm → Z → Z → Z → Z → Z → Z → Ptr → Mem → result Mem)
    (nn LX LY LZ myid : Z) (CART_COMM : Comm)
    (nbr_WEST nbr_EAST nbr_SOUTH nbr_NORTH nbr_BOTTOM nbr_TOP : Z)
    (rho u v w : Ptr) (m : Mem) (log : list dbl_call) :
  let delegate p m :=
    exchangeDBL nn LX LY LZ myid CART_COMM
      nbr_WEST nbr_EAST nbr_SOUTH nbr_NORTH nbr_BOTTOM nbr_TOP p m in
  let seen p :=
    DblCall nn LX LY LZ myid CART_COMM
      nbr_WEST nbr_EAST nbr_SOUTH nbr_NORTH nbr_BOTTOM nbr_TOP p in
  fillGhostLayersMacVar (logged exchangeDBL) nn LX LY LZ myid CART_COMM
    nbr_WEST nbr_EAST nbr_SOUTH nbr_NORTH nbr_BOTTOM nbr_TOP rho u v w (m, log)
  = (m ← delegate rho m; m ← delegate u m; m ← delegate v m; m ← delegate w m;
     Ok (m, log ++ [seen rho; seen u; seen v; seen w])).
Proof.
  intros delegate seen. unfold fillGhostLayersMacVar, logged. simpl.
  fold (delegate rho m). destruct (delegate rho m) as [m1|e]; simpl; [|done].
  fold (delegate u m1). destruct (delegate u m1) as [m2|e]; simpl; [|done].
  fold (delegate v m2). destruct (delegate v m2) as [m3|e]; simpl; [|done].
  fold (delegate w m3). destruct (delegate w m3) as [m4|e]; simpl; [|done].
  by rewrite <- !app_assoc.
Qed.

(** ** The claims on sample calls *)

Lemma sample_geometry : valid_geometry 1 2 1 1 1.
Proof. unfold valid_geometry, Int.INT_MAX. repeat split; lia. Defined.

Lemma sample_field_length :
  Z.of_nat (length (sample_field 54)) = (1 + 2 * 1) * (1 + 2 * 1) * (1 + 2 * 1) * 2.
Proof. reflexivity. Defined.


Lemma gather_copies_component_witness :
  valid_geometry 1 2 1 1 1 ∧ 0 ≤ 1 < 2 ∧
  Z.of_nat (length (sample_field 54)) = (1 + 2 * 1) * (1 + 2 * 1) * (1 + 2 * 1) * 2 ∧
  Z.of_nat (length (replicate 27 0)) = (1 + 2 * 1) * (1 + 2 * 1) * (1 + 2 * 1) ∧
  ∃ PDF3d',
    gather 1 2 1 1 1 1 (sample_field 54) (replicate 27 0) = Ok PDF3d' ∧
    ∀ i j k, 0 ≤ i < 1 + 2 * 1 → 0 ≤ j < 1 + 2 * 1 → 0 ≤ k < 1 + 2 * 1 →
      ∃ x, load (sample_field 54) (index4D 2 3 3 i j k 1) = Ok x ∧
           load PDF3d' (index3D 3 3 i j k) = Ok x.
Proof.
  split; [exact sample_geometry|]. split; [lia|].
  split; [exact sample_field_length|]. split; [reflexivity|].
  exact (gather_copies_component 1 2 1 1 1 1 (sample_field 54) (replicate 27 0)
           sample_geometry ltac:(lia) sample_field_length eq_refl).
Defined.

Lemma gather_scatter_identity_witness :
  valid_geometry 1 2 1 1 1 ∧ 0 ≤ 1 < 2 ∧
  Z.of_nat (length (sample_field 54)) = (1 + 2 * 1) * (1 + 2 * 1) * (1 + 2 * 1) * 2 ∧
  Z.of_nat (length (replicate 27 0)) = (1 + 2 * 1) * (1 + 2 * 1) * (1 + 2 * 1) ∧
  (∃ PDF3d',
     gather 1 2 1 1 1 1 (sample_field 54) (replicate 27 0) = Ok PDF3d' ∧
     scatter 1 2 1 1 1 1 PDF3d' (sample_field 54) = Ok (sample_field 54)) ∧
  ∃ PDF3d' w',
    exchange_component (-1) 1 2 1 1 1 sample_comm (-1) (-1) (-1) (-1) (-1) (-1) 1
      (sample_field 54, replicate 27 0, World [] [])
    = Ok (sample_field 54, PDF3d', w').
Proof.
  split; [exact sample_geometry|]. split; [lia|].
  split; [exact sample_field_length|]. split; [reflexivity|].
  exact (gather_scatter_identity (-1) 1 2 1 1 1 sample_comm 1
           (sample_field 54) (replicate 27 0) (World [] [])
           sample_geometry ltac:(lia) sample_field_length eq_refl).
Defined.

Lemma face_descriptors_geometry : valid_geometry 1 1 4 3 2.
Proof. unfold valid_geometry, Int.INT_MAX. repeat split; lia. Defined.

Lemma face_descriptors_witness :
  valid_geometry 1 1 4 3 2 ∧
  stridex 1 4 3 2 = Type_vector 20 1 6 MPI_DOUBLE ∧
  stridey 1 4 3 2 = Type_vector 4 6 30 MPI_DOUBLE ∧
  Z.of_nat (length (type_map (stridex 1 4 3 2))) = 20 ∧
  Z.of_nat (length (type_map (stridey 1 4 3 2))) = 24 ∧
  (∀ x, addresses (index3D 6 5 x 0 0) 1 (stridex 1 4 3 2) = x_face 6 5 4 x) ∧
  (∀ y, addresses (index3D 6 5 0 y 0) 1 (stridey 1 4 3 2) = y_face 6 5 4 y) ∧
  stridex 1 4 3 2 = Type_vector 20 1 6 MPI_DOUBLE ∧
  stridey 1 4 3 2 = Type_vector 4 6 30 MPI_DOUBLE.
Proof.
  split; [exact face_descriptors_geometry|].
  exact (face_descriptors 1 1 4 3 2 face_descriptors_geometry).
Defined.

Lemma interior_untouched_witness :
  valid_geometry 1 2 1 1 1 ∧
  Z.of_nat (length (sample_field 54)) = (1 + 2 * 1) * (1 + 2 * 1) * (1 + 2 * 1) * 2 ∧
  ∃ PDF4d' w',
    two_component_call = Ok (PDF4d', w') ∧
    ∀ i j k a, 1 ≤ i < 1 + 1 → 1 ≤ j < 1 + 1 → 1 ≤ k < 1 + 1 → 0 ≤ a < 2 →
      ∃ x, load (sample_field 54) (index4D 2 3 3 i j k a) = Ok x ∧
           load PDF4d' (index4D 2 3 3 i j k a) = Ok x.
Proof.
  split; [exact sample_geometry|]. split; [exact sample_field_length|].
  exact (interior_untouched 0 (-1) 1 2 1 1 1 0 sample_comm
           (-1) 1 (-1) (-1) (-1) (-1) (sample_field 54) (World [] [])
           sample_geometry sample_field_length).
Defined.

Lemma no_neighbor_safety_witness :
  valid_geometry 1 2 1 1 1 ∧
  Z.of_nat (length (sample_field 54)) = (1 + 2 * 1) * (1 + 2 * 1) * (1 + 2 * 1) * 2 ∧
  (∃ w',
     exchangePDF 0 (-1) 1 2 1 1 1 0 sample_comm (-1) (-1) (-1) (-1) (-1) (-1)
       (sample_field 54) (World [] [])
     = Ok (sample_field 54, w') ∧
     outbox w' = []) ∧
  (∀ i c (PDF3d : list Z) (w0 : world),
     0 ≤ i < 1 →
     c ∈ addressing_table 1 1 1 1 (-1) 1 (-1) (-1) (-1) (-1) i →
     Z.of_nat (length PDF3d) = 27 →
     ∃ PDF3d' w',
       MPI_Sendrecv (-1) c sample_comm PDF3d w0 = Ok (PDF3d', w') ∧
       (source c = -1 → PDF3d' = PDF3d) ∧
       (dest c = -1 → outbox w' = outbox w0)).
Proof.
  split; [exact sample_geometry|]. split; [exact sample_field_length|].
  exact (no_neighbor_safety 0 (-1) 1 2 1 1 1 0 sample_comm
           (-1) 1 (-1) (-1) (-1) (-1) (sample_field 54) (World [] [])
           sample_geometry sample_field_length).
Defined.



Lemma accesses_in_bounds_witness :
  valid_geometry 1 2 1 1 1 ∧
  Z.of_nat (length (sample_field 54)) = (1 + 2 * 1) * (1 + 2 * 1) * (1 + 2 * 1) * 2 ∧
  PADDED_VOXELS 1 1 1 1 = 27 ∧
  (∀ a i j k,
     0 ≤ a < 2 → 0 ≤ i < MXP 1 1 → 0 ≤ j < MYP 1 1 → 0 ≤ k < MZP 1 1 →
     0 ≤ index_3d 1 1 1 i j k < 27 ∧
     0 ≤ index_4d 2 a (index_3d 1 1 1 i j k) < 27 * 2) ∧
  ∃ PDF4d' w' t,
    two_component_call = Ok (PDF4d', w') ∧
    trace w' = [] ++ t ∧
    ∀ c, EvSendrecv c ∈ t →
      (∀ d, d ∈ transfer_map (sendcount c) (sendtype c) →
            0 ≤ sendbuf c + d < 27) ∧
      (∀ d, d ∈ transfer_map (recvcount c) (recvtype c) →
            0 ≤ recvbuf c + d < 27).
Proof.
  split; [exact sample_geometry|]. split; [exact sample_field_length|].
  exact (accesses_in_bounds 0 (-1) 1 2 1 1 1 0 sample_comm
           (-1) 1 (-1) (-1) (-1) (-1) (sample_field 54) (World [] [])
           sample_geometry sample_field_length).
Defined.

(** The concrete scenario of the specification, seen from rank 0: the east
    ghost layer ([x = 3]) takes the values of rank 1, every other cell keeps
    its value, and the eastmost interior layer is what rank 1 is sent. *)
Example east_ghost_refreshed :
  ∃ PDF4d' w',
    rank0_call = Ok (PDF4d', w') ∧
    Forall (λ p, load PDF4d' p = Ok (if p `mod` 4 =? 3 then 3 else 7))
      (seqZ 0 64) ∧
    outbox w' = [Message 1 333 (replicate 16 7)].
Proof.
  eexists _, _. split; [vm_compute; reflexivity|]. split; [|reflexivity].
  vm_compute. repeat constructor.
Qed.

(** ** Where the code departs from C7 and C8 *)



(** * Further properties *)

(** ** Runs that return *)

Section Returned.

Context {V : Type}.
Implicit Types (buf : list V) (w : world (V:=V)).

Lemma deposit_frame (data : nat → V) n base offs buf buf' q :
  deposit data n base offs buf = Ok buf' →
  (∀ d, d ∈ offs → q ≠ base + d) →
  load buf' q = load buf q.
Proof.
  revert n buf. induction offs as [|d offs IH]; intros n buf Hrun Hq; simpl in Hrun.
  - by injection Hrun as ->.
  - destruct (store buf (base + d) (data n)) as [buf1|e] eqn:Hst; [|done].
    simpl in Hrun. rewrite (IH _ _ Hrun).
    + eapply load_store_ne; [done|]. apply Hq, list_elem_of_here.
    + intros d' Hd'. apply Hq. by apply list_elem_of_further.
Qed.

Lemma deposit_length (data : nat → V) n base offs buf buf' :
  deposit data n base offs buf = Ok buf' → length buf' = length buf.
Proof.
  revert n buf. induction offs as [|d offs IH]; intros n buf Hrun; simpl in Hrun.
  - by injection Hrun as ->.
  - destruct (store buf (base + d) (data n)) as [buf1|e] eqn:Hst; [|done].
    simpl in Hrun. rewrite (IH _ _ Hrun). by eapply store_length.
Qed.

(** Element [m] of the message lands at offset [m] of the region. *)
Lemma deposit_lookup (data : nat → V) n base offs buf buf' (m : nat) d :
  deposit data n base offs buf = Ok buf' →
  NoDup offs →
  offs !! m = Some d →
  load buf' (base + d) = Ok (data (n + m)%nat).
Proof.
  revert n buf m. induction offs as [|d0 offs IH]; intros n buf m Hrun Hnd Hm;
    [done|].
  simpl in Hrun.
  destruct (store buf (base + d0) (data n)) as [buf1|e] eqn:Hst; [|done].
  simpl in Hrun. apply NoDup_cons in Hnd as [Hd0 Hnd].
  destruct m as [|m]; simpl in Hm.
  - injection Hm as ->. rewrite (deposit_frame _ _ _ _ _ _ _ Hrun).
    + rewrite Nat.add_0_r. by eapply load_store_eq.
    + intros d' Hd' Heq. apply Hd0. by replace d with d' by lia.
  - rewrite (IH _ _ _ Hrun Hnd Hm). do 2 f_equal. lia.
Qed.

Variable PROC_NULL : Z.
Variable CART_COMM : MPI_Comm (V:=V).

Lemma MPI_Sendrecv_returned c buf w buf' w' :
  MPI_Sendrecv PROC_NULL c CART_COMM buf w = Ok (buf', w') →
  length buf' = length buf ∧
  trace w' = trace w ++ [EvSendrecv c] ∧
  (source c = PROC_NULL → buf' = buf) ∧
  (source c ≠ PROC_NULL →
   deposit (comm_recv CART_COMM (length (trace w)) (source c) (recvtag c)) 0
     (recvbuf c) (transfer_map (recvcount c) (recvtype c)) buf = Ok buf').
Proof.
  unfold MPI_Sendrecv. intros Hrun.
  destruct (dest c =? PROC_NULL); simpl in Hrun.
  - destruct (Z.eqb_spec (source c) PROC_NULL) as [Hs|Hs]; simpl in Hrun.
    + injection Hrun as <- <-. done.
    + destruct (deposit _ _ _ _ buf) as [b|e] eqn:Hdep; [|done].
      simpl in Hrun. injection Hrun as <- <-.
      split; [by eapply deposit_length|]. done.
  - destruct (pack buf _ _) as [data|e]; [|done]. simpl in Hrun.
    destruct (Z.eqb_spec (source c) PROC_NULL) as [Hs|Hs]; simpl in Hrun.
    + injection Hrun as <- <-. done.
    + destruct (deposit _ _ _ _ buf) as [b|e] eqn:Hdep; [|done].
      simpl in Hrun. injection Hrun as <- <-.
      split; [by eapply deposit_length|]. done.
Qed.

(** A paired exchange changes only the cells of its receive region, and none
    when the source is "no neighbor". *)
Lemma MPI_Sendrecv_frame c buf w buf' w' q :
  MPI_Sendrecv PROC_NULL c CART_COMM buf w = Ok (buf', w') →
  (source c ≠ PROC_NULL →
   ∀ d, d ∈ transfer_map (recvcount c) (recvtype c) → q ≠ recvbuf c + d) →
  load buf' q = load buf q.
Proof.
  intros (_ & _ & Hnull & Hdep)%MPI_Sendrecv_returned Hq.
  destruct (decide (source c = PROC_NULL)) as [Hs|Hs].
  - by rewrite Hnull.
  - eapply deposit_frame; [by apply Hdep | by apply Hq].
Qed.

Lemma MPI_Sendrecv_received c buf w buf' w' (m : nat) d :
  MPI_Sendrecv PROC_NULL c CART_COMM buf w = Ok (buf', w') →
  source c ≠ PROC_NULL →
  NoDup (transfer_map (recvcount c) (recvtype c)) →
  transfer_map (recvcount c) (recvtype c) !! m = Some d →
  load buf' (recvbuf c + d) =
  Ok (comm_recv CART_COMM (length (trace w)) (source c) (recvtag c) m).
Proof.
  intros (_ & _ & _ & Hdep)%MPI_Sendrecv_returned Hs Hnd Hm.
  by rewrite (deposit_lookup _ _ _ _ _ _ _ _ (Hdep Hs) Hnd Hm).
Qed.

(** The calls of a list that returned, seen from one cell of the receive
    region of the call at position [r] that no later call receives into. *)
Lemma run_calls_returned cs buf w buf' w' :
  run_calls PROC_NULL CART_COMM cs (buf, w) = Ok (buf', w') →
  length buf' = length buf ∧
  trace w' = trace w ++ (EvSendrecv <$> cs) ∧
  (∀ q, (∀ c, c ∈ cs → source c ≠ PROC_NULL →
          ∀ d, d ∈ transfer_map (recvcount c) (recvtype c) → q ≠ recvbuf c + d) →
        load buf' q = load buf q) ∧
  (∀ (r : nat) c (m : nat) d,
     cs !! r = Some c →
     source c ≠ PROC_NULL →
     NoDup (transfer_map (recvcount c) (recvtype c)) →
     transfer_map (recvcount c) (recvtype c) !! m = Some d →
     (∀ (r' : nat) c', (r < r')%nat → cs !! r' = Some c' →
        source c' ≠ PROC_NULL →
        ∀ d', d' ∈ transfer_map (recvcount c') (recvtype c') →
              recvbuf c + d ≠ recvbuf c' + d') →
     load buf' (recvbuf c + d) =
     Ok (comm_recv CART_COMM (length (trace w) + r) (source c) (recvtag c) m)).
Proof.
  unfold run_calls. revert buf w.
  induction cs as [|c0 cs IH]; intros buf w Hrun; simpl in Hrun.
  - injection Hrun as <- <-. rewrite app_nil_r. repeat split; done.
  - destruct (MPI_Sendrecv PROC_NULL c0 CART_COMM buf w) as [[buf1 w1]|e] eqn:H0;
      [|done].
    simpl in Hrun. destruct (IH _ _ Hrun) as (Hlen & Htr & Hfr & Hrecv).
    pose proof (MPI_Sendrecv_returned _ _ _ _ _ H0) as (Hlen0 & Htr0 & _ & _).
    split; [congruence|]. split.
    { rewrite Htr, Htr0, <- app_assoc. done. }
    split.
    + intros q Hq. rewrite Hfr.
      * eapply MPI_Sendrecv_frame; [done|]. intros Hs d Hd.
        apply (Hq c0); [apply list_elem_of_here | done..].
      * intros c Hc Hs d Hd. apply (Hq c); [by apply list_elem_of_further|done..].
    + intros r c m d Hr Hs Hnd Hm Hlater. destruct r as [|r]; simpl in Hr.
      * injection Hr as ->. rewrite Hfr.
        -- rewrite Nat.add_0_r. by eapply MPI_Sendrecv_received.
        -- intros c' Hc' Hs' d' Hd'.
           apply list_elem_of_lookup in Hc' as [r' Hr'].
           apply (Hlater (S r') c'); [lia | done..].
      * rewrite (Hrecv r c m d Hr Hs Hnd Hm).
        -- rewrite Htr0, length_app. simpl. do 2 f_equal. lia.
        -- intros r' c' Hlt Hr' Hs' d' Hd'.
           apply (Hlater (S r') c'); [lia | done..].
Qed.

End Returned.

(** ** A valid call as a loop over the components *)

Section Unfold.

Context {V : Type}.
Variables (uninit : V) (PROC_NULL nn Q MX MY MZ myid : Z).
Variables (CART_COMM : MPI_Comm (V:=V)).
Variables (nbr_WEST nbr_EAST nbr_SOUTH nbr_NORTH nbr_BOTTOM nbr_TOP : Z).
Hypothesis Hvalid : valid_geometry nn Q MX MY MZ.

Local Abbreviation pv := ((MX + 2 * nn) * (MY + 2 * nn) * (MZ + 2 * nn)).

(** With a valid geometry the allocation succeeds, so a call is the loop over
    the components on a scratch block of [uninit] followed by the release. *)
Lemma exchangePDF_components (PDF4d : list V) (w : world) :
  exchangePDF uninit PROC_NULL nn Q MX MY MZ myid CART_COMM
    nbr_WEST nbr_EAST nbr_SOUTH nbr_NORTH nbr_BOTTOM nbr_TOP PDF4d w
  = ('(PDF4d', _, w') ←
       for_lt Q (exchange_component PROC_NULL nn Q MX MY MZ CART_COMM
                   nbr_WEST nbr_EAST nbr_SOUTH nbr_NORTH nbr_BOTTOM nbr_TOP)
         (PDF4d, replicate (Z.to_nat pv) uninit, emit (EvNew pv) w);
     Ok (PDF4d', emit EvDelete w')).
Proof.
  destruct (geometry_bounds nn Q MX MY MZ Hvalid)
    as (Hnn & HQ & HMX & HMY & HMZ & Hxy & Hpv & _).
  unfold exchangePDF, new_double. cbv zeta.
  rewrite (PADDED_VOXELS_exact nn Q MX MY MZ Hvalid).
  destruct (Z.ltb_spec pv 0) as [?|_]; [lia|]. done.
Qed.

End Unfold.

(** ** The messages of the rows, element by element *)

Lemma transfer_map_double_lookup n (m : nat) :
  Z.of_nat m < n → transfer_map n MPI_DOUBLE !! m = Some (Z.of_nat m).
Proof.
  intros Hm. by rewrite transfer_map_double, lookup_seqZ_lt by done.
Qed.

Lemma transfer_map_double_NoDup n : NoDup (transfer_map n MPI_DOUBLE).
Proof. rewrite transfer_map_double. apply NoDup_seqZ. Qed.

(** A vector datatype, as a function of the position in the message. *)
Lemma transfer_map_vector_fmap c b s :
  0 < b →
  transfer_map 1 (Type_vector c b s MPI_DOUBLE) =
  (λ m, m `div` b * s + m `mod` b) <$> seqZ 0 (b * c).
Proof.
  intros Hb. rewrite transfer_map_vector, seqZ_rows by lia.
  rewrite fmap_bind_list. apply Forall_bind_ext, Forall_forall.
  intros k Hk. rewrite fmap_bind_list. apply Forall_bind_ext, Forall_forall.
  intros e He%elem_of_seqZ. simpl. f_equal.
  rewrite Z.div_add, Z.mod_add by lia.
  rewrite Z.div_small, Z.mod_small by lia. lia.
Qed.

Lemma transfer_map_vector_lookup c b s k e :
  0 ≤ k < c → 0 ≤ e < b →
  transfer_map 1 (Type_vector c b s MPI_DOUBLE) !! Z.to_nat (e + k * b)
  = Some (k * s + e).
Proof.
  intros Hk He. rewrite transfer_map_vector_fmap by lia.
  assert (0 ≤ k * b) by (apply Z.mul_nonneg_nonneg; lia).
  pose proof (Z.mul_le_mono_nonneg_r (k + 1) c b ltac:(lia) ltac:(lia)).
  rewrite list_lookup_fmap, lookup_seqZ_lt by lia. simpl. f_equal.
  rewrite Z2Nat.id, Z.add_0_l by lia.
  rewrite Z.div_add, Z.mod_add by lia.
  rewrite Z.div_small, Z.mod_small by lia. lia.
Qed.

Lemma transfer_map_vector_NoDup c b s :
  0 < b ≤ s → NoDup (transfer_map 1 (Type_vector c b s MPI_DOUBLE)).
Proof.
  intros Hbs. rewrite transfer_map_vector_fmap by lia.
  apply NoDup_fmap_2_strong; [|apply NoDup_seqZ].
  intros m m' _ _ Heq.
  pose proof (Z.mod_pos_bound m b ltac:(lia)).
  pose proof (Z.mod_pos_bound m' b ltac:(lia)).
  assert (m `div` b = m' `div` b ∧ m `mod` b = m' `mod` b) as [Hd Hm].
  { apply (Z.div_mod_unique s); [lia..|]. lia. }
  rewrite (Z.div_mod m b), (Z.div_mod m' b) by lia. congruence.
Qed.

(** ** The ghost faces of the rows *)

Section Faces.

Variables (nn Q MX MY MZ : Z).
Variables (nbr_WEST nbr_EAST nbr_SOUTH nbr_NORTH nbr_BOTTOM nbr_TOP : Z).
Hypothesis Hvalid : valid_geometry nn Q MX MY MZ.

Local Abbreviation mxp := (MX + 2 * nn).
Local Abbreviation myp := (MY + 2 * nn).
Local Abbreviation mzp := (MZ + 2 * nn).
Local Abbreviation idx3 := (index3D mxp myp).
Local Abbreviation table :=
  (addressing_table nn MX MY MZ
     nbr_WEST nbr_EAST nbr_SOUTH nbr_NORTH nbr_BOTTOM nbr_TOP).
Local Abbreviation padded x y z :=
  (0 ≤ x < mxp ∧ 0 ≤ y < myp ∧ 0 ≤ z < mzp).

Lemma table_lookup_elem i (r : nat) c : table i !! r = Some c → c ∈ table i.
Proof. intros Hr. apply list_elem_of_lookup. eauto. Qed.

(** A face cell of row [r] lies in the padded block. *)
Lemma face_cell_padded i (r : nat) x y z :
  0 ≤ i < nn →
  ghost_coordinate nn MX MY MZ i r x y z → face_cell nn MX MY MZ r x y z →
  padded x y z.
Proof.
  intros Hi Hg Hf. destruct Hvalid as (? & ? & ? & ? & ? & _).
  destruct r as [|[|[|[|[|[|r]]]]]]; simpl in Hg, Hf; lia.
Qed.

(** The cell of a row's ghost face is one element of the row's message. *)
Lemma face_cell_element i (r : nat) c x y z :
  0 ≤ i < nn →
  table i !! r = Some c →
  ghost_coordinate nn MX MY MZ i r x y z → face_cell nn MX MY MZ r x y z →
  NoDup (transfer_map (recvcount c) (recvtype c)) ∧
  ∃ d, transfer_map (recvcount c) (recvtype c)
         !! Z.to_nat (element_index nn MX MY r x y z) = Some d ∧
       recvbuf c + d = idx3 x y z.
Proof.
  intros Hi Hr Hg Hf. destruct Hvalid as (? & ? & ? & ? & ? & _).
  assert (0 < mxp * myp) by (apply Z.mul_pos_pos; lia).
  assert (0 < myp * mzp) by (apply Z.mul_pos_pos; lia).
  pose proof (Z.mul_le_mono_nonneg_l 1 myp mxp ltac:(lia) ltac:(lia)).
  destruct r as [|[|[|[|[|[|r]]]]]]; simpl in Hr, Hg, Hf; [..|done];
    injection Hr as <-; simpl.
  1,2: split; [apply transfer_map_double_NoDup|];
       exists (x + y * mxp);
       (split; [|unfold index3D; subst z; lia]);
       assert (0 ≤ y * mxp) by (apply Z.mul_nonneg_nonneg; lia);
       pose proof (Z.mul_le_mono_nonneg_r (y + 1) myp mxp ltac:(lia) ltac:(lia));
       rewrite transfer_map_double_lookup by lia; f_equal; lia.
  1,2: unfold x_normal; split; [apply transfer_map_vector_NoDup; lia|];
       exists ((y + z * myp) * mxp + 0);
       (split; [|unfold index3D; subst x; lia]);
       assert (0 ≤ z * myp) by (apply Z.mul_nonneg_nonneg; lia);
       pose proof (Z.mul_le_mono_nonneg_r (z + 1) mzp myp ltac:(lia) ltac:(lia));
       rewrite <- (transfer_map_vector_lookup (myp * mzp) 1 mxp (y + z * myp) 0) by lia;
       do 2 f_equal; lia.
  1,2: unfold y_normal; split; [apply transfer_map_vector_NoDup; lia|];
       exists (z * (mxp * myp) + x);
       (split; [|unfold index3D; subst y; lia]);
       by rewrite <- (transfer_map_vector_lookup mzp mxp (mxp * myp) z x) by lia.
Qed.

(** The cells a row receives into have the row's ghost coordinate. *)
Lemma recv_ghost_coordinate i (r : nat) c d x y z :
  0 ≤ i < nn →
  table i !! r = Some c →
  d ∈ transfer_map (recvcount c) (recvtype c) →
  recvbuf c + d = idx3 x y z →
  padded x y z →
  ghost_coordinate nn MX MY MZ i r x y z.
Proof.
  intros Hi Hr Hd Heq (Hx & Hy & Hz). destruct Hvalid as (? & ? & ? & ? & ? & _).
  destruct r as [|[|[|[|[|[|r]]]]]]; simpl in Hr; [..|done];
    injection Hr as <-; simpl in Hd, Heq |- *.
  1,2: apply elem_of_transfer_map_double in Hd;
       match type of Heq with
       | index3D _ _ 0 0 ?rz + _ = _ =>
           destruct (z_slab_address mxp myp mzp rz d) as [_ Hc]; [lia..|]
       end;
       rewrite Heq, index3D_z in Hc by lia; lia.
  1,2: apply elem_of_transfer_map_vector in Hd as (k & e & Hk & He & ->);
       replace (k * mxp + e) with (k * mxp) in Heq by lia;
       match type of Heq with
       | index3D _ _ ?rx 0 0 + _ = _ =>
           destruct (x_column_address mxp myp mzp rx k) as [_ Hc]; [lia..|]
       end;
       rewrite Heq, index3D_x in Hc by lia; lia.
  1,2: apply elem_of_transfer_map_vector in Hd as (k & e & Hk & He & ->);
       rewrite y_rows_address in Heq;
       match type of Heq with
       | index3D _ _ _ ?ry _ = _ =>
           assert ((idx3 e ry k `div` mxp) `mod` myp = ry) as Hc
             by (apply index3D_y; lia)
       end;
       rewrite Heq, index3D_y in Hc by lia; lia.
Qed.

(** A face cell belongs to one row of one ghost layer only. *)
Lemma ghost_coordinate_unique i i' (r r' : nat) x y z :
  0 ≤ i < nn → 0 ≤ i' < nn →
  ghost_coordinate nn MX MY MZ i r x y z → face_cell nn MX MY MZ r x y z →
  ghost_coordinate nn MX MY MZ i' r' x y z →
  r' = r ∧ i' = i.
Proof.
  intros Hi Hi' Hg Hf Hg'. destruct Hvalid as (? & ? & ? & ? & ? & _).
  destruct r as [|[|[|[|[|[|r]]]]]]; simpl in Hg, Hf; [..|done];
    destruct r' as [|[|[|[|[|[|r']]]]]]; simpl in Hg'; [..|done];
    first [ split; [reflexivity | lia] | exfalso; lia ].
Qed.

End Faces.

(** ** What the ghost cells hold after the exchange *)

Lemma bind_length_const {A B} (l : list A) (f : A → list B) (n : nat) :
  (∀ x, length (f x) = n) → length (l ≫= f) = (length l * n)%nat.
Proof.
  intros Hf. induction l as [|x l IH]; [done|].
  rewrite bind_cons, length_app, Hf, IH. simpl. lia.
Qed.

Section Refresh.

Context {V : Type}.
Variables (uninit : V) (PROC_NULL nn Q MX MY MZ myid : Z).
Variables (CART_COMM : MPI_Comm (V:=V)).
Variables (nbr_WEST nbr_EAST nbr_SOUTH nbr_NORTH nbr_BOTTOM nbr_TOP : Z).
Hypothesis Hvalid : valid_geometry nn Q MX MY MZ.

Local Abbreviation mxp := (MX + 2 * nn).
Local Abbreviation myp := (MY + 2 * nn).
Local Abbreviation mzp := (MZ + 2 * nn).
Local Abbreviation pv := (mxp * myp * mzp).
Local Abbreviation idx3 := (index3D mxp myp).
Local Abbreviation idx4 := (index4D Q mxp myp).
Local Abbreviation table :=
  (addressing_table nn MX MY MZ
     nbr_WEST nbr_EAST nbr_SOUTH nbr_NORTH nbr_BOTTOM nbr_TOP).
Local Abbreviation padded x y z :=
  (0 ≤ x < mxp ∧ 0 ≤ y < myp ∧ 0 ≤ z < mzp).
Local Abbreviation ghost := (ghost_coordinate nn MX MY MZ).
Local Abbreviation face := (face_cell nn MX MY MZ).
Local Abbreviation elem := (element_index nn MX MY).
(** no row with a neighbor receives into the cell during the layers below [n] *)
Local Abbreviation quiet n x y z :=
  (∀ i (r : nat) c, 0 ≤ i < n → table i !! r = Some c →
     source c ≠ PROC_NULL → ¬ ghost i r x y z).

Lemma table_length i : length (table i) = 6%nat.
Proof. done. Qed.

Lemma layers_trace_length n :
  0 ≤ n →
  length (EvSendrecv <$> (i ← seqZ 0 n; table i)) = Z.to_nat (6 * n).
Proof.
  intros Hn. rewrite length_fmap, (bind_length_const _ _ 6%nat), length_seqZ;
    [lia|done].
Qed.

Lemma component_trace_length :
  length (component_trace nn MX MY MZ
            nbr_WEST nbr_EAST nbr_SOUTH nbr_NORTH nbr_BOTTOM nbr_TOP)
  = Z.to_nat (4 + 6 * nn).
Proof.
  destruct Hvalid as (? & _). unfold component_trace.
  rewrite !length_app, layers_trace_length by lia. simpl. lia.
Qed.

(** One ghost layer. *)
Lemma layer_refresh i (PDF3d : list V) (w : world) :
  0 ≤ i < nn →
  Z.of_nat (length PDF3d) = pv →
  ∃ PDF3d' w',
    exchange_layer PROC_NULL nn MX MY MZ CART_COMM
      nbr_WEST nbr_EAST nbr_SOUTH nbr_NORTH nbr_BOTTOM nbr_TOP i (PDF3d, w)
    = Ok (PDF3d', w') ∧
    length PDF3d' = length PDF3d ∧
    trace w' = trace w ++ (EvSendrecv <$> table i) ∧
    (∀ x y z, padded x y z →
       (∀ (r : nat) c, table i !! r = Some c → source c ≠ PROC_NULL →
          ¬ ghost i r x y z) →
       load PDF3d' (idx3 x y z) = load PDF3d (idx3 x y z)) ∧
    (∀ (r : nat) c x y z,
       table i !! r = Some c → source c ≠ PROC_NULL →
       ghost i r x y z → face r x y z →
       load PDF3d' (idx3 x y z) =
       Ok (comm_recv CART_COMM (length (trace w) + r) (source c) (recvtag c)
             (Z.to_nat (elem r x y z)))).
Proof.
  intros Hi Hlen.
  rewrite (exchange_layer_table PROC_NULL nn Q MX MY MZ CART_COMM
             nbr_WEST nbr_EAST nbr_SOUTH nbr_NORTH nbr_BOTTOM nbr_TOP Hvalid)
    by done.
  destruct (run_calls_spec PROC_NULL CART_COMM (λ _, False) (table i) PDF3d w)
    as (buf' & w' & Hrun & _).
  { intros c Hc.
    destruct (table_regions nn Q MX MY MZ Hvalid _ _ _ _ _ _ i c Hi Hc)
      as [Hs Hr].
    rewrite Hlen. split; [done|]. intros d Hd. split; [by apply Hr | tauto]. }
  destruct (run_calls_returned _ _ _ _ _ _ _ Hrun) as (Hl & Htr & Hfr & Hrecv).
  exists buf', w'. split; [done|]. split; [done|]. split; [done|]. split.
  - intros x y z Hp Hquiet. apply Hfr.
    intros c [r Hr]%list_elem_of_lookup Hs d Hd Heq.
    apply (Hquiet r c Hr Hs).
    by apply (recv_ghost_coordinate nn Q MX MY MZ
              nbr_WEST nbr_EAST nbr_SOUTH nbr_NORTH nbr_BOTTOM nbr_TOP Hvalid i r c d).
  - intros r c x y z Hr Hs Hg Hf.
    destruct (face_cell_element nn Q MX MY MZ
              nbr_WEST nbr_EAST nbr_SOUTH nbr_NORTH nbr_BOTTOM nbr_TOP Hvalid i r c x y z
                Hi Hr Hg Hf) as (Hnd & d & Hm & Hd).
    rewrite <- Hd. apply Hrecv; [done..|].
    intros r' c' Hlt Hr' Hs' d' Hd' Heq. rewrite Hd in Heq.
    pose proof (face_cell_padded nn Q MX MY MZ Hvalid i r x y z Hi Hg Hf) as Hp.
    assert (ghost i r' x y z) as Hg'
      by (by apply (recv_ghost_coordinate nn Q MX MY MZ
              nbr_WEST nbr_EAST nbr_SOUTH nbr_NORTH nbr_BOTTOM nbr_TOP Hvalid
                      i r' c' d')).
    destruct (ghost_coordinate_unique nn Q MX MY MZ Hvalid i i r r' x y z
                Hi Hi Hg Hf Hg') as [-> _]. lia.
Qed.

(** The loop over the ghost layers. *)
Lemma layers_refresh (PDF3d : list V) (w : world) :
  Z.of_nat (length PDF3d) = pv →
  ∃ PDF3d' w',
    for_lt nn (exchange_layer PROC_NULL nn MX MY MZ CART_COMM
                 nbr_WEST nbr_EAST nbr_SOUTH nbr_NORTH nbr_BOTTOM nbr_TOP)
      (PDF3d, w) = Ok (PDF3d', w') ∧
    length PDF3d' = length PDF3d ∧
    trace w' = trace w ++ (EvSendrecv <$> (i ← seqZ 0 nn; table i)) ∧
    (∀ x y z, padded x y z → quiet nn x y z →
       load PDF3d' (idx3 x y z) = load PDF3d (idx3 x y z)) ∧
    (∀ i (r : nat) c x y z,
       0 ≤ i < nn → table i !! r = Some c → source c ≠ PROC_NULL →
       ghost i r x y z → face r x y z →
       load PDF3d' (idx3 x y z) =
       Ok (comm_recv CART_COMM (length (trace w) + Z.to_nat (6 * i) + r)
             (source c) (recvtag c) (Z.to_nat (elem r x y z)))).
Proof.
  intros Hlen. destruct Hvalid as (Hnn & _).
  destruct (for_lt_inv
    (λ n st,
       length st.1 = length PDF3d ∧
       trace st.2 = trace w ++ (EvSendrecv <$> (i ← seqZ 0 n; table i)) ∧
       (∀ x y z, padded x y z → quiet n x y z →
          load st.1 (idx3 x y z) = load PDF3d (idx3 x y z)) ∧
       (∀ i (r : nat) c x y z,
          0 ≤ i < n → table i !! r = Some c → source c ≠ PROC_NULL →
          ghost i r x y z → face r x y z →
          load st.1 (idx3 x y z) =
          Ok (comm_recv CART_COMM (length (trace w) + Z.to_nat (6 * i) + r)
                (source c) (recvtag c) (Z.to_nat (elem r x y z)))))
    nn (exchange_layer PROC_NULL nn MX MY MZ CART_COMM
          nbr_WEST nbr_EAST nbr_SOUTH nbr_NORTH nbr_BOTTOM nbr_TOP)
    (PDF3d, w)) as ([buf' w'] & Hrun & HI); [lia| |..].
  - simpl. rewrite app_nil_r. split; [done|]. split; [done|].
    split; [done|]. intros; lia.
  - intros n [buf0 w0] Hn (Hlen0 & Htr0 & Hfr0 & Hrecv0).
    simpl in Hlen0, Htr0, Hfr0, Hrecv0.
    destruct (layer_refresh n buf0 w0 Hn ltac:(lia))
      as (buf1 & w1 & -> & Hlen1 & Htr1 & Hfr1 & Hrecv1).
    exists (buf1, w1). split; [done|]. simpl. split; [congruence|]. split.
    { rewrite Htr1, Htr0, seqZ_snoc, bind_app, bind_singleton, fmap_app,
        <- app_assoc by lia. done. }
    split.
    + intros x y z Hp Hquiet. rewrite Hfr1, Hfr0; [done..| |done|].
      * intros i r c Hi. apply Hquiet. lia.
      * intros r c. apply Hquiet. lia.
    + intros i r c x y z Hi Hr Hs Hg Hf.
      destruct (decide (i = n)) as [->|Hne].
      * rewrite (Hrecv1 r c x y z Hr Hs Hg Hf). do 2 f_equal.
        rewrite Htr0, length_app, layers_trace_length by lia. lia.
      * pose proof (face_cell_padded nn Q MX MY MZ Hvalid i r x y z
                      ltac:(lia) Hg Hf) as Hp.
        rewrite Hfr1; [apply Hrecv0; [lia|done..] | done |].
        intros r' c' Hr' Hs' Hg'.
        destruct (ghost_coordinate_unique nn Q MX MY MZ Hvalid i n r r' x y z
                    ltac:(lia) Hn Hg Hf Hg') as [_ ->]. lia.
  - exists buf', w'. done.
Qed.

(** One component. *)
Lemma component_refresh a (PDF4d PDF3d : list V) (w : world) :
  0 ≤ a < Q →
  Z.of_nat (length PDF4d) = pv * Q →
  Z.of_nat (length PDF3d) = pv →
  ∃ PDF4d' PDF3d' w',
    exchange_component PROC_NULL nn Q MX MY MZ CART_COMM
      nbr_WEST nbr_EAST nbr_SOUTH nbr_NORTH nbr_BOTTOM nbr_TOP a
      (PDF4d, PDF3d, w) = Ok (PDF4d', PDF3d', w') ∧
    length PDF4d' = length PDF4d ∧
    length PDF3d' = length PDF3d ∧
    trace w' = trace w ++ component_trace nn MX MY MZ
                 nbr_WEST nbr_EAST nbr_SOUTH nbr_NORTH nbr_BOTTOM nbr_TOP ∧
    (∀ b x y z, padded x y z → 0 ≤ b < Q → b ≠ a →
       load PDF4d' (idx4 x y z b) = load PDF4d (idx4 x y z b)) ∧
    (∀ x y z, padded x y z → quiet nn x y z →
       load PDF4d' (idx4 x y z a) = load PDF4d (idx4 x y z a)) ∧
    (∀ i (r : nat) c x y z,
       0 ≤ i < nn → table i !! r = Some c → source c ≠ PROC_NULL →
       ghost i r x y z → face r x y z →
       load PDF4d' (idx4 x y z a) =
       Ok (comm_recv CART_COMM (length (trace w) + 2 + Z.to_nat (6 * i) + r)
             (source c) (recvtag c) (Z.to_nat (elem r x y z)))).
Proof.
  intros Ha H4 H3.
  destruct (component_spec PROC_NULL nn Q MX MY MZ CART_COMM
              nbr_WEST nbr_EAST nbr_SOUTH nbr_NORTH nbr_BOTTOM nbr_TOP
              Hvalid a PDF4d PDF3d w Ha H4 H3)
    as (f' & s' & w' & Hrun & Hlenf & Hlens & Htr & _).
  exists f', s', w'. split; [done|]. split; [done|]. split; [done|].
  split; [done|].
  unfold exchange_component in Hrun.
  destruct (gather_spec nn Q MX MY MZ Hvalid a PDF4d PDF3d Ha H4 H3)
    as (s1 & Hg & Hlen1 & Hs1). rewrite Hg in Hrun. simpl in Hrun.
  rewrite (stridex_exact nn Q MX MY MZ Hvalid), (stridey_exact nn Q MX MY MZ Hvalid)
    in Hrun.
  destruct (layers_refresh s1
              (emit (EvTypeCommit (y_normal nn MX MY MZ))
                 (emit (EvTypeCommit (x_normal nn MX MY MZ)) w)))
    as (s2 & w2 & Hl & Hlen2 & _ & Hfr2 & Hrecv2); [lia|].
  rewrite Hl in Hrun. simpl in Hrun.
  destruct (scatter_spec nn Q MX MY MZ Hvalid a s2 PDF4d Ha H4)
    as (f2 & Hsc & _ & Hw & Hfr); [lia|].
  rewrite Hsc in Hrun. simpl in Hrun. injection Hrun as <- <- <-.
  split; [|split].
  - intros b x y z Hp Hb Hba. apply Hfr. intros i j k _ _ _ Heq.
    unfold index4D in Heq. apply index4D_component in Heq as [? _]; done.
  - intros x y z (Hx & Hy & Hz) Hquiet.
    rewrite Hw, Hfr2, Hs1 by done. done.
  - intros i r c x y z Hi Hr Hs Hgh Hf.
    destruct (face_cell_padded nn Q MX MY MZ Hvalid i r x y z Hi Hgh Hf)
      as (Hx & Hy & Hz).
    rewrite Hw, (Hrecv2 i r c x y z Hi Hr Hs Hgh Hf) by done.
    do 2 f_equal. simpl. rewrite !length_app. simpl. lia.
Qed.

(** The whole call. *)
Lemma exchangePDF_refresh (PDF4d : list V) (w : world) :
  Z.of_nat (length PDF4d) = pv * Q →
  ∃ PDF4d' w',
    exchangePDF uninit PROC_NULL nn Q MX MY MZ myid CART_COMM
      nbr_WEST nbr_EAST nbr_SOUTH nbr_NORTH nbr_BOTTOM nbr_TOP PDF4d w
      = Ok (PDF4d', w') ∧
    trace w' = trace w ++ call_trace nn Q MX MY MZ
                 nbr_WEST nbr_EAST nbr_SOUTH nbr_NORTH nbr_BOTTOM nbr_TOP ∧
    (∀ a x y z, 0 ≤ a < Q → padded x y z → quiet nn x y z →
       load PDF4d' (idx4 x y z a) = load PDF4d (idx4 x y z a)) ∧
    (∀ a i (r : nat) c x y z,
       0 ≤ a < Q → 0 ≤ i < nn → table i !! r = Some c →
       source c ≠ PROC_NULL → ghost i r x y z → face r x y z →
       load PDF4d' (idx4 x y z a) =
       Ok (comm_recv CART_COMM (length (trace w) + event_index nn a i r)
             (source c) (recvtag c) (Z.to_nat (elem r x y z)))).
Proof.
  intros H4.
  destruct (exchangePDF_spec uninit PROC_NULL nn Q MX MY MZ myid CART_COMM
              nbr_WEST nbr_EAST nbr_SOUTH nbr_NORTH nbr_BOTTOM nbr_TOP
              Hvalid PDF4d w H4) as (f' & w' & Hrun & _ & Htr & _).
  exists f', w'. split; [done|]. split; [done|].
  destruct (geometry_bounds nn Q MX MY MZ Hvalid)
    as (Hnn & HQ & HMX & HMY & HMZ & Hxy & Hpv & _).
  rewrite (exchangePDF_components uninit PROC_NULL nn Q MX MY MZ myid
             CART_COMM nbr_WEST nbr_EAST nbr_SOUTH nbr_NORTH nbr_BOTTOM nbr_TOP
             Hvalid) in Hrun.
  destruct (for_lt_inv
    (λ n st,
       Z.of_nat (length st.1.1) = pv * Q ∧
       Z.of_nat (length st.1.2) = pv ∧
       trace st.2 = trace w ++ [EvNew pv] ++
         (_ ← seqZ 0 n; component_trace nn MX MY MZ
            nbr_WEST nbr_EAST nbr_SOUTH nbr_NORTH nbr_BOTTOM nbr_TOP) ∧
       (∀ a x y z, 0 ≤ a < Q → padded x y z → n ≤ a ∨ quiet nn x y z →
          load st.1.1 (idx4 x y z a) = load PDF4d (idx4 x y z a)) ∧
       (∀ a i (r : nat) c x y z,
          0 ≤ a < n → 0 ≤ i < nn → table i !! r = Some c →
          source c ≠ PROC_NULL → ghost i r x y z → face r x y z →
          load st.1.1 (idx4 x y z a) =
          Ok (comm_recv CART_COMM (length (trace w) + event_index nn a i r)
                (source c) (recvtag c) (Z.to_nat (elem r x y z)))))
    Q (exchange_component PROC_NULL nn Q MX MY MZ CART_COMM
         nbr_WEST nbr_EAST nbr_SOUTH nbr_NORTH nbr_BOTTOM nbr_TOP)
    (PDF4d, replicate (Z.to_nat pv) uninit, emit (EvNew pv) w))
    as ([[f1 s1] w1] & Hloop & _ & _ & _ & Hfr & Hrecv); [lia| |..].
  - simpl. rewrite length_replicate. split; [done|]. split; [lia|].
    split; [done|]. split; [done|]. intros; lia.
  - intros n [[f0 s0] w0] Hn (Hlen0 & Hs0 & Htr0 & Hfr0 & Hrecv0).
    simpl in Hlen0, Hs0, Htr0, Hfr0, Hrecv0.
    destruct (component_refresh n f0 s0 w0 Hn Hlen0 Hs0)
      as (f2 & s2 & w2 & -> & Hlen2 & Hs2 & Htr2 & Hoth & Hqu & Hrc).
    exists (f2, s2, w2). split; [done|]. simpl.
    split; [lia|]. split; [lia|]. split.
    { rewrite Htr2, Htr0, seqZ_snoc, bind_app, bind_singleton,
        <- !app_assoc by lia. done. }
    split.
    + intros a x y z Ha Hp Hcase. destruct (decide (a = n)) as [->|Hne].
      * destruct Hcase as [?|Hquiet]; [lia|].
        rewrite Hqu by done. apply Hfr0; [done..|]. left. lia.
      * rewrite Hoth by done. apply Hfr0; [done..|].
        destruct Hcase; [left; lia | by right].
    + intros a i r c x y z Ha Hi Hr Hs Hg Hf.
      pose proof (face_cell_padded nn Q MX MY MZ Hvalid i r x y z Hi Hg Hf) as Hp.
      destruct (decide (a = n)) as [->|Hne].
      * rewrite (Hrc i r c x y z Hi Hr Hs Hg Hf). do 2 f_equal.
        rewrite Htr0, length_app, length_cons,
          (bind_length_const _ _ _ (λ _, component_trace_length)), length_seqZ.
        unfold event_index. simpl.
        assert (0 ≤ n * (4 + 6 * nn)) by (apply Z.mul_nonneg_nonneg; lia).
        rewrite <- Z2Nat.inj_mul by lia. lia.
      * rewrite Hoth by (done || lia). apply Hrecv0; [lia | done..].
  - rewrite Hloop in Hrun. simpl in Hrun. injection Hrun as <- <-.
    split.
    + intros a x y z Ha Hp Hquiet. apply Hfr; [done..|]. by right.
    + intros a i r c x y z Ha. by apply Hrecv.
Qed.

End Refresh.

(** ** Finding an exchange in the trace *)

Lemma bind_lookup_const {A B} (l : list A) (f : A → list B) (n k j : nat) x :
  (∀ y, length (f y) = n) → l !! k = Some x → (j < n)%nat →
  (l ≫= f) !! (k * n + j)%nat = f x !! j.
Proof.
  intros Hf. revert k. induction l as [|y l IH]; intros k Hk Hj; [done|].
  rewrite bind_cons. destruct k as [|k]; simpl in Hk.
  - injection Hk as ->. rewrite lookup_app_l by (rewrite Hf; lia). done.
  - rewrite lookup_app_r by (rewrite Hf; lia). rewrite Hf.
    replace (S k * n + j - n)%nat with (k * n + j)%nat by lia. by apply IH.
Qed.

Section TraceLookup.

Variables (nn Q MX MY MZ : Z).
Variables (nbr_WEST nbr_EAST nbr_SOUTH nbr_NORTH nbr_BOTTOM nbr_TOP : Z).
Hypothesis Hvalid : valid_geometry nn Q MX MY MZ.

Local Abbreviation table :=
  (addressing_table nn MX MY MZ
     nbr_WEST nbr_EAST nbr_SOUTH nbr_NORTH nbr_BOTTOM nbr_TOP).

Lemma call_trace_lookup a i (r : nat) c :
  0 ≤ a < Q → 0 ≤ i < nn → table i !! r = Some c →
  call_trace nn Q MX MY MZ
    nbr_WEST nbr_EAST nbr_SOUTH nbr_NORTH nbr_BOTTOM nbr_TOP
    !! event_index nn a i r = Some (EvSendrecv c).
Proof.
  intros Ha Hi Hr. destruct Hvalid as (Hnn & _).
  assert (r < 6)%nat as Hr6.
  { apply lookup_lt_Some in Hr. by rewrite table_length in Hr. }
  assert (0 ≤ a * (4 + 6 * nn)) by (apply Z.mul_nonneg_nonneg; lia).
  set (L := Z.to_nat (4 + 6 * nn)).
  assert (event_index nn a i r
          = S (Z.to_nat a * L + (2 + (Z.to_nat i * 6 + r)))%nat) as ->.
  { unfold event_index, L. rewrite <- Z2Nat.inj_mul by lia. lia. }
  unfold call_trace. simpl.
  assert (∀ y : Z, length (component_trace nn MX MY MZ
            nbr_WEST nbr_EAST nbr_SOUTH nbr_NORTH nbr_BOTTOM nbr_TOP) = L) as HL
    by (intros _; by apply (component_trace_length nn Q)).
  rewrite lookup_app_l.
  2:{ rewrite (bind_length_const _ _ _ HL), length_seqZ.
      unfold L. nia. }
  rewrite (bind_lookup_const _ _ L (Z.to_nat a) _ a HL).
  2:{ rewrite lookup_seqZ_lt by lia. f_equal. lia. }
  2:{ unfold L. lia. }
  unfold component_trace. simpl.
  rewrite lookup_app_l.
  2:{ rewrite layers_trace_length by lia. lia. }
  rewrite list_lookup_fmap.
  rewrite (bind_lookup_const _ _ 6%nat (Z.to_nat i) _ i); [by rewrite Hr|done| |done].
  rewrite lookup_seqZ_lt by lia. f_equal. lia.
Qed.

End TraceLookup.

(** ** Ghost faces after a call *)

Section GhostFaces.

Context {V : Type}.
Variables (uninit : V) (PROC_NULL nn Q MX MY MZ myid : Z).
Variables (CART_COMM : MPI_Comm (V:=V)).
Variables (nbr_WEST nbr_EAST nbr_SOUTH nbr_NORTH nbr_BOTTOM nbr_TOP : Z).

Local Abbreviation mxp := (MX + 2 * nn).
Local Abbreviation myp := (MY + 2 * nn).
Local Abbreviation mzp := (MZ + 2 * nn).
Local Abbreviation pv := (mxp * myp * mzp).
Local Abbreviation table :=
  (addressing_table nn MX MY MZ
     nbr_WEST nbr_EAST nbr_SOUTH nbr_NORTH nbr_BOTTOM nbr_TOP).
Local Abbreviation run :=
  (exchangePDF uninit PROC_NULL nn Q MX MY MZ myid CART_COMM
     nbr_WEST nbr_EAST nbr_SOUTH nbr_NORTH nbr_BOTTOM nbr_TOP).

(** X1: after a valid call, every cell of the ghost face of a row whose source
    is a neighbor holds, for every component and every ghost layer, the
    element of the message which that row's exchange received: the exchange
    is the event at position [event_index] of the call's trace, the element
    is the one at the cell's position [element_index] in the face. *)
Theorem ghost_faces_refreshed (PDF4d : list V) (w : world) :
  valid_geometry nn Q MX MY MZ →
  Z.of_nat (length PDF4d) = pv * Q →
  ∃ PDF4d' w',
    run PDF4d w = Ok (PDF4d', w') ∧
    ∀ a i (r : nat) c x y z,
      0 ≤ a < Q → 0 ≤ i < nn →
      table i !! r = Some c → source c ≠ PROC_NULL →
      ghost_coordinate nn MX MY MZ i r x y z → face_cell nn MX MY MZ r x y z →
      trace w' !! (length (trace w) + event_index nn a i r)%nat
        = Some (EvSendrecv c) ∧
      load PDF4d' (index4D Q mxp myp x y z a) =
      Ok (comm_recv CART_COMM (length (trace w) + event_index nn a i r)
            (source c) (recvtag c)
            (Z.to_nat (element_index nn MX MY r x y z))).
Proof.
  intros Hvalid Hlen.
  destruct (exchangePDF_refresh uninit PROC_NULL nn Q MX MY MZ myid CART_COMM
              nbr_WEST nbr_EAST nbr_SOUTH nbr_NORTH nbr_BOTTOM nbr_TOP
              Hvalid PDF4d w Hlen) as (f' & w' & Hrun & Htr & _ & Hrecv).
  exists f', w'. split; [done|].
  intros a i r c x y z Ha Hi Hr Hs Hg Hf. split; [|by apply Hrecv].
  rewrite Htr, lookup_app_r by lia.
  replace (length (trace w) + event_index nn a i r - length (trace w))%nat
    with (event_index nn a i r) by lia.
  by apply (call_trace_lookup nn Q).
Qed.

(** X2: after a valid call, a cell of the padded block that no exchange with
    a neighbor receives into keeps its value, for every component.  This
    holds for every cell of the ghost face of a row whose source is
    "no neighbor". *)
Theorem cells_without_neighbor_untouched (PDF4d : list V) (w : world) :
  valid_geometry nn Q MX MY MZ →
  Z.of_nat (length PDF4d) = pv * Q →
  ∃ PDF4d' w',
    run PDF4d w = Ok (PDF4d', w') ∧
    (∀ a x y z,
       0 ≤ a < Q → 0 ≤ x < mxp → 0 ≤ y < myp → 0 ≤ z < mzp →
       (∀ i (r : nat) c, 0 ≤ i < nn → table i !! r = Some c →
          source c ≠ PROC_NULL → ¬ ghost_coordinate nn MX MY MZ i r x y z) →
       ∃ v, load PDF4d (index4D Q mxp myp x y z a) = Ok v ∧
            load PDF4d' (index4D Q mxp myp x y z a) = Ok v) ∧
    (∀ a i (r : nat) c x y z,
       0 ≤ a < Q → 0 ≤ i < nn →
       table i !! r = Some c → source c = PROC_NULL →
       ghost_coordinate nn MX MY MZ i r x y z → face_cell nn MX MY MZ r x y z →
       ∃ v, load PDF4d (index4D Q mxp myp x y z a) = Ok v ∧
            load PDF4d' (index4D Q mxp myp x y z a) = Ok v).
Proof.
  intros Hvalid Hlen.
  destruct (exchangePDF_refresh uninit PROC_NULL nn Q MX MY MZ myid CART_COMM
              nbr_WEST nbr_EAST nbr_SOUTH nbr_NORTH nbr_BOTTOM nbr_TOP
              Hvalid PDF4d w Hlen) as (f' & w' & Hrun & _ & Hfr & _).
  exists f', w'. split; [done|].
  assert (∀ a x y z,
       0 ≤ a < Q → 0 ≤ x < mxp → 0 ≤ y < myp → 0 ≤ z < mzp →
       (∀ i (r : nat) c, 0 ≤ i < nn → table i !! r = Some c →
          source c ≠ PROC_NULL → ¬ ghost_coordinate nn MX MY MZ i r x y z) →
       ∃ v, load PDF4d (index4D Q mxp myp x y z a) = Ok v ∧
            load f' (index4D Q mxp myp x y z a) = Ok v) as Hquiet.
  { intros a x y z Ha Hx Hy Hz Hq.
    destruct (voxel_indices nn Q MX MY MZ Hvalid a x y z Ha Hx Hy Hz)
      as (_ & _ & _ & Hb).
    destruct (load_in_bounds PDF4d (index4D Q mxp myp x y z a)) as [v Hv]; [lia|].
    exists v. split; [done|]. rewrite Hfr; done. }
  split; [exact Hquiet|].
  intros a i r c x y z Ha Hi Hr Hs Hg Hf.
  destruct (face_cell_padded nn Q MX MY MZ Hvalid i r x y z Hi Hg Hf)
    as (Hx & Hy & Hz).
  apply Hquiet; [done..|].
  intros i' r' c' Hi' Hr' Hs' Hg'.
  destruct (ghost_coordinate_unique nn Q MX MY MZ Hvalid i i' r r' x y z
              Hi Hi' Hg Hf Hg') as [-> ->].
  congruence.
Qed.

End GhostFaces.

(** ** The scratch buffer is overwritten before it is read *)

Lemma buffer_ext {V} (buf1 buf2 : list V) :
  length buf1 = length buf2 →
  (∀ p, 0 ≤ p < Z.of_nat (length buf1) → load buf1 p = load buf2 p) →
  buf1 = buf2.
Proof.
  intros Hlen Hld. apply list_eq. intros n.
  destruct (decide (n < length buf1)%nat) as [Hn|Hn].
  - specialize (Hld (Z.of_nat n)). unfold load in Hld.
    destruct (Z.leb_spec 0 (Z.of_nat n)); [|lia]. rewrite Nat2Z.id in Hld.
    destruct (lookup_lt_is_Some_2 buf1 n Hn) as [v1 Hv1].
    destruct (lookup_lt_is_Some_2 buf2 n) as [v2 Hv2]; [lia|].
    rewrite Hv1, Hv2 in Hld |- *. f_equal.
    assert (Ok v1 = Ok v2) as [= ->] by (apply Hld; lia). done.
  - rewrite !lookup_ge_None_2 by lia. done.
Qed.

(** Every address of the padded block is the address of a voxel. *)
Lemma index3D_onto X Y Z' p :
  0 < X → 0 < Y → 0 ≤ p < X * Y * Z' →
  ∃ i j k, 0 ≤ i < X ∧ 0 ≤ j < Y ∧ 0 ≤ k < Z' ∧ p = index3D X Y i j k.
Proof.
  intros HX HY Hp.
  exists (p `mod` X), ((p `div` X) `mod` Y), (p `div` (X * Y)).
  pose proof (Z.mod_pos_bound p X HX).
  pose proof (Z.mod_pos_bound (p `div` X) Y HY).
  assert (0 < X * Y) by (apply Z.mul_pos_pos; lia).
  split; [lia|]. split; [lia|]. split.
  - split; [apply Z.div_pos; lia|].
    apply Z.div_lt_upper_bound; lia.
  - unfold index3D. rewrite <- Z.div_div by lia.
    pose proof (Z.div_mod p X ltac:(lia)) as Hp1.
    pose proof (Z.div_mod (p `div` X) Y ltac:(lia)) as Hp2.
    set (q := p `div` X) in *. set (k := q `div` Y) in *.
    set (j := q `mod` Y) in *. set (i := p `mod` X) in *.
    rewrite Hp2 in Hp1. lia.
Qed.

Section Scratch.

Context {V : Type}.
Variables (PROC_NULL nn Q MX MY MZ myid : Z).
Variables (CART_COMM : MPI_Comm (V:=V)).
Variables (nbr_WEST nbr_EAST nbr_SOUTH nbr_NORTH nbr_BOTTOM nbr_TOP : Z).
Hypothesis Hvalid : valid_geometry nn Q MX MY MZ.

Local Abbreviation mxp := (MX + 2 * nn).
Local Abbreviation myp := (MY + 2 * nn).
Local Abbreviation mzp := (MZ + 2 * nn).
Local Abbreviation pv := (mxp * myp * mzp).

(** Gather does not depend on what the scratch buffer held. *)
Lemma gather_overwrites a (PDF4d PDF3d1 PDF3d2 : list V) :
  0 ≤ a < Q →
  Z.of_nat (length PDF4d) = pv * Q →
  Z.of_nat (length PDF3d1) = pv →
  Z.of_nat (length PDF3d2) = pv →
  gather nn Q MX MY MZ a PDF4d PDF3d1 = gather nn Q MX MY MZ a PDF4d PDF3d2.
Proof.
  intros Ha H4 H1 H2. destruct Hvalid as (? & ? & ? & ? & ? & _).
  destruct (gather_spec nn Q MX MY MZ Hvalid a PDF4d PDF3d1 Ha H4 H1)
    as (s1 & -> & Hl1 & Hs1).
  destruct (gather_spec nn Q MX MY MZ Hvalid a PDF4d PDF3d2 Ha H4 H2)
    as (s2 & -> & Hl2 & Hs2).
  f_equal. apply buffer_ext; [lia|].
  intros p Hp.
  destruct (index3D_onto mxp myp mzp p) as (i & j & k & Hi & Hj & Hk & ->);
    [lia..|].
  by rewrite Hs1, Hs2.
Qed.

End Scratch.

(** ** A field that is too short *)

Lemma for_each_Ok_inv {X S} (I : S → Prop) (l : list X)
    (body : X → S → result S) s s' :
  (∀ x s s', x ∈ l → body x s = Ok s' → I s → I s') →
  for_each l body s = Ok s' → I s → I s'.
Proof.
  revert s. induction l as [|x l IH]; intros s Hstep Hrun Hs; simpl in Hrun.
  - by injection Hrun as <-.
  - destruct (body x s) as [s1|e] eqn:Hb; [|done]. simpl in Hrun.
    apply (IH s1); [|done|].
    + intros y t t' Hy. apply Hstep. by apply list_elem_of_further.
    + apply (Hstep x s); [apply list_elem_of_here|done..].
Qed.


Lemma for_each_Err {X S} (E : error) (l : list X) (body : X → S → result S) s e :
  (∀ x s e, body x s = Err e → e = E) →
  for_each l body s = Err e → e = E.
Proof.
  intros Hbody. revert s. induction l as [|x l IH]; intros s Hrun; [done|].
  simpl in Hrun. destruct (body x s) as [s1|e1] eqn:Hb; simpl in Hrun.
  - by apply (IH s1).
  - injection Hrun as <-. by apply (Hbody x s).
Qed.

Section Errors.

Context {V : Type}.
Implicit Types (buf : list V).

Lemma load_Err buf p e : load buf p = Err e → e = OutOfBounds.
Proof.
  unfold load. destruct (0 <=? p); [|congruence].
  destruct (buf !! Z.to_nat p); congruence.
Qed.

Lemma store_Err buf p v e : store buf p v = Err e → e = OutOfBounds.
Proof. unfold store. destruct (_ && _); congruence. Qed.


Lemma pack_Err buf base offs e : pack buf base offs = Err e → e = OutOfBounds.
Proof.
  induction offs as [|d offs IH]; simpl; [done|].
  destruct (load buf (base + d)) as [v|e1] eqn:Hl; simpl.
  - destruct (pack buf base offs) as [vs|e2]; simpl; [done|].
    intros [= <-]. by apply IH.
  - intros [= <-]. by eapply load_Err.
Qed.

Lemma deposit_Err (data : nat → V) n base offs buf e :
  deposit data n base offs buf = Err e → e = OutOfBounds.
Proof.
  revert n buf. induction offs as [|d offs IH]; intros n buf; simpl; [done|].
  destruct (store buf (base + d) (data n)) as [b|e1] eqn:Hs; simpl.
  - apply IH.
  - intros [= <-]. by eapply store_Err.
Qed.

Lemma MPI_Sendrecv_Err PROC_NULL c (comm : MPI_Comm) buf (w : world) e :
  MPI_Sendrecv PROC_NULL c comm buf w = Err e → e = OutOfBounds.
Proof.
  unfold MPI_Sendrecv.
  destruct (dest c =? PROC_NULL); simpl.
  - destruct (source c =? PROC_NULL); simpl; [done|].
    destruct (deposit _ _ _ _ buf) as [b|e1] eqn:Hd; simpl; [done|].
    intros [= <-]. by eapply deposit_Err.
  - destruct (pack buf _ _) as [data|e1] eqn:Hp; simpl.
    + destruct (source c =? PROC_NULL); simpl; [done|].
      destruct (deposit _ _ _ _ buf) as [b|e1] eqn:Hd; simpl; [done|].
      intros [= <-]. by eapply deposit_Err.
    + intros [= <-]. by eapply pack_Err.
Qed.

End Errors.

Section Short.

Context {V : Type}.
Variables (uninit : V) (PROC_NULL nn Q MX MY MZ myid : Z).
Variables (CART_COMM : MPI_Comm (V:=V)).
Variables (nbr_WEST nbr_EAST nbr_SOUTH nbr_NORTH nbr_BOTTOM nbr_TOP : Z).

Local Abbreviation mxp := (MX + 2 * nn).
Local Abbreviation myp := (MY + 2 * nn).
Local Abbreviation mzp := (MZ + 2 * nn).
Local Abbreviation pv := (mxp * myp * mzp).

Lemma gather_Err a (PDF4d PDF3d : list V) e :
  gather nn Q MX MY MZ a PDF4d PDF3d = Err e → e = OutOfBounds.
Proof.
  unfold gather, for_lt. apply for_each_Err. intros i s1 e1.
  apply for_each_Err. intros j s2 e2. apply for_each_Err. intros k s3 e3.
  cbv zeta. destruct (load PDF4d _) as [v|e4] eqn:Hl; simpl.
  - apply store_Err.
  - intros [= <-]. by eapply load_Err.
Qed.

Lemma scatter_Err a (PDF3d PDF4d : list V) e :
  scatter nn Q MX MY MZ a PDF3d PDF4d = Err e → e = OutOfBounds.
Proof.
  unfold scatter, for_lt. apply for_each_Err. intros i s1 e1.
  apply for_each_Err. intros j s2 e2. apply for_each_Err. intros k s3 e3.
  cbv zeta. destruct (load PDF3d _) as [v|e4] eqn:Hl; simpl.
  - apply store_Err.
  - intros [= <-]. by eapply load_Err.
Qed.

Lemma scatter_length a (PDF3d PDF4d PDF4d' : list V) :
  scatter nn Q MX MY MZ a PDF3d PDF4d = Ok PDF4d' →
  length PDF4d' = length PDF4d.
Proof.
  unfold scatter, for_lt. intros Hrun.
  apply (for_each_Ok_inv (λ s, length s = length PDF4d) _ _ _ _) in Hrun;
    [done| |done].
  intros i s1 s1' _ Hi Hs1.
  apply (for_each_Ok_inv (λ s, length s = length PDF4d) _ _ _ _) in Hi;
    [done| |done].
  intros j s2 s2' _ Hj Hs2.
  apply (for_each_Ok_inv (λ s, length s = length PDF4d) _ _ _ _) in Hj;
    [done| |done].
  intros k s3 s3' _ Hk Hs3. cbv zeta in Hk.
  destruct (load PDF3d _) as [v|e]; [|done]. simpl in Hk.
  by rewrite (store_length _ _ _ _ Hk).
Qed.

Lemma exchange_layer_Err i (st : list V * world) e :
  exchange_layer PROC_NULL nn MX MY MZ CART_COMM
    nbr_WEST nbr_EAST nbr_SOUTH nbr_NORTH nbr_BOTTOM nbr_TOP i st = Err e →
  e = OutOfBounds.
Proof.
  unfold exchange_layer. destruct st as [buf w]. cbv zeta.
  repeat match goal with
    | |- context [MPI_Sendrecv ?pn ?c ?comm ?b ?w0 ≫= _] =>
        let H := fresh "H" in
        destruct (MPI_Sendrecv pn c comm b w0) as [[? ?]|?] eqn:H; simpl;
        [|intros [= <-]; by eapply MPI_Sendrecv_Err]
    end.
  apply MPI_Sendrecv_Err.
Qed.

Lemma exchange_component_Err a (st : list V * list V * world) e :
  exchange_component PROC_NULL nn Q MX MY MZ CART_COMM
    nbr_WEST nbr_EAST nbr_SOUTH nbr_NORTH nbr_BOTTOM nbr_TOP a st = Err e →
  e = OutOfBounds.
Proof.
  unfold exchange_component. destruct st as [[f s] w].
  destruct (gather nn Q MX MY MZ a f s) as [s1|e1] eqn:Hg; simpl;
    [|intros [= <-]; by eapply gather_Err].
  destruct (for_lt nn _ _) as [[s2 w2]|e2] eqn:Hl; simpl.
  - destruct (scatter nn Q MX MY MZ a s2 f) as [f2|e3] eqn:Hs; simpl; [done|].
    intros [= <-]. by eapply scatter_Err.
  - intros [= <-]. unfold for_lt in Hl.
    eapply for_each_Err; [|exact Hl]. intros i st e0. apply exchange_layer_Err.
Qed.

Lemma exchange_component_length a (st st' : list V * list V * world) :
  exchange_component PROC_NULL nn Q MX MY MZ CART_COMM
    nbr_WEST nbr_EAST nbr_SOUTH nbr_NORTH nbr_BOTTOM nbr_TOP a st = Ok st' →
  length st'.1.1 = length st.1.1.
Proof.
  unfold exchange_component. destruct st as [[f s] w].
  destruct (gather nn Q MX MY MZ a f s) as [s1|e1]; simpl; [|done].
  destruct (for_lt nn _ _) as [[s2 w2]|e2]; simpl; [|done].
  destruct (scatter nn Q MX MY MZ a s2 f) as [f2|e3] eqn:Hs; simpl; [|done].
  intros [= <-]. simpl. by eapply scatter_length.
Qed.

End Short.

(** ** Reading the handling of the descriptors *)

Lemma datatype_events_app t1 t2 :
  datatype_events (t1 ++ t2) = datatype_events t1 ++ datatype_events t2.
Proof. apply bind_app. Qed.

Lemma datatype_events_fmap cs : datatype_events (EvSendrecv <$> cs) = [].
Proof.
  induction cs as [|c cs IH]; [done|].
  unfold datatype_events in *. rewrite fmap_cons, bind_cons, IH. done.
Qed.

Lemma datatype_events_call nn Q MX MY MZ nW nE nS nN nB nT :
  datatype_events (call_trace nn Q MX MY MZ nW nE nS nN nB nT)
  = _ ← seqZ 0 Q;
    [EvTypeCommit (x_normal nn MX MY MZ); EvTypeCommit (y_normal nn MX MY MZ);
     EvTypeFree (x_normal nn MX MY MZ); EvTypeFree (y_normal nn MX MY MZ)].
Proof.
  unfold call_trace. rewrite !datatype_events_app. simpl. rewrite app_nil_r.
  unfold datatype_events at 1. rewrite bind_bind_list.
  apply list_bind_ext; [|done]. intros _.
  fold (datatype_events (component_trace nn MX MY MZ nW nE nS nN nB nT)).
  unfold component_trace.
  rewrite !datatype_events_app, datatype_events_fmap. done.
Qed.

(** ** More on the passes *)

Section Passes.

Context {V : Type}.
Variables (uninit : V) (PROC_NULL nn Q MX MY MZ myid : Z).
Variables (CART_COMM : MPI_Comm (V:=V)).
Variables (nbr_WEST nbr_EAST nbr_SOUTH nbr_NORTH nbr_BOTTOM nbr_TOP : Z).

Local Abbreviation mxp := (MX + 2 * nn).
Local Abbreviation myp := (MY + 2 * nn).
Local Abbreviation mzp := (MZ + 2 * nn).
Local Abbreviation pv := (mxp * myp * mzp).
Local Abbreviation run :=
  (exchangePDF uninit PROC_NULL nn Q MX MY MZ myid CART_COMM
     nbr_WEST nbr_EAST nbr_SOUTH nbr_NORTH nbr_BOTTOM nbr_TOP).

(** X3: Scatter succeeds on buffers of the required sizes; it leaves in
    [interleaved[index4D(i,j,k,a)]] the value of [scratch[index3D(i,j,k)]]
    for every padded voxel ([i] below [MX + 2 nn], [j] below [MY + 2 nn],
    [k] below [MZ + 2 nn]), keeps the length of the field and leaves the
    cells of every other component as they were. *)
Theorem scatter_writes_component a (PDF3d PDF4d : list V) :
  valid_geometry nn Q MX MY MZ →
  0 ≤ a < Q →
  Z.of_nat (length PDF4d) = pv * Q →
  Z.of_nat (length PDF3d) = pv →
  ∃ PDF4d',
    scatter nn Q MX MY MZ a PDF3d PDF4d = Ok PDF4d' ∧
    length PDF4d' = length PDF4d ∧
    (∀ i j k,
       0 ≤ i < MX + 2 * nn → 0 ≤ j < MY + 2 * nn → 0 ≤ k < MZ + 2 * nn →
       ∃ v, load PDF3d (index3D mxp myp i j k) = Ok v ∧
            load PDF4d' (index4D Q mxp myp i j k a) = Ok v) ∧
    (∀ i j k b, 0 ≤ b < Q → b ≠ a →
       load PDF4d' (index4D Q mxp myp i j k b)
       = load PDF4d (index4D Q mxp myp i j k b)).
Proof.
  intros Hvalid Ha H4 H3.
  destruct (scatter_spec nn Q MX MY MZ Hvalid a PDF3d PDF4d Ha H4 H3)
    as (f' & Hrun & Hlen & Hw & Hfr).
  exists f'. split; [done|]. split; [done|].
  split.
  - intros i j k Hi Hj Hk.
    destruct (voxel_indices nn Q MX MY MZ Hvalid a i j k Ha Hi Hj Hk)
      as (_ & _ & Hp & _).
    destruct (load_in_bounds PDF3d (index3D mxp myp i j k)) as [v Hv]; [lia|].
    exists v. split; [done|]. by rewrite Hw.
  - intros i j k b Hb Hba. apply Hfr. intros i' j' k' _ _ _ Heq.
    unfold index4D in Heq. apply index4D_component in Heq as [? _]; done.
Qed.

(** X4: the result of a valid call does not depend on what the freshly
    allocated scratch buffer holds: Gather overwrites every cell of it before
    anything is read from it. *)
Theorem scratch_content_irrelevant (uninit' : V) (PDF4d : list V) (w : world) :
  valid_geometry nn Q MX MY MZ →
  Z.of_nat (length PDF4d) = pv * Q →
  run PDF4d w =
  exchangePDF uninit' PROC_NULL nn Q MX MY MZ myid CART_COMM
    nbr_WEST nbr_EAST nbr_SOUTH nbr_NORTH nbr_BOTTOM nbr_TOP PDF4d w.
Proof.
  intros Hvalid H4.
  destruct (geometry_bounds nn Q MX MY MZ Hvalid)
    as (Hnn & HQ & HMX & HMY & HMZ & Hxy & Hpv & _).
  unfold exchangePDF, new_double. cbv zeta.
  rewrite (PADDED_VOXELS_exact nn Q MX MY MZ Hvalid).
  destruct (Z.ltb_spec pv 0) as [?|_]; [lia|]. simpl.
  unfold for_lt. rewrite (seqZ_cons 0 Q) by lia. cbn [for_each].
  assert (exchange_component PROC_NULL nn Q MX MY MZ CART_COMM
            nbr_WEST nbr_EAST nbr_SOUTH nbr_NORTH nbr_BOTTOM nbr_TOP 0
            (PDF4d, replicate (Z.to_nat pv) uninit, emit (EvNew pv) w)
          = exchange_component PROC_NULL nn Q MX MY MZ CART_COMM
              nbr_WEST nbr_EAST nbr_SOUTH nbr_NORTH nbr_BOTTOM nbr_TOP 0
              (PDF4d, replicate (Z.to_nat pv) uninit', emit (EvNew pv) w))
    as ->; [|done].
  unfold exchange_component.
  rewrite (gather_overwrites nn Q MX MY MZ Hvalid 0 PDF4d
             (replicate (Z.to_nat pv) uninit)
             (replicate (Z.to_nat pv) uninit'));
    [done | lia | done | rewrite length_replicate; lia..].
Qed.

(** X6: in a valid call every component pass commits the two face
    descriptors and frees both before the next pass begins; when the call
    returns, every descriptor that was committed has been freed. *)
Theorem descriptors_released (PDF4d : list V) (w : world) :
  valid_geometry nn Q MX MY MZ →
  Z.of_nat (length PDF4d) = pv * Q →
  ∃ PDF4d' w',
    run PDF4d w = Ok (PDF4d', w') ∧
    datatype_events (trace w') =
      datatype_events (trace w) ++
      (_ ← seqZ 0 Q;
       [EvTypeCommit (stridex nn MX MY MZ); EvTypeCommit (stridey nn MX MY MZ);
        EvTypeFree (stridex nn MX MY MZ); EvTypeFree (stridey nn MX MY MZ)]).
Proof.
  intros Hvalid Hlen.
  destruct (exchangePDF_spec uninit PROC_NULL nn Q MX MY MZ myid CART_COMM
              nbr_WEST nbr_EAST nbr_SOUTH nbr_NORTH nbr_BOTTOM nbr_TOP
              Hvalid PDF4d w Hlen) as (f' & w' & Hrun & _ & Htr & _).
  exists f', w'. split; [done|].
  rewrite Htr, datatype_events_app, datatype_events_call.
  by rewrite (stridex_exact nn Q MX MY MZ Hvalid),
             (stridey_exact nn Q MX MY MZ Hvalid).
Qed.

End Passes.

(** X7: the slab of [no_xy] doubles that the Z exchanges transfer from the
    base of a plane of constant [z] is that whole plane, row by row. *)
Theorem z_slab_is_plane nn Q MX MY MZ z :
  valid_geometry nn Q MX MY MZ →
  addresses (index3D (MX + 2 * nn) (MY + 2 * nn) 0 0 z) (no_xy nn MX MY)
    MPI_DOUBLE
  = z_face (MX + 2 * nn) (MY + 2 * nn) z.
Proof.
  intros Hvalid. pose proof Hvalid as (? & ? & ? & ? & ? & _).
  rewrite (no_xy_exact nn Q MX MY MZ Hvalid).
  unfold addresses, z_face.
  rewrite transfer_map_double, seqZ_rows by lia.
  rewrite fmap_bind_list. apply list_bind_ext; [|done]. intros j.
  rewrite fmap_bind_list. apply list_bind_ext; [|done]. intros i.
  simpl. unfold index3D. f_equal. lia.
Qed.

(** ** A field that is too short *)

Section ShortField.

Context {V : Type}.
Variables (uninit : V) (PROC_NULL nn Q MX MY MZ myid : Z).
Variables (CART_COMM : MPI_Comm (V:=V)).
Variables (nbr_WEST nbr_EAST nbr_SOUTH nbr_NORTH nbr_BOTTOM nbr_TOP : Z).
Hypothesis Hvalid : valid_geometry nn Q MX MY MZ.

Local Abbreviation mxp := (MX + 2 * nn).
Local Abbreviation myp := (MY + 2 * nn).
Local Abbreviation mzp := (MZ + 2 * nn).
Local Abbreviation pv := (mxp * myp * mzp).
Local Abbreviation idx3 := (index3D mxp myp).
Local Abbreviation idx4 := (index4D Q mxp myp).






Local Abbreviation run :=
  (exchangePDF uninit PROC_NULL nn Q MX MY MZ myid CART_COMM
     nbr_WEST nbr_EAST nbr_SOUTH nbr_NORTH nbr_BOTTOM nbr_TOP).
Local Abbreviation pass :=
  (exchange_component PROC_NULL nn Q MX MY MZ CART_COMM
     nbr_WEST nbr_EAST nbr_SOUTH nbr_NORTH nbr_BOTTOM nbr_TOP).



End ShortField.

Section ShortCall.

Context {V : Type}.
Variables (uninit : V) (PROC_NULL nn Q MX MY MZ myid : Z).
Variables (CART_COMM : MPI_Comm (V:=V)).
Variables (nbr_WEST nbr_EAST nbr_SOUTH nbr_NORTH nbr_BOTTOM nbr_TOP : Z).

Local Abbreviation mxp := (MX + 2 * nn).
Local Abbreviation myp := (MY + 2 * nn).
Local Abbreviation mzp := (MZ + 2 * nn).
Local Abbreviation pv := (mxp * myp * mzp).
Local Abbreviation run :=
  (exchangePDF uninit PROC_NULL nn Q MX MY MZ myid CART_COMM
     nbr_WEST nbr_EAST nbr_SOUTH nbr_NORTH nbr_BOTTOM nbr_TOP).
Local Abbreviation pass :=
  (exchange_component PROC_NULL nn Q MX MY MZ CART_COMM
     nbr_WEST nbr_EAST nbr_SOUTH nbr_NORTH nbr_BOTTOM nbr_TOP).


End ShortCall.

(** ** What is handed to the transport *)

Section Sent.

Context {V : Type}.
Variables (PROC_NULL : Z) (CART_COMM : MPI_Comm (V:=V)).
Implicit Types (buf : list V) (w : world (V:=V)).

Lemma pack_returned buf base offs data :
  pack buf base offs = Ok data →
  length data = length offs ∧
  ∀ (m : nat) d, offs !! m = Some d →
    ∃ v, data !! m = Some v ∧ load buf (base + d) = Ok v.
Proof.
  revert data. induction offs as [|d0 offs IH]; intros data Hrun; simpl in Hrun.
  - injection Hrun as <-. split; [done|]. intros m d Hm. done.
  - destruct (load buf (base + d0)) as [v0|e] eqn:Hl; [|done]. simpl in Hrun.
    destruct (pack buf base offs) as [vs|e]; [|done]. simpl in Hrun.
    injection Hrun as <-. destruct (IH vs eq_refl) as [Hlen Hvs].
    split; [simpl; lia|].
    intros [|m] d Hm; simpl in Hm.
    + injection Hm as <-. exists v0. done.
    + by apply Hvs.
Qed.

Lemma carries_ext (P : Z → Prop) (value value' : Z → result V) c msg :
  (∀ q, P q → value q = value' q) →
  carries P value c msg → carries P value' c msg.
Proof.
  intros Hext (Hd & Ht & Hl & Hv). split; [done|]. split; [done|].
  split; [done|]. intros m d Hm HP.
  destruct (Hv m d Hm HP) as (v & Hdata & Hval). exists v.
  by rewrite <- Hext.
Qed.

Lemma MPI_Sendrecv_sent (P : Z → Prop) c buf w buf' w' :
  MPI_Sendrecv PROC_NULL c CART_COMM buf w = Ok (buf', w') →
  ∃ msgs,
    outbox w' = outbox w ++ msgs ∧
    Forall2 (carries P (load buf)) (filter (λ c, dest c ≠ PROC_NULL) [c]) msgs.
Proof.
  unfold MPI_Sendrecv. intros Hrun.
  destruct (Z.eqb_spec (dest c) PROC_NULL) as [Hd|Hd]; simpl in Hrun.
  - exists []. rewrite filter_cons_False by (intros ?; done).
    rewrite app_nil_r. split; [|constructor].
    destruct (source c =? PROC_NULL); simpl in Hrun.
    + by injection Hrun as <- <-.
    + destruct (deposit _ _ _ _ buf) as [b|e]; [|done]. simpl in Hrun.
      by injection Hrun as <- <-.
  - destruct (pack buf _ _) as [data|e] eqn:Hp; [|done]. simpl in Hrun.
    exists [Message (dest c) (sendtag c) data].
    rewrite filter_cons_True by done. split.
    + destruct (source c =? PROC_NULL); simpl in Hrun.
      * by injection Hrun as <- <-.
      * destruct (deposit _ _ _ _ buf) as [b|e]; [|done]. simpl in Hrun.
        by injection Hrun as <- <-.
    + constructor; [|constructor].
      destruct (pack_returned _ _ _ _ Hp) as [Hlen Hdata].
      split; [done|]. split; [done|]. split; [done|].
      intros m d Hm _. by apply Hdata.
Qed.

(** The messages of a list of calls that returned: one per send leg with a
    neighbor, in order, carrying the values that the cells which no call
    receives into held at the start. *)
Lemma run_calls_sent (P : Z → Prop) cs buf w buf' w' :
  run_calls PROC_NULL CART_COMM cs (buf, w) = Ok (buf', w') →
  (∀ c, c ∈ cs → source c ≠ PROC_NULL →
     ∀ d, d ∈ transfer_map (recvcount c) (recvtype c) → ¬ P (recvbuf c + d)) →
  ∃ msgs,
    outbox w' = outbox w ++ msgs ∧
    Forall2 (carries P (load buf)) (filter (λ c, dest c ≠ PROC_NULL) cs) msgs.
Proof.
  unfold run_calls. revert buf w.
  induction cs as [|c0 cs IH]; intros buf w Hrun HP; simpl in Hrun.
  - injection Hrun as <- <-. exists []. rewrite app_nil_r. split; [done|].
    constructor.
  - destruct (MPI_Sendrecv PROC_NULL c0 CART_COMM buf w) as [[buf1 w1]|e] eqn:H0;
      [|done].
    simpl in Hrun.
    destruct (MPI_Sendrecv_sent P _ _ _ _ _ H0) as (msgs0 & Hout0 & Hm0).
    destruct (IH _ _ Hrun) as (msgs & Hout & Hm).
    { intros c Hc. apply HP. by apply list_elem_of_further. }
    exists (msgs0 ++ msgs). split; [by rewrite Hout, Hout0, app_assoc|].
    change (c0 :: cs) with ([c0] ++ cs). rewrite filter_app.
    apply Forall2_app; [done|].
    eapply Forall2_impl; [exact Hm|]. intros c msg. apply carries_ext.
    intros q Hq. eapply MPI_Sendrecv_frame; [done|].
    intros Hs d Hd ->. eapply HP; [apply list_elem_of_here|done..].
Qed.

End Sent.

Section SentCall.

Context {V : Type}.
Variables (uninit : V) (PROC_NULL nn Q MX MY MZ myid : Z).
Variables (CART_COMM : MPI_Comm (V:=V)).
Variables (nbr_WEST nbr_EAST nbr_SOUTH nbr_NORTH nbr_BOTTOM nbr_TOP : Z).
Hypothesis Hvalid : valid_geometry nn Q MX MY MZ.

Local Abbreviation mxp := (MX + 2 * nn).
Local Abbreviation myp := (MY + 2 * nn).
Local Abbreviation mzp := (MZ + 2 * nn).
Local Abbreviation pv := (mxp * myp * mzp).
Local Abbreviation idx3 := (index3D mxp myp).
Local Abbreviation idx4 := (index4D Q mxp myp).
Local Abbreviation table :=
  (addressing_table nn MX MY MZ
     nbr_WEST nbr_EAST nbr_SOUTH nbr_NORTH nbr_BOTTOM nbr_TOP).
Local Abbreviation inner := (interior_address nn MX MY MZ).
Local Abbreviation live := (λ c : sendrecv_call, dest c ≠ PROC_NULL).

Lemma layers_sent (PDF3d : list V) (w : world) :
  Z.of_nat (length PDF3d) = pv →
  ∃ PDF3d' w' msgs,
    for_lt nn (exchange_layer PROC_NULL nn MX MY MZ CART_COMM
                 nbr_WEST nbr_EAST nbr_SOUTH nbr_NORTH nbr_BOTTOM nbr_TOP)
      (PDF3d, w) = Ok (PDF3d', w') ∧
    outbox w' = outbox w ++ msgs ∧
    Forall2 (carries inner (load PDF3d))
      (i ← seqZ 0 nn; filter live (table i)) msgs.
Proof.
  intros Hlen. destruct Hvalid as (Hnn & _).
  destruct (for_lt_inv
    (λ n st,
       length st.1 = length PDF3d ∧
       (∀ q, inner q → load st.1 q = load PDF3d q) ∧
       ∃ msgs,
         outbox st.2 = outbox w ++ msgs ∧
         Forall2 (carries inner (load PDF3d))
           (i ← seqZ 0 n; filter live (table i)) msgs)
    nn (exchange_layer PROC_NULL nn MX MY MZ CART_COMM
          nbr_WEST nbr_EAST nbr_SOUTH nbr_NORTH nbr_BOTTOM nbr_TOP)
    (PDF3d, w)) as ([buf' w'] & Hrun & _ & _ & msgs & Hout & Hm); [lia| |..].
  - simpl. split; [done|]. split; [done|]. exists []. rewrite app_nil_r.
    split; [done|]. constructor.
  - intros n [buf0 w0] Hn (Hlen0 & Hin0 & msgs0 & Hout0 & Hm0).
    simpl in Hlen0, Hin0, Hout0.
    destruct (layer_refresh PROC_NULL nn Q MX MY MZ CART_COMM
                nbr_WEST nbr_EAST nbr_SOUTH nbr_NORTH nbr_BOTTOM nbr_TOP
                Hvalid n buf0 w0 Hn ltac:(lia))
      as (buf1 & w1 & Hrun1 & Hlen1 & _).
    exists (buf1, w1). split; [done|]. simpl.
    rewrite (exchange_layer_table PROC_NULL nn Q MX MY MZ CART_COMM
               nbr_WEST nbr_EAST nbr_SOUTH nbr_NORTH nbr_BOTTOM nbr_TOP Hvalid)
      in Hrun1 by done.
    assert (∀ c, c ∈ table n → source c ≠ PROC_NULL →
              ∀ d, d ∈ transfer_map (recvcount c) (recvtype c) →
                   ¬ inner (recvbuf c + d)) as Hkeep.
    { intros c Hc _ d Hd (x & y & z & Hxyz & Heq).
      destruct (table_regions nn Q MX MY MZ Hvalid _ _ _ _ _ _ n c Hn Hc)
        as [_ Hr].
      by apply (proj2 (Hr d Hd) x y z). }
    destruct (run_calls_returned _ _ _ _ _ _ _ Hrun1) as (_ & _ & Hfr1 & _).
    destruct (run_calls_sent PROC_NULL CART_COMM inner _ _ _ _ _ Hrun1 Hkeep)
      as (msgs1 & Hout1 & Hm1).
    split; [congruence|]. split.
    + intros q Hq. rewrite Hfr1; [by apply Hin0|].
      intros c Hc Hs d Hd ->. by apply (Hkeep c Hc Hs d Hd).
    + exists (msgs0 ++ msgs1). split; [by rewrite Hout1, Hout0, app_assoc|].
      rewrite seqZ_snoc, bind_app, bind_singleton by lia.
      apply Forall2_app; [done|].
      eapply Forall2_impl; [exact Hm1|]. intros c msg. by apply carries_ext.
  - exists buf', w', msgs. done.
Qed.

Lemma component_sent a (PDF4d PDF3d : list V) (w : world) :
  0 ≤ a < Q →
  Z.of_nat (length PDF4d) = pv * Q →
  Z.of_nat (length PDF3d) = pv →
  ∃ PDF4d' PDF3d' w' msgs,
    exchange_component PROC_NULL nn Q MX MY MZ CART_COMM
      nbr_WEST nbr_EAST nbr_SOUTH nbr_NORTH nbr_BOTTOM nbr_TOP a
      (PDF4d, PDF3d, w) = Ok (PDF4d', PDF3d', w') ∧
    outbox w' = outbox w ++ msgs ∧
    Forall2 (carries inner (λ q, load PDF4d (a + q * Q)))
      (i ← seqZ 0 nn; filter live (table i)) msgs.
Proof.
  intros Ha H4 H3.
  destruct (component_spec PROC_NULL nn Q MX MY MZ CART_COMM
              nbr_WEST nbr_EAST nbr_SOUTH nbr_NORTH nbr_BOTTOM nbr_TOP
              Hvalid a PDF4d PDF3d w Ha H4 H3)
    as (f' & s' & w' & Hrun & _).
  exists f', s', w'. pose proof Hrun as Hrun0.
  unfold exchange_component in Hrun.
  destruct (gather_spec nn Q MX MY MZ Hvalid a PDF4d PDF3d Ha H4 H3)
    as (s1 & Hg & Hlen1 & Hs1). rewrite Hg in Hrun. simpl in Hrun.
  destruct (layers_sent s1
              (emit (EvTypeCommit (stridey nn MX MY MZ))
                 (emit (EvTypeCommit (stridex nn MX MY MZ)) w)))
    as (s2 & w2 & msgs & Hl & Hout & Hm); [lia|].
  rewrite Hl in Hrun. simpl in Hrun.
  destruct (scatter nn Q MX MY MZ a s2 PDF4d) as [f2|e]; [|done].
  simpl in Hrun. injection Hrun as <- <- <-.
  exists msgs. split; [done|]. split; [done|].
  eapply Forall2_impl; [exact Hm|]. intros c msg. apply carries_ext.
  intros q (x & y & z & Hxyz & ->).
  destruct Hvalid as (? & _). unfold interior in Hxyz.
  rewrite Hs1 by lia. done.
Qed.

Lemma sent_rows_snoc n :
  0 ≤ n →
  sent_rows PROC_NULL nn (n + 1) MX MY MZ
    nbr_WEST nbr_EAST nbr_SOUTH nbr_NORTH nbr_BOTTOM nbr_TOP
  = sent_rows PROC_NULL nn n MX MY MZ
      nbr_WEST nbr_EAST nbr_SOUTH nbr_NORTH nbr_BOTTOM nbr_TOP
    ++ (pair n <$> (i ← seqZ 0 nn; filter live (table i))).
Proof.
  intros Hn. unfold sent_rows.
  rewrite seqZ_snoc, bind_app, bind_singleton by done.
  by rewrite fmap_bind_list.
Qed.

End SentCall.

Section SentMessages.

Context {V : Type}.
Variables (uninit : V) (PROC_NULL nn Q MX MY MZ myid : Z).
Variables (CART_COMM : MPI_Comm (V:=V)).
Variables (nbr_WEST nbr_EAST nbr_SOUTH nbr_NORTH nbr_BOTTOM nbr_TOP : Z).

Local Abbreviation mxp := (MX + 2 * nn).
Local Abbreviation myp := (MY + 2 * nn).
Local Abbreviation mzp := (MZ + 2 * nn).
Local Abbreviation pv := (mxp * myp * mzp).
Local Abbreviation idx4 := (index4D Q mxp myp).
Local Abbreviation inner := (interior_address nn MX MY MZ).

(** X8: a valid call hands the transport one message for every row whose
    destination is a neighbor, in the order of the components, the ghost
    layers and the six rows; each message goes to the row's destination with
    the row's tag, has one element for every element of the row's send region,
    and every element read from an interior cell is the value that the field
    given to the call holds there for the component of the pass. *)
Theorem interior_values_sent (PDF4d : list V) (w : world) :
  valid_geometry nn Q MX MY MZ →
  Z.of_nat (length PDF4d) = pv * Q →
  ∃ PDF4d' w' msgs,
    exchangePDF uninit PROC_NULL nn Q MX MY MZ myid CART_COMM
      nbr_WEST nbr_EAST nbr_SOUTH nbr_NORTH nbr_BOTTOM nbr_TOP PDF4d w
      = Ok (PDF4d', w') ∧
    outbox w' = outbox w ++ msgs ∧
    Forall2 (λ ac msg,
               carries inner (λ q, load PDF4d (ac.1 + q * Q)) ac.2 msg)
      (sent_rows PROC_NULL nn Q MX MY MZ
         nbr_WEST nbr_EAST nbr_SOUTH nbr_NORTH nbr_BOTTOM nbr_TOP) msgs.
Proof.
  intros Hvalid H4.
  destruct (exchangePDF_spec uninit PROC_NULL nn Q MX MY MZ myid CART_COMM
              nbr_WEST nbr_EAST nbr_SOUTH nbr_NORTH nbr_BOTTOM nbr_TOP
              Hvalid PDF4d w H4) as (f' & w' & Hrun & _).
  exists f', w'. pose proof Hrun as Hrun0.
  destruct (geometry_bounds nn Q MX MY MZ Hvalid)
    as (Hnn & HQ & HMX & HMY & HMZ & Hxy & Hpv & _).
  rewrite (exchangePDF_components uninit PROC_NULL nn Q MX MY MZ myid
             CART_COMM nbr_WEST nbr_EAST nbr_SOUTH nbr_NORTH nbr_BOTTOM nbr_TOP
             Hvalid) in Hrun.
  destruct (for_lt_inv
    (λ n st,
       Z.of_nat (length st.1.1) = pv * Q ∧
       Z.of_nat (length st.1.2) = pv ∧
       (∀ i j k b, interior nn MX MY MZ i j k → 0 ≤ b < Q →
          load st.1.1 (idx4 i j k b) = load PDF4d (idx4 i j k b)) ∧
       ∃ msgs,
         outbox st.2 = outbox w ++ msgs ∧
         Forall2 (λ ac msg,
                    carries inner (λ q, load PDF4d (ac.1 + q * Q)) ac.2 msg)
           (sent_rows PROC_NULL nn n MX MY MZ
              nbr_WEST nbr_EAST nbr_SOUTH nbr_NORTH nbr_BOTTOM nbr_TOP) msgs)
    Q (exchange_component PROC_NULL nn Q MX MY MZ CART_COMM
         nbr_WEST nbr_EAST nbr_SOUTH nbr_NORTH nbr_BOTTOM nbr_TOP)
    (PDF4d, replicate (Z.to_nat pv) uninit, emit (EvNew pv) w))
    as ([[f1 s1] w1] & Hloop & _ & _ & _ & msgs & Hout & Hm); [lia| |..].
  - simpl. rewrite length_replicate. split; [done|]. split; [lia|].
    split; [done|]. exists []. rewrite app_nil_r. split; [done|]. constructor.
  - intros n [[f0 s0] w0] Hn (Hlen0 & Hs0 & Hint0 & msgs0 & Hout0 & Hm0).
    simpl in Hlen0, Hs0, Hint0, Hout0.
    destruct (component_sent PROC_NULL nn Q MX MY MZ CART_COMM
                nbr_WEST nbr_EAST nbr_SOUTH nbr_NORTH nbr_BOTTOM nbr_TOP
                Hvalid n f0 s0 w0 Hn Hlen0 Hs0)
      as (f2 & s2 & w2 & msgs2 & Hrun2 & Hout2 & Hm2).
    destruct (component_spec PROC_NULL nn Q MX MY MZ CART_COMM
                nbr_WEST nbr_EAST nbr_SOUTH nbr_NORTH nbr_BOTTOM nbr_TOP
                Hvalid n f0 s0 w0 Hn Hlen0 Hs0)
      as (f3 & s3 & w3 & Hrun3 & Hlen3 & Hs3 & _ & Hint3 & _).
    rewrite Hrun2 in Hrun3. injection Hrun3 as <- <- <-.
    exists (f2, s2, w2). split; [done|]. simpl.
    split; [lia|]. split; [lia|]. split.
    + intros i j k b Hijk Hb. rewrite Hint3 by done. by apply Hint0.
    + exists (msgs0 ++ msgs2). split; [by rewrite Hout2, Hout0, app_assoc|].
      rewrite sent_rows_snoc by lia. apply Forall2_app; [done|].
      apply Forall2_fmap_l.
      eapply Forall2_impl; [exact Hm2|]. intros c msg. simpl.
      apply carries_ext.
      intros q (x & y & z & Hxyz & ->).
      apply (Hint0 x y z n Hxyz Hn).
  - rewrite Hloop in Hrun. simpl in Hrun. injection Hrun as <- <-.
    exists msgs. done.
Qed.

End SentMessages.

(** ** The face a row sends *)

Section SentFaces.

Context {V : Type}.
Variables (uninit : V) (PROC_NULL nn Q MX MY MZ myid : Z).
Variables (CART_COMM : MPI_Comm (V:=V)).
Variables (nbr_WEST nbr_EAST nbr_SOUTH nbr_NORTH nbr_BOTTOM nbr_TOP : Z).

Local Abbreviation mxp := (MX + 2 * nn).
Local Abbreviation myp := (MY + 2 * nn).
Local Abbreviation mzp := (MZ + 2 * nn).
Local Abbreviation pv := (mxp * myp * mzp).
Local Abbreviation idx3 := (index3D mxp myp).
Local Abbreviation table :=
  (addressing_table nn MX MY MZ
     nbr_WEST nbr_EAST nbr_SOUTH nbr_NORTH nbr_BOTTOM nbr_TOP).

Lemma row_sent_cell i (r : nat) c d x y z :
  valid_geometry nn Q MX MY MZ →
  0 ≤ i < nn →
  table i !! r = Some c →
  d ∈ transfer_map (recvcount c) (recvtype c) →
  0 ≤ x < mxp → 0 ≤ y < myp → 0 ≤ z < mzp →
  recvbuf c + d = idx3 x y z →
  let s := sent_cell MX MY MZ r x y z in
  sendcount c = recvcount c ∧ sendtype c = recvtype c ∧
  ghost_coordinate nn MX MY MZ i r x y z ∧
  sendbuf c + d = idx3 s.1 s.2.1 s.2.2 ∧
  (face_cell nn MX MY MZ r x y z →
   interior nn MX MY MZ s.1 s.2.1 s.2.2 ↔ i < axis_extent MX MY MZ r).
Proof.
  intros Hvalid Hi Hr Hd Hx Hy Hz Heq s.
  pose proof (recv_ghost_coordinate nn Q MX MY MZ
                nbr_WEST nbr_EAST nbr_SOUTH nbr_NORTH nbr_BOTTOM nbr_TOP
                Hvalid i r c d x y z Hi Hr Hd Heq (conj Hx (conj Hy Hz))) as Hg.
  split_and!; [..|done| |].
  1,2: destruct r as [|[|[|[|[|[|r]]]]]]; simpl in Hr; [..|done];
       by injection Hr as <-.
  - destruct r as [|[|[|[|[|[|r]]]]]]; simpl in Hr; [..|done];
      injection Hr as <-; subst s; simpl in Heq |- *;
      unfold index3D in *; lia.
  - intros Hf. unfold interior.
    destruct r as [|[|[|[|[|[|r]]]]]]; simpl in Hg, Hf; [..|done];
      subst s; simpl; lia.
Qed.

(** X9: in a valid call every paired exchange sends and receives with the
    same count and descriptor, so element for element (the exchange with tag
    [111 * (r + 1)] being row [r] of the six): the element that
    lands in the ghost cell [(x, y, z)] of the receive region is read from
    the cell one block extent further along the exchange's axis, on the
    side the exchange sends to.  For a cell of the ghost face that cell is
    interior exactly when the ghost-layer index is below the block's extent
    along that axis: with more ghost layers than voxels along an axis the
    outer layers are sent from ghost cells. *)
Theorem sent_face_mirrors_ghost_face (PDF4d : list V) (w : world) :
  valid_geometry nn Q MX MY MZ →
  Z.of_nat (length PDF4d) = pv * Q →
  ∃ PDF4d' w' t,
    exchangePDF uninit PROC_NULL nn Q MX MY MZ myid CART_COMM
      nbr_WEST nbr_EAST nbr_SOUTH nbr_NORTH nbr_BOTTOM nbr_TOP PDF4d w
      = Ok (PDF4d', w') ∧
    trace w' = trace w ++ t ∧
    ∀ c, EvSendrecv c ∈ t →
      sendcount c = recvcount c ∧ sendtype c = recvtype c ∧
      ∃ i (r : nat),
        0 ≤ i < nn ∧ (r < 6)%nat ∧ sendtag c = 111 * (Z.of_nat r + 1) ∧
        ∀ d x y z,
          d ∈ transfer_map (recvcount c) (recvtype c) →
          0 ≤ x < mxp → 0 ≤ y < myp → 0 ≤ z < mzp →
          recvbuf c + d = idx3 x y z →
          let s := sent_cell MX MY MZ r x y z in
          ghost_coordinate nn MX MY MZ i r x y z ∧
          sendbuf c + d = idx3 s.1 s.2.1 s.2.2 ∧
          (face_cell nn MX MY MZ r x y z →
           interior nn MX MY MZ s.1 s.2.1 s.2.2 ↔ i < axis_extent MX MY MZ r).
Proof.
  intros Hvalid Hlen.
  destruct (exchangePDF_spec uninit PROC_NULL nn Q MX MY MZ myid CART_COMM
              nbr_WEST nbr_EAST nbr_SOUTH nbr_NORTH nbr_BOTTOM nbr_TOP
              Hvalid PDF4d w Hlen) as (f' & w' & Hrun & _ & Htr & _).
  exists f', w', (call_trace nn Q MX MY MZ
                    nbr_WEST nbr_EAST nbr_SOUTH nbr_NORTH nbr_BOTTOM nbr_TOP).
  split; [done|]. split; [done|]. intros c Hc.
  apply elem_of_sendrecv_calls in Hc. rewrite sendrecv_calls_call in Hc.
  apply list_elem_of_bind in Hc as (_ & Hc & _).
  apply list_elem_of_bind in Hc as (i & Hc & Hi%elem_of_seqZ).
  apply list_elem_of_lookup in Hc as (r & Hr).
  assert (r < 6)%nat as Hr6.
  { apply lookup_lt_Some in Hr. by rewrite table_length in Hr. }
  assert (0 ≤ i < nn) as Hi' by lia.
  assert (sendcount c = recvcount c ∧ sendtype c = recvtype c) as [Hcnt Hty].
  { clear -Hr. destruct r as [|[|[|[|[|[|r]]]]]]; simpl in Hr; [..|done];
      by injection Hr as <-. }
  split; [done|]. split; [done|]. exists i, r.
  split; [done|]. split; [done|]. split.
  { clear -Hr. destruct r as [|[|[|[|[|[|r]]]]]]; simpl in Hr; [..|done];
      by injection Hr as <-. }
  intros d x y z Hd Hx Hy Hz Heq.
  destruct (row_sent_cell i r c d x y z Hvalid Hi' Hr Hd Hx Hy Hz Heq)
    as (_ & _ & Hg & Hs & Hin).
  done.
Qed.

End SentFaces.

(** ** The further properties on sample calls *)

Lemma ghost_faces_refreshed_witness :
  valid_geometry 1 2 1 1 1 ∧
  Z.of_nat (length (sample_field 54)) = (1 + 2 * 1) * (1 + 2 * 1) * (1 + 2 * 1) * 2 ∧
  ∃ PDF4d' w',
    two_component_call = Ok (PDF4d', w') ∧
    ∀ a i (r : nat) c x y z,
      0 ≤ a < 2 → 0 ≤ i < 1 →
      addressing_table 1 1 1 1 (-1) 1 (-1) (-1) (-1) (-1) i !! r = Some c →
      source c ≠ -1 →
      ghost_coordinate 1 1 1 1 i r x y z → face_cell 1 1 1 1 r x y z →
      trace w' !! (0 + event_index 1 a i r)%nat = Some (EvSendrecv c) ∧
      load PDF4d' (index4D 2 3 3 x y z a) =
      Ok (comm_recv sample_comm (0 + event_index 1 a i r) (source c) (recvtag c)
            (Z.to_nat (element_index 1 1 1 r x y z))).
Proof.
  split; [exact sample_geometry|]. split; [exact sample_field_length|].
  exact (ghost_faces_refreshed 0 (-1) 1 2 1 1 1 0 sample_comm
           (-1) 1 (-1) (-1) (-1) (-1) (sample_field 54) (World [] [])
           sample_geometry sample_field_length).
Defined.

Lemma cells_without_neighbor_untouched_witness :
  valid_geometry 1 2 1 1 1 ∧
  Z.of_nat (length (sample_field 54)) = (1 + 2 * 1) * (1 + 2 * 1) * (1 + 2 * 1) * 2 ∧
  ∃ PDF4d' w',
    two_component_call = Ok (PDF4d', w') ∧
    (∀ a x y z,
       0 ≤ a < 2 → 0 ≤ x < 3 → 0 ≤ y < 3 → 0 ≤ z < 3 →
       (∀ i (r : nat) c, 0 ≤ i < 1 →
          addressing_table 1 1 1 1 (-1) 1 (-1) (-1) (-1) (-1) i !! r = Some c →
          source c ≠ -1 → ¬ ghost_coordinate 1 1 1 1 i r x y z) →
       ∃ v, load (sample_field 54) (index4D 2 3 3 x y z a) = Ok v ∧
            load PDF4d' (index4D 2 3 3 x y z a) = Ok v) ∧
    (∀ a i (r : nat) c x y z,
       0 ≤ a < 2 → 0 ≤ i < 1 →
       addressing_table 1 1 1 1 (-1) 1 (-1) (-1) (-1) (-1) i !! r = Some c →
       source c = -1 →
       ghost_coordinate 1 1 1 1 i r x y z → face_cell 1 1 1 1 r x y z →
       ∃ v, load (sample_field 54) (index4D 2 3 3 x y z a) = Ok v ∧
            load PDF4d' (index4D 2 3 3 x y z a) = Ok v).
Proof.
  split; [exact sample_geometry|]. split; [exact sample_field_length|].
  exact (cells_without_neighbor_untouched 0 (-1) 1 2 1 1 1 0 sample_comm
           (-1) 1 (-1) (-1) (-1) (-1) (sample_field 54) (World [] [])
           sample_geometry sample_field_length).
Defined.

Lemma scatter_writes_component_witness :
  valid_geometry 1 2 1 1 1 ∧ 0 ≤ 1 < 2 ∧
  Z.of_nat (length (sample_field 54)) = (1 + 2 * 1) * (1 + 2 * 1) * (1 + 2 * 1) * 2 ∧
  Z.of_nat (length (replicate 27 0)) = (1 + 2 * 1) * (1 + 2 * 1) * (1 + 2 * 1) ∧
  ∃ PDF4d',
    scatter 1 2 1 1 1 1 (replicate 27 0) (sample_field 54) = Ok PDF4d' ∧
    length PDF4d' = length (sample_field 54) ∧
    (∀ i j k, 0 ≤ i < 1 + 2 * 1 → 0 ≤ j < 1 + 2 * 1 → 0 ≤ k < 1 + 2 * 1 →
       ∃ v, load (replicate 27 0) (index3D 3 3 i j k) = Ok v ∧
            load PDF4d' (index4D 2 3 3 i j k 1) = Ok v) ∧
    (∀ i j k b, 0 ≤ b < 2 → b ≠ 1 →
       load PDF4d' (index4D 2 3 3 i j k b)
       = load (sample_field 54) (index4D 2 3 3 i j k b)).
Proof.
  split; [exact sample_geometry|]. split; [lia|].
  split; [exact sample_field_length|]. split; [reflexivity|].
  exact (scatter_writes_component 1 2 1 1 1 1 (replicate 27 0) (sample_field 54)
           sample_geometry ltac:(lia) sample_field_length eq_refl).
Defined.

Lemma scratch_content_irrelevant_witness :
  valid_geometry 1 2 1 1 1 ∧
  Z.of_nat (length (sample_field 54)) = (1 + 2 * 1) * (1 + 2 * 1) * (1 + 2 * 1) * 2 ∧
  two_component_call =
  exchangePDF 99 (-1) 1 2 1 1 1 0 sample_comm (-1) 1 (-1) (-1) (-1) (-1)
    (sample_field 54) (World [] []).
Proof.
  split; [exact sample_geometry|]. split; [exact sample_field_length|].
  exact (scratch_content_irrelevant 0 (-1) 1 2 1 1 1 0 sample_comm
           (-1) 1 (-1) (-1) (-1) (-1) 99 (sample_field 54) (World [] [])
           sample_geometry sample_field_length).
Defined.



(** On a field one element short, with two components, the pass of
    component 0 completes: its six exchanges are made and its message to the
    eastern neighbor is handed over before Gather of component 1 fails. *)
Example short_field_after_one_pass :
  components_inside 1 2 1 1 1 53 = 1 ∧
  ∃ PDF4d' PDF3d' w',
    for_lt 1
      (exchange_component (-1) 1 2 1 1 1 sample_comm (-1) 1 (-1) (-1) (-1) (-1))
      (sample_field 53, replicate 27 0, World [EvNew 27] [])
      = Ok (PDF4d', PDF3d', w') ∧
    length (sendrecv_calls (trace w')) = 6%nat ∧
    length (outbox w') = 1%nat ∧
    gather 1 2 1 1 1 1 PDF4d' PDF3d' = Err OutOfBounds.
Proof.
  split; [reflexivity|].
  eexists _, _, _. split; [vm_compute; reflexivity|].
  split; [reflexivity|]. split; reflexivity.
Qed.

Lemma descriptors_released_witness :
  valid_geometry 1 2 1 1 1 ∧
  Z.of_nat (length (sample_field 54)) = (1 + 2 * 1) * (1 + 2 * 1) * (1 + 2 * 1) * 2 ∧
  ∃ PDF4d' w',
    two_component_call = Ok (PDF4d', w') ∧
    datatype_events (trace w') =
      datatype_events [] ++
      (_ ← seqZ 0 2;
       [EvTypeCommit (stridex 1 1 1 1); EvTypeCommit (stridey 1 1 1 1);
        EvTypeFree (stridex 1 1 1 1); EvTypeFree (stridey 1 1 1 1)]).
Proof.
  split; [exact sample_geometry|]. split; [exact sample_field_length|].
  exact (descriptors_released 0 (-1) 1 2 1 1 1 0 sample_comm
           (-1) 1 (-1) (-1) (-1) (-1) (sample_field 54) (World [] [])
           sample_geometry sample_field_length).
Defined.

Lemma z_slab_is_plane_witness :
  valid_geometry 1 2 1 1 1 ∧
  addresses (index3D 3 3 0 0 2) (no_xy 1 1 1) MPI_DOUBLE = z_face 3 3 2.
Proof.
  split; [exact sample_geometry|].
  exact (z_slab_is_plane 1 2 1 1 1 2 sample_geometry).
Defined.

Lemma interior_values_sent_witness :
  valid_geometry 1 2 1 1 1 ∧
  Z.of_nat (length (sample_field 54)) = (1 + 2 * 1) * (1 + 2 * 1) * (1 + 2 * 1) * 2 ∧
  ∃ PDF4d' w' msgs,
    two_component_call = Ok (PDF4d', w') ∧
    outbox w' = [] ++ msgs ∧
    Forall2 (λ ac msg,
               carries (interior_address 1 1 1 1)
                 (λ q, load (sample_field 54) (ac.1 + q * 2)) ac.2 msg)
      (sent_rows (-1) 1 2 1 1 1 (-1) 1 (-1) (-1) (-1) (-1)) msgs.
Proof.
  split; [exact sample_geometry|]. split; [exact sample_field_length|].
  exact (interior_values_sent 0 (-1) 1 2 1 1 1 0 sample_comm
           (-1) 1 (-1) (-1) (-1) (-1) (sample_field 54) (World [] [])
           sample_geometry sample_field_length).
Defined.

Lemma sent_face_mirrors_ghost_face_witness :
  valid_geometry 1 2 1 1 1 ∧
  Z.of_nat (length (sample_field 54)) = (1 + 2 * 1) * (1 + 2 * 1) * (1 + 2 * 1) * 2 ∧
  ∃ PDF4d' w' t,
    two_component_call = Ok (PDF4d', w') ∧
    trace w' = [] ++ t ∧
    ∀ c, EvSendrecv c ∈ t →
      sendcount c = recvcount c ∧ sendtype c = recvtype c ∧
      ∃ i (r : nat),
        0 ≤ i < 1 ∧ (r < 6)%nat ∧ sendtag c = 111 * (Z.of_nat r + 1) ∧
        ∀ d x y z,
          d ∈ transfer_map (recvcount c) (recvtype c) →
          0 ≤ x < 3 → 0 ≤ y < 3 → 0 ≤ z < 3 →
          recvbuf c + d = index3D 3 3 x y z →
          let s := sent_cell 1 1 1 r x y z in
          ghost_coordinate 1 1 1 1 i r x y z ∧
          sendbuf c + d = index3D 3 3 s.1 s.2.1 s.2.2 ∧
          (face_cell 1 1 1 1 r x y z →
           interior 1 1 1 1 s.1 s.2.1 s.2.2 ↔ i < axis_extent 1 1 1 r).
Proof.
  split; [exact sample_geometry|]. split; [exact sample_field_length|].
  exact (sent_face_mirrors_ghost_face 0 (-1) 1 2 1 1 1 0 sample_comm
           (-1) 1 (-1) (-1) (-1) (-1) (sample_field 54) (World [] [])
           sample_geometry sample_field_length).
Defined.
